(** * The Obsidian import pipeline and the dev.to cross-poster

    A shallow embedding of the scripts of the blog repository:

    - [JS]: the JavaScript string primitives the scripts call
      ([trim], [toLowerCase], [String.prototype.replace], ...);
    - [NodePath]: [path.basename] and [path.extname] of Node's posix [path];
    - [FileUtils] (src/unnamed/part_006): [slugify], [isMarkdownFile],
      [getBasename];
    - [FrontmatterCodec] (src/unnamed/part_004): [parseFrontmatter],
      [processFrontmatter], [formatFrontmatter]; [FrontmatterUtils]
      (src/unnamed/part_005): [normalizeArray], [processFrontmatter],
      [shouldSkipFile];
    - [ImageUtils] (src/scripts/utils/obsidian-image-utils.mjs, first part):
      [normalizeImageName], [copyImage], [processImages];
    - [ImportUtils] and [ImportEnvironment] (same file, second part,
      import-obsidian-utils.mjs): [getSkipReason], [validateFrontmatter],
      [parseObsidianFrontMatter], [copyImage], [processImages],
      [buildMdxContent]; [validateEnvironment], [getEnvConfig],
      [isMarkdownFile];
    - [ImportObsidian] (src/unnamed/part_002): [processNote],
      [processFilesInParallel], [run];
    - [PublishDevto] (src/scripts/publish-devto.mjs): [sanitizeTags],
      [convertImagePathToUrl], [processPost], and the match of
      [recreateMetadataFile] on a canonical URL;
    - [MemoryWorld] and [Examples]: a small file system, a small remote
      service and example notes, to run the scripts on;
    - [Spec]: definitions that follow the words of the specification.

    Strings.  A JavaScript string is a sequence of UTF-16 code units.  The
    embedding represents a string as a [list ascii] and reads each [ascii]
    as one code unit in the range 0..255 (the Latin-1 block), where
    [toLowerCase], [\s] and [trim] are given exactly as ECMAScript defines
    them; code units above 255 are outside the model.

    Objects.  An object used as a map (a frontmatter, the metadata of the
    cross-poster) is a finite map from strings.  The name [__proto__] is
    outside this model: on a JavaScript object it is the prototype, not a
    key of the object.

    Effects.  File-system and network calls are functions on an explicit
    world; an [await]ed call that rejects is a [Throw].  Concurrent tasks of
    one [Promise.all] / [Promise.allSettled] are run one after the other in
    dispatch order.  Log output is not part of the world. *)

From stdpp Require Import gmap strings list.
From Stdlib Require Import ZArith Lia.
From Stdlib Require Ascii String.
Import Stdlib.Strings.Ascii.

Local Open Scope char_scope.
Local Open Scope list_scope.

(** A JavaScript string, and the literal [js "..."]. *)
Abbreviation jsstring := (list ascii).

Definition js (s : string) : jsstring := String.list_ascii_of_string s.

(** The double quote character. *)
Definition dquote : ascii := "034".

(** The single quote character. *)
Definition squote : ascii := "'".

(** The line feed character. *)
Definition LF : ascii := "010".

(* ================================================================== *)
(** ** JavaScript string primitives *)
(* ================================================================== *)

Module JS.

Definition code (c : ascii) : N := N_of_ascii c.

Definition inRange (lo hi : N) (c : ascii) : bool :=
  ((lo <=? code c) && (code c <=? hi))%N.

(** [\s] of a regular expression, and the characters [trim] removes:
    TAB, LF, VT, FF, CR, SPACE and NO-BREAK SPACE. *)
Definition isSpace (c : ascii) : bool :=
  inRange 9 13 c || (code c =? 32)%N || (code c =? 160)%N.

(** The line terminators [.] does not match (LF and CR below 256). *)
Definition isLineTerminator (c : ascii) : bool :=
  (code c =? 10)%N || (code c =? 13)%N.

(** [a-z] *)
Definition isLower (c : ascii) : bool := inRange 97 122 c.

(** [0-9] *)
Definition isDigit (c : ascii) : bool := inRange 48 57 c.

(** [A-Z] as a regular expression class. *)
Definition isUpperAZ (c : ascii) : bool := inRange 65 90 c.

(** The characters [toLowerCase] changes: A-Z, and the Latin-1 capitals
    U+00C0..U+00DE except the multiplication sign U+00D7. *)
Definition isCased (c : ascii) : bool :=
  inRange 65 90 c || (inRange 192 222 c && negb (code c =? 215)%N).

Definition lowerChar (c : ascii) : ascii :=
  if isCased c then ascii_of_N (code c + 32) else c.

(** [s.toLowerCase()], on the code units 0..255.  (Of the code units
    above, which are outside the model, two lower to ASCII letters: the
    Kelvin sign U+212A to [k], and U+0130 to [i] and a combining dot.) *)
Definition toLowerCase (s : jsstring) : jsstring := map lowerChar s.

Fixpoint dropWhile (p : ascii -> bool) (s : jsstring) : jsstring :=
  match s with
  | [] => []
  | c :: t => if p c then dropWhile p t else s
  end.

Fixpoint takeWhile (p : ascii -> bool) (s : jsstring) : jsstring :=
  match s with
  | [] => []
  | c :: t => if p c then c :: takeWhile p t else []
  end.

Definition trimStart (s : jsstring) : jsstring := dropWhile isSpace s.

Definition trimEnd (s : jsstring) : jsstring :=
  rev (dropWhile isSpace (rev s)).

(** [s.trim()] *)
Definition trim (s : jsstring) : jsstring := trimEnd (trimStart s).

(** Equality of characters and of strings ([===] on strings). *)
Definition eqc (a b : ascii) : bool := Ascii.eqb a b.

#[global] Arguments eqc : simpl never.

Fixpoint eqs (a b : jsstring) : bool :=
  match a, b with
  | [], [] => true
  | x :: a', y :: b' => eqc x y && eqs a' b'
  | _, _ => false
  end.

(** [s.startsWith(p)] *)
Fixpoint startsWith (p s : jsstring) : bool :=
  match p, s with
  | [], _ => true
  | x :: p', y :: s' => eqc x y && startsWith p' s'
  | _ :: _, [] => false
  end.

(** [s.endsWith(p)] *)
Definition endsWith (p s : jsstring) : bool := startsWith (rev p) (rev s).

(** [s.includes(p)] *)
Fixpoint includes (p s : jsstring) : bool :=
  startsWith p s ||
  match s with
  | [] => false
  | _ :: t => includes p t
  end.

(** [s.slice(1, -1)]: without the first and the last code unit. *)
Definition slice1m1 (s : jsstring) : jsstring :=
  match s with
  | [] => []
  | _ :: t => removelast t
  end.

(** [s.slice(1)] *)
Definition slice1 (s : jsstring) : jsstring := tail s.

(** The first occurrence of the string [p] in [s]: the text before it and
    the text after it ([s.indexOf(p)] and the two slices around it). *)
Fixpoint splitAtFirst (p s : jsstring) : option (jsstring * jsstring) :=
  if startsWith p s then Some ([], drop (length p) s)
  else match s with
       | [] => None
       | c :: t =>
           match splitAtFirst p t with
           | Some (b, a) => Some (c :: b, a)
           | None => None
           end
       end.

(** [s.split(sep)] for a one-character separator. *)
Fixpoint splitOn (sep : ascii) (s : jsstring) : list jsstring :=
  match s with
  | [] => [[]]
  | c :: t =>
      if eqc c sep then [] :: splitOn sep t
      else match splitOn sep t with
           | [] => [[c]]
           | l :: ls => (c :: l) :: ls
           end
  end.

(** [parts.join(sep)] *)
Fixpoint join (sep : jsstring) (parts : list jsstring) : jsstring :=
  match parts with
  | [] => []
  | [p] => p
  | p :: ps => p ++ sep ++ join sep ps
  end.

(** [s.replace(/[class]/g, '')] for the complement [keep] of the class. *)
Definition keepOnly (keep : ascii -> bool) (s : jsstring) : jsstring :=
  List.filter keep s.

(** [s.replace(/\s+/g, by_)]: every maximal run of whitespace becomes one
    copy of [by_]; [inRun] says that the previous character was whitespace. *)
Fixpoint replaceSpaceRuns (by_ : jsstring) (inRun : bool) (s : jsstring)
  : jsstring :=
  match s with
  | [] => []
  | c :: t =>
      if isSpace c
      then (if inRun then [] else by_) ++ replaceSpaceRuns by_ true t
      else c :: replaceSpaceRuns by_ false t
  end.

(** GetSubstitution of ECMAScript for a string pattern (no captures, no
    named groups): in the replacement text [$$] is a dollar sign, [$&] the
    matched text, [$`] the text before the match, [$'] the text after it;
    every other character, a dollar sign included, stands for itself. *)
Fixpoint getSubstitution (matched before after template : jsstring)
  : jsstring :=
  match template with
  | [] => []
  | c :: t =>
      if eqc c "$" then
        match t with
        | d :: t' =>
            if eqc d "$" then "$" :: getSubstitution matched before after t'
            else if eqc d "&"
            then matched ++ getSubstitution matched before after t'
            else if eqc d "`"
            then before ++ getSubstitution matched before after t'
            else if eqc d squote
            then after ++ getSubstitution matched before after t'
            else c :: getSubstitution matched before after t
        | [] => [c]
        end
      else c :: getSubstitution matched before after t
  end.

(** [s.replace(pattern, replacement)] with a string pattern: the first
    occurrence only, the replacement text read by [getSubstitution]. *)
Definition replaceFirst (pattern replacement s : jsstring) : jsstring :=
  match splitAtFirst pattern s with
  | None => s
  | Some (before, after) =>
      before ++ getSubstitution pattern before after replacement ++ after
  end.

End JS.


Import JS.

(* ================================================================== *)
(** ** Node's [path] module (posix) *)
(* ================================================================== *)

(** [path.basename] and [path.extname] belong to Node, not to the
    repository; they are given here by what Node's implementation computes.
    Both look at the last segment of the path: trailing slashes are set
    aside and the segment is what follows the last remaining slash. *)
Module NodePath.

Definition isSlash (c : ascii) : bool := eqc c "/".

Definition isDot (c : ascii) : bool := eqc c ".".

(** The trailing slashes of a path. *)
Definition trailingSlashes (p : jsstring) : jsstring :=
  takeWhile isSlash (rev p).

(** The last segment of a path. *)
Definition lastSegment (p : jsstring) : jsstring :=
  rev (takeWhile (fun c => negb (isSlash c)) (dropWhile isSlash (rev p))).

(** The extension of a segment: from its last dot to its end; empty when
    the segment has no dot, when its last dot is its first character, and
    when the segment is [..]. *)
Definition segmentExt (seg : jsstring) : jsstring :=
  let r := rev seg in
  match dropWhile (fun c => negb (isDot c)) r with
  | [] => []
  | _ :: [] => []
  | dot :: _ =>
      if eqs seg (js "..") then []
      else rev (takeWhile (fun c => negb (isDot c)) r ++ [dot])
  end.

(** [path.extname(p)] *)
Definition extname (p : jsstring) : jsstring := segmentExt (lastSegment p).

(** [path.basename(p)] *)
Definition basename1 (p : jsstring) : jsstring := lastSegment p.

(** [path.basename(p, suffix)]: the last segment without [suffix] when it
    ends with it and is more than it.  (When the suffix to remove is longer
    than the segment and ends with it, Node returns the segment with the
    path's trailing slashes.) *)
Definition basename (p suffix : jsstring) : jsstring :=
  let seg := lastSegment p in
  if (length suffix =? 0)%nat || (length p <? length suffix)%nat then seg
  else if eqs suffix p then []
  else if endsWith suffix seg then
    (if eqs suffix seg then seg else take (length seg - length suffix) seg)
  else if endsWith seg suffix then seg ++ trailingSlashes p
  else seg.

End NodePath.

(* ================================================================== *)
(** ** File utilities (src/unnamed/part_006) *)
(* ================================================================== *)

Module FileUtils.

(** [/[^a-z0-9\s-]/]: the characters [slugify] keeps. *)
Definition isSlugChar (c : ascii) : bool :=
  isLower c || isDigit c || isSpace c || eqc c "-".

(** [slugify(name)] *)
Definition slugify (name : jsstring) : jsstring :=
  replaceSpaceRuns (js "-") false
    (trim (keepOnly isSlugChar (toLowerCase name))).

Definition MARKDOWN_EXTENSIONS : list jsstring := [js ".md"; js ".mdx"].

(** [isMarkdownFile(filename)] *)
Definition isMarkdownFile (filename : jsstring) : bool :=
  existsb (fun ext => endsWith ext filename) MARKDOWN_EXTENSIONS.

(** [getBasename(filePath)] *)
Definition getBasename (filePath : jsstring) : jsstring :=
  NodePath.basename filePath (NodePath.extname filePath).

End FileUtils.

(* ================================================================== *)
(** ** JavaScript values, thrown values and asynchronous calls *)
(* ================================================================== *)

(** The values a frontmatter field can hold once YAML is parsed: a Date
    carries its time value ([None] for an invalid date), [VObject] is any
    other object (a nested mapping). *)
#[warnings="-register-all"]
Inductive value : Type :=
| VUndefined
| VNull
| VBool (b : bool)
| VNum (n : Z)
| VNaN
| VStr (s : jsstring)
| VArr (items : list value)
| VDate (time : option Z)
| VObject.

(** A frontmatter object; a key that is not bound reads as [undefined]. *)
Abbreviation frontmatter := (gmap jsstring value).

Definition getField (fm : frontmatter) (key : string) : value :=
  default VUndefined (fm !! js key).

Definition setField (fm : frontmatter) (key : string) (v : value)
  : frontmatter :=
  <[js key := v]> fm.

(** ToBoolean *)
Definition truthy (v : value) : bool :=
  match v with
  | VUndefined | VNull | VNaN => false
  | VBool b => b
  | VNum n => negb (n =? 0)%Z
  | VStr s => negb (eqs s [])
  | VArr _ | VDate _ | VObject => true
  end.

(** [typeof v === 'string'] *)
Definition isString (v : value) : bool :=
  match v with VStr _ => true | _ => false end.

(** [Array.isArray(v)] *)
Definition isArray (v : value) : bool :=
  match v with VArr _ => true | _ => false end.

(** [v === true || v === 'true'] *)
Definition isTrueOrTrueString (v : value) : bool :=
  match v with
  | VBool b => b
  | VStr s => eqs s (js "true")
  | _ => false
  end.

(** A thrown value (the reason of a rejected promise), as the scripts
    observe it: through [.message] and through [String(...)]. *)
Record exn : Type := mkExn { exnMessage : value; exnString : jsstring }.

(** [new Error(msg)] *)
Definition Error (msg : jsstring) : exn :=
  mkExn (VStr msg) (js "Error: " ++ msg).

Inductive result (A : Type) : Type :=
| Ok (a : A)
| Throw (e : exn).

Arguments Ok {A} a.
Arguments Throw {A} e.

(** An asynchronous computation over the world [W]: it settles with a
    value or a thrown value, and leaves a world behind. *)
Definition M (W A : Type) : Type := W -> result A * W.

Definition ret {W A} (a : A) : M W A := fun w => (Ok a, w).

Definition throw {W A} (e : exn) : M W A := fun w => (Throw e, w).

Definition bind {W A B} (m : M W A) (k : A -> M W B) : M W B :=
  fun w => match m w with
           | (Ok a, w') => k a w'
           | (Throw e, w') => (Throw e, w')
           end.

(** [try { m } catch (e) { h e }] *)
Definition tryCatch {W A} (m : M W A) (h : exn -> M W A) : M W A :=
  fun w => match m w with
           | (Ok a, w') => (Ok a, w')
           | (Throw e, w') => h e w'
           end.

(** A synchronous call that may throw. *)
Definition lift {W A} (r : result A) : M W A := fun w => (r, w).

Notation "'await' x <- m ;; k" := (bind m (fun x => k))
  (at level 10, x pattern, m at level 99, k at level 200).
Notation "'run' m ;; k" := (bind m (fun _ => k))
  (at level 10, m at level 99, k at level 200).

(** Running tasks one after the other and keeping how each one settled. *)
Fixpoint settleAll {W A} (tasks : list (M W A)) : W -> list (result A) * W :=
  fun w => match tasks with
           | [] => ([], w)
           | t :: ts =>
               let '(r, w1) := t w in
               let '(rs, w2) := settleAll ts w1 in
               (r :: rs, w2)
           end.

(** The values of a list of settled tasks, or the first rejection. *)
Fixpoint allFulfilled {A} (rs : list (result A)) : result (list A) :=
  match rs with
  | [] => Ok []
  | Ok a :: rs' =>
      match allFulfilled rs' with
      | Ok l => Ok (a :: l)
      | Throw e => Throw e
      end
  | Throw e :: _ => Throw e
  end.

(** [await Promise.all(tasks)] *)
Definition promiseAll {W A} (tasks : list (M W A)) : M W (list A) :=
  fun w => let '(rs, w') := settleAll tasks w in (allFulfilled rs, w').

(** The runtime and the libraries the scripts call: [path.join], the Date
    constructor ([validDate v] says that [new Date(v)] is a valid date),
    [toISOString().split('T')[0]] of a valid date, ToString of the values
    that are not given below, and gray-matter's [matter] and
    [matter.stringify]. *)
Class Host : Type := {
  pathJoin : jsstring -> jsstring -> jsstring;
  validDate : value -> bool;
  isoDay : Z -> jsstring;
  hostToString : value -> jsstring;
  matter : jsstring -> result (frontmatter * jsstring);
  matterStringify : jsstring -> frontmatter -> result jsstring
}.

(** ToString *)
Definition toStr `{Host} (v : value) : jsstring :=
  match v with
  | VStr s => s
  | VUndefined => js "undefined"
  | VNull => js "null"
  | VBool true => js "true"
  | VBool false => js "false"
  | VNaN => js "NaN"
  | _ => hostToString v
  end.

(** The calls of fs-extra the import uses.  [pathExists] never rejects. *)
Class FileSystem (W : Type) : Type := {
  readFile : jsstring -> M W jsstring;
  writeFile : jsstring -> jsstring -> M W unit;
  ensureDir : jsstring -> M W unit;
  pathExists : jsstring -> W -> bool;
  copy : jsstring -> jsstring -> M W unit
}.

(* ================================================================== *)
(** ** Regular expressions over image tokens *)
(* ================================================================== *)

(** [content.matchAll(re)] for a regular expression [re] that is given by
    its match at the start of a text ([matchAt], the matched text [match[0]]
    and the group [match[1]]): the leftmost match, then the search goes on
    after it.  [skip] counts the characters of the last match still to
    pass. *)
Fixpoint matchAll (matchAt : jsstring -> option (jsstring * jsstring))
  (skip : nat) (s : jsstring) : list (jsstring * jsstring) :=
  match s with
  | [] => []
  | _ :: t =>
      match skip with
      | S k => matchAll matchAt k t
      | O =>
          match matchAt s with
          | Some (whole, group) =>
              (whole, group) :: matchAll matchAt (length whole - 1) t
          | None => matchAll matchAt 0 t
          end
      end
  end.

Definition notBracket (c : ascii) : bool := negb (eqc c "]").

(* ================================================================== *)
(** ** obsidian-image-utils.mjs *)
(* ================================================================== *)

(** The outcome of one copy: [{ success, originalName, normalizedName?,
    error? }]; an absent [normalizedName] is [None], an absent [error] is
    [VUndefined]. *)
Record copyResult : Type := mkCopyResult {
  success : bool;
  originalName : jsstring;
  normalizedName : option jsstring;
  error : value
}.

(** [{ content, results }] *)
Record imagesResult : Type := mkImagesResult {
  content : jsstring;
  results : list copyResult
}.

(** The Markdown reference [![name](./assets/name)] as a replacement
    text. *)
Definition markdownRef (name : jsstring) : jsstring :=
  js "![" ++ name ++ js "](./assets/" ++ name ++ js ")".

Module ImageUtils.

(** The group [(.*?)] followed by [\s*\]\]]: the shortest run of
    characters other than line terminators after which whitespace and [ ]] ]
    follow; with it, the text after the match. *)
Fixpoint lazyGroup (s : jsstring) : option (jsstring * jsstring) :=
  if startsWith (js "]]") (dropWhile isSpace s)
  then Some ([], drop 2 (dropWhile isSpace s))
  else match s with
       | [] => None
       | c :: t =>
           if isLineTerminator c then None
           else match lazyGroup t with
                | Some (g, rest) => Some (c :: g, rest)
                | None => None
                end
       end.

(** [/!\[\[\s*(.*?)\s*\]\]/] at the start of [s]. *)
Definition imageTokenAt (s : jsstring) : option (jsstring * jsstring) :=
  if startsWith (js "![[") s then
    match lazyGroup (dropWhile isSpace (drop 3 s)) with
    | Some (g, rest) => Some (take (length s - length rest) s, g)
    | None => None
    end
  else None.

(** [OBSIDIAN_IMAGE_REGEX] *)
Definition OBSIDIAN_IMAGE_REGEX (s : jsstring) : list (jsstring * jsstring) :=
  matchAll imageTokenAt 0 s.

(** [normalizeImageName(imageName)] *)
Definition normalizeImageName (imageName : jsstring) : jsstring :=
  let ext := NodePath.extname imageName in
  let basename := NodePath.basename imageName ext in
  let normalized := replaceSpaceRuns (js "-") false (toLowerCase basename) in
  normalized ++ ext.

Section WithWorld.
Context `{Host} {W : Type} `{FileSystem W}.

(** [copyImage(sourcePath, destPath, originalName, normalizedName)] *)
Definition copyImage (sourcePath destPath originalName normalizedName
  : jsstring) : M W copyResult :=
  fun w =>
    if pathExists sourcePath w then
      (run copy sourcePath destPath ;;
       ret (mkCopyResult true originalName (Some normalizedName) VUndefined))
      w
    else
      ret (mkCopyResult false originalName None (VStr (js "missing"))) w.

(** The copy task the loop of [processImages] starts for a match. *)
Definition imageTask (sourceDir assetsDir : jsstring)
  (m : jsstring * jsstring) : M W copyResult :=
  let originalImageName := snd m in
  let normalizedImageName := normalizeImageName originalImageName in
  let sourceImagePath := pathJoin sourceDir originalImageName in
  let destImagePath := pathJoin assetsDir normalizedImageName in
  copyImage sourceImagePath destImagePath originalImageName
    normalizedImageName.

(** The loop of [processImages]: the copy tasks in the order of the
    matches, and the content after the replacements. *)
Fixpoint imageLoop (sourceDir assetsDir : jsstring)
  (matches : list (jsstring * jsstring)) (updatedContent : jsstring)
  : list (M W copyResult) * jsstring :=
  match matches with
  | [] => ([], updatedContent)
  | m :: rest =>
      let normalizedImageName := normalizeImageName (snd m) in
      let task := imageTask sourceDir assetsDir m in
      let updated := replaceFirst (fst m) (markdownRef normalizedImageName)
                       updatedContent in
      let '(tasks, final) := imageLoop sourceDir assetsDir rest updated in
      (task :: tasks, final)
  end.

(** [processImages(content, sourceDir, destDir)] *)
Definition processImages (content sourceDir destDir : jsstring)
  : M W imagesResult :=
  let matches := OBSIDIAN_IMAGE_REGEX content in
  match matches with
  | [] => ret (mkImagesResult content [])
  | _ =>
      let assetsDir := pathJoin destDir (js "assets") in
      run ensureDir assetsDir ;;
      let '(imageTasks, updatedContent) :=
        imageLoop sourceDir assetsDir matches content in
      await results <- promiseAll imageTasks ;;
      ret (mkImagesResult updatedContent results)
  end.

End WithWorld.

End ImageUtils.

(* ================================================================== *)
(** ** import-obsidian-utils.mjs *)
(* ================================================================== *)

Module ImportUtils.

(** [slugify(name)] *)
Definition slugify (name : jsstring) : jsstring :=
  replaceSpaceRuns (js "-") false
    (trim (keepOnly FileUtils.isSlugChar (toLowerCase name))).

(** [getBasename(filePath)] *)
Definition getBasename (filePath : jsstring) : jsstring :=
  NodePath.basename filePath (NodePath.extname filePath).

(** [getSkipReason(frontmatter)]: the reason, or [null]. *)
Definition getSkipReason (fm : frontmatter) : option jsstring :=
  if isTrueOrTrueString (getField fm "can_skip")
  then Some (js "can_skip property is set to true")
  else if isTrueOrTrueString (getField fm "is_draft")
  then Some (js "post is marked as draft")
  else None.

(** [normalizeObsidianArray(value)] *)
Definition normalizeObsidianArray (v : value) : value :=
  if isArray v then v
  else if truthy v && isString v then VArr [v]
  else VArr [].

(** The callback of [frontmatter.tags.map]: a leading [#] is removed from
    a string tag. *)
Definition stripHash (tag : value) : value :=
  match tag with
  | VStr s => if startsWith (js "#") s then VStr (slice1 s) else tag
  | _ => tag
  end.

(** [title] is kept when it is a string whose [trim()] is not empty. *)
Definition keepsTitle (title : value) : bool :=
  match title with
  | VStr s => truthy title && negb (eqs (trim s) [])
  | _ => false
  end.

(** [/!\[\[([^\]]+)\]\]/] at the start of [s]. *)
Definition imageTokenAt (s : jsstring) : option (jsstring * jsstring) :=
  if startsWith (js "![[") s then
    let g := takeWhile notBracket (drop 3 s) in
    let rest := dropWhile notBracket (drop 3 s) in
    if negb (eqs g []) && startsWith (js "]]") rest
    then Some (js "![[" ++ g ++ js "]]", g)
    else None
  else None.

(** [OBSIDIAN_IMAGE_REGEX] *)
Definition OBSIDIAN_IMAGE_REGEX (s : jsstring) : list (jsstring * jsstring) :=
  matchAll imageTokenAt 0 s.

(** [normalizeImageName(imageName)] *)
Definition normalizeImageName (imageName : jsstring) : jsstring :=
  let ext := NodePath.extname imageName in
  let basename := NodePath.basename imageName ext in
  let normalized := replaceSpaceRuns (js "-") false (toLowerCase basename) in
  normalized ++ ext.

(** The reference [processImages] writes for a result. *)
Definition resultRef (r : copyResult) : jsstring :=
  let name := match normalizedName r with
              | Some n => n
              | None => js "undefined"
              end in
  markdownRef name.

(** The [forEach] of [processImages] over the matches and their results. *)
Fixpoint replaceAllRefs (pairs : list ((jsstring * jsstring) * copyResult))
  (updatedContent : jsstring) : jsstring :=
  match pairs with
  | [] => updatedContent
  | ((whole, _), r) :: rest =>
      replaceAllRefs rest (replaceFirst whole (resultRef r) updatedContent)
  end.

Section WithHost.
Context `{Host}.

(** [validateFrontmatter(frontmatter)]: the error message, or [null]. *)
Definition validateFrontmatter (fm : frontmatter) : option jsstring :=
  let description := getField fm "description" in
  let date := getField fm "date" in
  let issues1 :=
    if negb (truthy description) then [js "description (missing)"]
    else if negb (isString description)
    then [js "description (invalid type, expected string)"]
    else [] in
  let issues2 :=
    if negb (truthy date) then [js "date (missing)"]
    else if negb (validDate date)
    then [js "date (invalid: " ++ [dquote] ++ toStr date ++ [dquote]
            ++ js ")"]
    else [] in
  let issues := issues1 ++ issues2 in
  match issues with
  | [] => None
  | _ => Some (js "frontmatter validation failed: " ++ join (js ", ") issues)
  end.

(** [parseObsidianFrontMatter(frontmatter, filename, getBasename)] *)
Definition parseObsidianFrontMatter (fm : frontmatter) (filename : jsstring)
  (getBasename : jsstring -> jsstring) : frontmatter :=
  let basename := getBasename filename in
  let fm1 := if keepsTitle (getField fm "title") then fm
             else setField fm "title" (VStr basename) in
  let fm2 := setField fm1 "tags"
               (normalizeObsidianArray (getField fm1 "tags")) in
  match getField fm2 "tags" with
  | VArr tags => setField fm2 "tags" (VArr (map stripHash tags))
  | _ => fm2
  end.

(** [formatDate(date)]; [toISOString] throws on an invalid date. *)
Definition formatDate (date : value) : result value :=
  match date with
  | VDate (Some t) => Ok (VStr (isoDay t))
  | VDate None =>
      Throw (mkExn (VStr (js "Invalid time value"))
               (js "RangeError: Invalid time value"))
  | _ => Ok date
  end.

(** [buildMdxContent(body, frontmatter)] *)
Definition buildMdxContent (body : jsstring) (fm : frontmatter)
  : result jsstring :=
  if truthy (getField fm "date") then
    match formatDate (getField fm "date") with
    | Ok d => matterStringify body (setField fm "date" d)
    | Throw e => Throw e
    end
  else matterStringify body fm.

Context {W : Type} `{FileSystem W}.

(** [copyImage(sourcePath, destPath, originalName, normalizedName)] *)
Definition copyImage (sourcePath destPath originalName normalizedName
  : jsstring) : M W copyResult :=
  tryCatch
    (fun w =>
       if negb (pathExists sourcePath w) then
         ret (mkCopyResult false originalName (Some normalizedName)
                VUndefined) w
       else
         (run copy sourcePath destPath ;;
          ret (mkCopyResult true originalName (Some normalizedName)
                 VUndefined)) w)
    (fun e =>
       ret (mkCopyResult false originalName (Some normalizedName)
              (exnMessage e))).

(** The callback of [matches.map] in [processImages]. *)
Definition imageTask (sourceDir assetsDir : jsstring)
  (m : jsstring * jsstring) : M W copyResult :=
  let originalImageName := trim (snd m) in
  let normalizedImageName := normalizeImageName originalImageName in
  let sourceImagePath := pathJoin sourceDir originalImageName in
  let destImagePath := pathJoin assetsDir normalizedImageName in
  copyImage sourceImagePath destImagePath originalImageName
    normalizedImageName.

(** [processImages(content, sourceDir, destDir)] *)
Definition processImages (content sourceDir destDir : jsstring)
  : M W imagesResult :=
  let matches := OBSIDIAN_IMAGE_REGEX content in
  match matches with
  | [] => ret (mkImagesResult content [])
  | _ =>
      let assetsDir := pathJoin destDir (js "assets") in
      run ensureDir assetsDir ;;
      let imageTasks := map (imageTask sourceDir assetsDir) matches in
      await results <- promiseAll imageTasks ;;
      ret (mkImagesResult
             (replaceAllRefs (combine matches results) content) results)
  end.

End WithHost.

End ImportUtils.

(* ================================================================== *)
(** ** The import script (src/unnamed/part_002) *)
(* ================================================================== *)

Inductive status : Type := imported | skipped | error_.

(** [{ status, filename, message?, slug? }] *)
Record noteResult : Type := mkNoteResult {
  noteStatus : status;
  noteFilename : jsstring;
  noteMessage : value;
  noteSlug : option jsstring
}.

(** The configuration [getEnvConfig] returns. *)
Record config : Type := mkConfig {
  sourceMarkdownDir : jsstring;
  sourceAttachmentDir : jsstring;
  targetDir : jsstring
}.

(** [fs.readdir(dir)]: the names of the entries of a directory. *)
Class Directory (W : Type) : Type := {
  readdir : jsstring -> M W (list jsstring)
}.

(** How [run] of the import ends: it returns, with the entries of the
    notes or, when the directory has no Markdown file, without; or it ends
    the process with [process.exit(code)]. *)
Inductive runEnd : Type :=
| returned (results : option (list noteResult))
| exited (code : Z).

(** The environment utilities of import-obsidian-utils.mjs.  [process.env]
    is the mapping of the variables that are set to their values. *)
Module ImportEnvironment.

(** [process.env[key]] *)
Definition envValue (env : gmap jsstring jsstring) (key : jsstring) : value :=
  match env !! key with
  | Some text => VStr text
  | None => VUndefined
  end.

Definition required : list jsstring :=
  [js "SOURCE_MARKDOWN_DIR"; js "SOURCE_ATTACHMENT_DIR"; js "TARGET_DIR"].

(** [validateEnvironment()] *)
Definition validateEnvironment (env : gmap jsstring jsstring) : result unit :=
  let missing :=
    List.filter (fun key => negb (truthy (envValue env key))) required in
  if (0 <? length missing)%nat
  then Throw (Error (js "missing required environment variables: "
                       ++ join (js ", ") missing))
  else Ok tt.

(** [getEnvConfig()]; [None] stands for an object with an undefined
    field, which is what a variable that is not set gives. *)
Definition getEnvConfig (env : gmap jsstring jsstring) : option config :=
  match env !! js "SOURCE_MARKDOWN_DIR", env !! js "SOURCE_ATTACHMENT_DIR",
        env !! js "TARGET_DIR" with
  | Some sourceMarkdownDir, Some sourceAttachmentDir, Some targetDir =>
      Some (mkConfig sourceMarkdownDir sourceAttachmentDir targetDir)
  | _, _, _ => None
  end.

(** [isMarkdownFile(filename)] *)
Definition isMarkdownFile (filename : jsstring) : bool :=
  existsb (fun ext => endsWith ext filename) [js ".md"; js ".mdx"].

End ImportEnvironment.

Module ImportObsidian.

Import ImportUtils.

(** [result.reason?.message || String(result.reason) || 'unknown error'] *)
Definition errorMessage (reason : exn) : value :=
  if truthy (exnMessage reason) then exnMessage reason
  else if negb (eqs (exnString reason) []) then VStr (exnString reason)
  else VStr (js "unknown error").

(** The [forEach] over the settled results of a batch: the value of a
    fulfilled note, an [error] entry for a rejected one. *)
Definition collect (batch : list jsstring)
  (batchResults : list (result noteResult)) : list noteResult :=
  map (fun '(filePath, r) =>
         match r with
         | Ok v => v
         | Throw reason =>
             mkNoteResult error_ (NodePath.basename1 filePath)
               (errorMessage reason) None
         end)
      (combine batch batchResults).

Section WithWorld.
Context `{Host} {W : Type} `{FileSystem W}.

(** [readNoteFile(filePath)] *)
Definition readNoteFile (filePath : jsstring) : M W (frontmatter * jsstring) :=
  await content <- readFile filePath ;;
  lift (matter content).

(** [writeMdxFile(destinationDir, content)] *)
Definition writeMdxFile (destinationDir content : jsstring) : M W unit :=
  let destPath := pathJoin destinationDir (js "index.mdx") in
  writeFile destPath content.

(** [processNote(filePath, config)] *)
Definition processNote (filePath : jsstring) (cfg : config) : M W noteResult :=
  let filename := NodePath.basename1 filePath in
  tryCatch
    (await (fm, body) <- readNoteFile filePath ;;
     match getSkipReason fm with
     | Some skipReason =>
         ret (mkNoteResult skipped filename (VStr skipReason) None)
     | None =>
         match validateFrontmatter fm with
         | Some validationError =>
             ret (mkNoteResult error_ filename (VStr validationError) None)
         | None =>
             let slug := slugify (getBasename filePath) in
             let destinationDir := pathJoin (targetDir cfg) slug in
             run ensureDir destinationDir ;;
             let processedFrontmatter :=
               parseObsidianFrontMatter fm filePath getBasename in
             await imageResult <-
               processImages body (sourceAttachmentDir cfg) destinationDir ;;
             await finalContent <-
               lift (buildMdxContent (content imageResult)
                       processedFrontmatter) ;;
             run writeMdxFile destinationDir finalContent ;;
             ret (mkNoteResult imported filename VUndefined (Some slug))
         end
     end)
    (fun e => ret (mkNoteResult error_ filename (exnMessage e) None)).

(** The loop of [processFilesInParallel] over a note processor [process]:
    from index [i] it takes the batch [filePaths.slice(i, i + concurrency)],
    settles it, appends its entries to [results] and goes on at
    [i + concurrency].  Every turn of the loop uses one unit of [fuel];
    [None] means that the fuel ran out before the loop ended. *)
Fixpoint batchLoop (process : jsstring -> config -> M W noteResult)
  (fuel : nat) (filePaths : list jsstring) (cfg : config)
  (concurrency i : nat) (results : list noteResult)
  : W -> option (list noteResult) * W :=
  fun w =>
    if (i <? length filePaths)%nat then
      match fuel with
      | O => (None, w)
      | S fuel' =>
          let batch := take concurrency (drop i filePaths) in
          let '(batchResults, w') :=
            settleAll (map (fun filePath => process filePath cfg) batch) w in
          batchLoop process fuel' filePaths cfg concurrency (i + concurrency)
            (results ++ collect batch batchResults) w'
      end
    else (Some results, w).

(** [processFilesInParallel(files, config, concurrency)] over a note
    processor. *)
Definition processFilesWith (process : jsstring -> config -> M W noteResult)
  (fuel : nat) (files : list jsstring) (cfg : config) (concurrency : nat)
  : W -> option (list noteResult) * W :=
  let filePaths := map (fun file => pathJoin (sourceMarkdownDir cfg) file)
                     files in
  batchLoop process fuel filePaths cfg concurrency 0 [].

(** [processFilesInParallel(files, config, concurrency = 8)] *)
Definition processFilesInParallel (fuel : nat) (files : list jsstring)
  (cfg : config) (concurrency : nat) : W -> option (list noteResult) * W :=
  processFilesWith processNote fuel files cfg concurrency.

End WithWorld.

Section WithDirectory.
Context `{Host} {W : Type} `{FileSystem W} `{Directory W}.

(** [run()], for the environment [env].  [fs.readdir] of an undefined
    directory throws, like every error before the notes are processed, into
    the [catch] that ends the process with code 1.  ([fuel] is the fuel of
    the batch loop; the name [run] is taken by the notation above.) *)
Definition run_ (fuel : nat) (env : gmap jsstring jsstring)
  : W -> option runEnd * W :=
  fun w =>
    match ImportEnvironment.validateEnvironment env with
    | Throw _ => (Some (exited 1), w)
    | Ok _ =>
        match ImportEnvironment.getEnvConfig env with
        | None => (Some (exited 1), w)
        | Some cfg =>
            match readdir (sourceMarkdownDir cfg) w with
            | (Throw _, w1) => (Some (exited 1), w1)
            | (Ok files, w1) =>
                let markdownFiles :=
                  List.filter ImportEnvironment.isMarkdownFile files in
                if (length markdownFiles =? 0)%nat
                then (Some (returned None), w1)
                else
                  match processFilesInParallel fuel markdownFiles cfg 8 w1
                  with
                  | (Some results, w2) =>
                      (Some (returned (Some results)), w2)
                  | (None, w2) => (None, w2)
                  end
            end
        end
    end.

End WithDirectory.

End ImportObsidian.

(* ================================================================== *)
(** ** The dev.to cross-poster (src/scripts/publish-devto.mjs) *)
(* ================================================================== *)

(** An article as the dev.to API returns it. *)
Record article : Type := mkArticle {
  artId : value;
  artUrl : value;
  artPublished : value;
  artCanonicalUrl : value
}.

(** The payload of a create or update call. *)
Record articleData : Type := mkArticleData {
  title : value;
  body_markdown : jsstring;
  tags : list jsstring;
  published : bool;
  canonical_url : jsstring;
  description : value;
  main_image : option jsstring
}.

(** An entry of the metadata file. *)
Record postMetadata : Type := mkPostMetadata {
  devtoId : value;
  devtoUrl : value;
  canonicalUrl : jsstring;
  lastUpdated : jsstring
}.

(** [{ id, path }] *)
Record post : Type := mkPost { postId : jsstring; postPath : jsstring }.

(** What [processPost] returns: [{ skipped: false, id, devtoId, devtoUrl,
    published }]. *)
Record syncResult : Type := mkSyncResult {
  syncId : jsstring;
  syncDevtoId : value;
  syncDevtoUrl : value;
  syncPublished : value
}.

(** The calls the cross-poster makes: [fs.readFile], the three requests to
    the dev.to API, and the clock ([new Date().toISOString()]). *)
Class DevTo (W : Type) : Type := {
  readPost : jsstring -> M W jsstring;
  getAllDevToArticles : M W (list article);
  updateArticle : value -> articleData -> M W article;
  createArticle : articleData -> M W article;
  nowISO : W -> jsstring
}.

Module PublishDevto.

Definition DEFAULT_BANNER_URL : jsstring :=
  js "/public/static/common/default-post-banner-1200x630.jpg".

Definition GITHUB_RAW_BASE_URL : jsstring :=
  js "https://raw.githubusercontent.com/theinfinull/portfolio/refs/heads/main".

(** [convertImagePathToUrl(imagePath, postId)]: the URL, or [null]. *)
Definition convertImagePathToUrl (imagePath : value) (postId : jsstring)
  : option jsstring :=
  match imagePath with
  | VStr p =>
      if negb (truthy imagePath) then None
      else if startsWith (js "http://") p || startsWith (js "https://") p
      then Some p
      else Some (GITHUB_RAW_BASE_URL ++ js "/src/content/blog/" ++ postId
                   ++ js "/" ++ p)
  | _ => None
  end.

(** [/[-_\s]/] *)
Definition isSeparator (c : ascii) : bool :=
  eqc c "-" || eqc c "_" || isSpace c.

(** [/[^a-z0-9]/]: the characters that stay. *)
Definition isAlnum (c : ascii) : bool := isLower c || isDigit c.

(** The callback of [tags.map] on a string tag. *)
Definition sanitizeTag (tag : jsstring) : jsstring :=
  trim
    (keepOnly isAlnum
       (toLowerCase (keepOnly (fun c => negb (isSeparator c)) tag))).

(** The callback of [tags.map]: [null] for an entry that is no string. *)
Definition sanitizeEntry (tag : value) : option jsstring :=
  match tag with
  | VStr s => Some (sanitizeTag s)
  | _ => None
  end.

(** The callback of [filter]: [tag && tag.length > 0]. *)
Definition keptEntry (tag : option jsstring) : bool :=
  match tag with
  | Some s => negb (eqs s []) && (0 <? length s)%nat
  | None => false
  end.

(** [sanitizeTags(tags)] *)
Definition sanitizeTags (tags : value) : list jsstring :=
  match tags with
  | VArr items =>
      take 4
        (omap (fun t => if keptEntry t then t else None)
           (map sanitizeEntry items))
  | _ => []
  end.

Section WithWorld.
Context `{Host} {W : Type} `{DevTo W}.

(** [ORIGINAL_SITE_URL] as it reads inside a template literal, and
    [convertMdxToMarkdown(content, postId)], a function of the text only. *)
Variable ORIGINAL_SITE_URL : jsstring.
Variable convertMdxToMarkdown : jsstring -> jsstring -> jsstring.

(** [getArticleByCanonicalUrl(canonicalUrl)]: the first article whose
    [canonical_url] is the string, or [undefined]. *)
Definition getArticleByCanonicalUrl (canonicalUrl : jsstring)
  : M W (option article) :=
  await articles <- getAllDevToArticles ;;
  ret (List.find
         (fun a => match artCanonicalUrl a with
                   | VStr u => eqs u canonicalUrl
                   | _ => false
                   end)
         articles).

(** [existingArticle?.id || existingMetadata?.devtoId] *)
Definition knownArticleId (existingArticle : option article)
  (existingMetadata : option postMetadata) : value :=
  let a := match existingArticle with
           | Some art => artId art
           | None => VUndefined
           end in
  if truthy a then a
  else match existingMetadata with
       | Some m => devtoId m
       | None => VUndefined
       end.

(** [canonicalUrl] *)
Definition canonicalUrlOf (id : jsstring) : jsstring :=
  ORIGINAL_SITE_URL ++ js "/blog/" ++ id.

(** [articleData] *)
Definition articleDataOf (fm : frontmatter) (body id : jsstring)
  (publish : bool) : articleData :=
  let markdownBody := convertMdxToMarkdown body id in
  let mainImage :=
    if truthy (getField fm "image")
    then convertImagePathToUrl (getField fm "image") id
    else Some (GITHUB_RAW_BASE_URL ++ DEFAULT_BANNER_URL) in
  mkArticleData (getField fm "title") markdownBody
    (sanitizeTags (getField fm "tags")) publish (canonicalUrlOf id)
    (if truthy (getField fm "description")
     then getField fm "description" else VStr [])
    mainImage.

(** The end of [processPost]: the metadata entry is written and the result
    returned.  The metadata object is a finite map here, as it is in
    JavaScript for every post id but [__proto__]: assigning to that name
    sets the prototype of the object and adds no entry, so the properties
    about the recorded entry are stated for the other ids. *)
Definition recordPosted (id : jsstring)
  (metadata : gmap jsstring postMetadata) (result : article)
  : M W (syncResult * gmap jsstring postMetadata) :=
  fun w =>
    ret (mkSyncResult id (artId result) (artUrl result)
           (artPublished result),
         <[id := mkPostMetadata (artId result) (artUrl result)
                   (canonicalUrlOf id) (nowISO w)]> metadata) w.

(** [processPost(post, metadata, publish)]: the result and the metadata
    object after the call (it is written only once the article is posted). *)
Definition processPost (p : post) (metadata : gmap jsstring postMetadata)
  (publish : bool) : M W (syncResult * gmap jsstring postMetadata) :=
  let id := postId p in
  tryCatch
    (await content <- readPost (postPath p) ;;
     await (fm, body) <- lift (matter content) ;;
     let data := articleDataOf fm body id publish in
     await existingArticle <- getArticleByCanonicalUrl (canonicalUrlOf id) ;;
     let existingMetadata := metadata !! id in
     let articleId := knownArticleId existingArticle existingMetadata in
     await result <-
       (if truthy articleId then
          tryCatch (updateArticle articleId data)
            (fun _ => createArticle data)
        else createArticle data) ;;
     recordPosted id metadata result)
    (fun e => throw e).

End WithWorld.

(** The match of [recreateMetadataFile] on a canonical URL.  The regular
    expression is the text of [ORIGINAL_SITE_URL] with its special
    characters escaped, then [/blog/] and the group [([^/]+)]; the result is
    the group of the leftmost match ([canonicalMatch[1]]), or [None] when
    there is no match. *)
Fixpoint canonicalMatch (site url : jsstring) : option jsstring :=
  let start := site ++ js "/blog/" in
  let here :=
    if startsWith start url
    then match takeWhile (fun c => negb (eqc c "/")) (drop (length start) url)
         with
         | [] => None
         | group => Some group
         end
    else None in
  match here with
  | Some group => Some group
  | None =>
      match url with
      | [] => None
      | _ :: t => canonicalMatch site t
      end
  end.

End PublishDevto.

(* ================================================================== *)
(** ** The frontmatter codec (src/unnamed/part_004) *)
(* ================================================================== *)

Module FrontmatterCodec.

Definition isQuote (c : ascii) : bool := eqc c dquote || eqc c squote.

(** The quote removal of [parseFrontmatter]: a text that starts and ends
    with the same kind of quote loses its first and last character. *)
Definition unquote (s : jsstring) : jsstring :=
  if (startsWith [dquote] s && endsWith [dquote] s)
     || (startsWith [squote] s && endsWith [squote] s)
  then slice1m1 s
  else s.

(** [item.replace(/^["']|["']$/g, "")]: a quote at the start goes, then a
    quote at the end. *)
Definition stripQuoteEnds (s : jsstring) : jsstring :=
  let s1 := match s with
            | c :: t => if isQuote c then t else s
            | [] => []
            end in
  match rev s1 with
  | c :: t => if isQuote c then rev t else s1
  | [] => s1
  end.

(** The ways [\s*\n] matches at the start of [s], in the order a
    backtracking matcher tries them (the longest [\s*] first): for every
    line feed of the leading whitespace of [s], the text after it. *)
Fixpoint afterSpacesNewline (s : jsstring) : list jsstring :=
  match s with
  | [] => []
  | c :: t =>
      if isSpace c
      then afterSpacesNewline t ++ (if eqc c LF then [t] else [])
      else []
  end.

(** The rest of the expression from the start of [t], that is the lazy
    first group, the closing marker [\n---\s*\n] and the second group up to
    the end: the shortest first group after which the closing marker
    matches, and the body. *)
Fixpoint closingMarker (t : jsstring) : option (jsstring * jsstring) :=
  match (if startsWith (LF :: js "---") t
         then afterSpacesNewline (drop 4 t) else []) with
  | body :: _ => Some ([], body)
  | [] =>
      match t with
      | [] => None
      | c :: t' =>
          match closingMarker t' with
          | Some (g, body) => Some (c :: g, body)
          | None => None
          end
      end
  end.

(** The first of the candidates from which the rest of the expression
    matches. *)
Fixpoint firstMatch (candidates : list jsstring)
  : option (jsstring * jsstring) :=
  match candidates with
  | [] => None
  | t :: rest =>
      match closingMarker t with
      | Some m => Some m
      | None => firstMatch rest
      end
  end.

(** [content.match(frontmatterRegex)]: the two groups.  The expression is
    [^---\s*\n] , a lazy group of any characters, [\n---\s*\n] and a greedy
    group of any characters up to the end of the text. *)
Definition frontmatterRegex (content : jsstring)
  : option (jsstring * jsstring) :=
  if startsWith (js "---") content
  then firstMatch (afterSpacesNewline (drop 3 content))
  else None.

(** The inner [while] of [parseFrontmatter]: the items of a YAML list and
    the lines after it. *)
Fixpoint listItems (lines : list jsstring) : list value * list jsstring :=
  match lines with
  | [] => ([], [])
  | l :: rest =>
      let listLine := trim l in
      if negb (startsWith (js "-") listLine) then ([], lines)
      else
        let item := unquote (trim (slice1 listLine)) in
        let '(items, rest') := listItems rest in
        (VStr item :: items, rest')
  end.

(** The value of a [key: value] line that is not followed by a list. *)
Definition scalarOrInlineArray (text : jsstring) : value :=
  let value := unquote text in
  if startsWith (js "[") value && endsWith (js "]") value then
    let arrayContent := trim (slice1m1 value) in
    if negb (eqs arrayContent [])
    then VArr (map (fun item => VStr (stripQuoteEnds (trim item)))
                 (splitOn "," arrayContent))
    else VArr []
  else VStr value.

(** The outer [while] of [parseFrontmatter] over the lines from index [i]
    on.  Every turn passes at least one line and uses one unit of [fuel].
    The frontmatter object is a finite map here, as it is in JavaScript for
    every key but [__proto__], which names the prototype of the object and
    becomes no field; [Spec.goodKey] excludes that key. *)
Fixpoint parseLines (fuel : nat) (lines : list jsstring) (fm : frontmatter)
  : frontmatter :=
  match fuel, lines with
  | O, _ => fm
  | _, [] => fm
  | S fuel', line :: rest =>
      let trimmed := trim line in
      if eqs trimmed [] || startsWith (js "#") trimmed
      then parseLines fuel' rest fm
      else
        match splitAtFirst (js ":") trimmed with
        | None => parseLines fuel' rest fm
        | Some (before, after) =>
            let key := trim before in
            let text := trim after in
            if match rest with
               | next :: _ => startsWith (js "-") (trim next)
               | [] => false
               end
            then
              let '(arrayItems, rest') := listItems rest in
              parseLines fuel' rest' (<[key := VArr arrayItems]> fm)
            else
              parseLines fuel' rest (<[key := scalarOrInlineArray text]> fm)
        end
  end.

(** [parseFrontmatter(content)]: [{ frontmatter, body }]. *)
Definition parseFrontmatter (content : jsstring) : frontmatter * jsstring :=
  match frontmatterRegex content with
  | None => (∅, content)
  | Some (frontmatterText, body) =>
      let lines := splitOn LF frontmatterText in
      (parseLines (length lines) lines ∅, body)
  end.

(** [normalizeArray(value)] *)
Definition normalizeArray (v : value) : value :=
  if isArray v then v
  else if truthy v && isString v then VArr [v]
  else VArr [].

(** [processFrontmatter(frontmatter, filename, getBasename)] *)
Definition processFrontmatter (fm : frontmatter) (filename : jsstring)
  (getBasename : jsstring -> jsstring) : frontmatter :=
  let basename := getBasename filename in
  let fm1 := if ImportUtils.keepsTitle (getField fm "title") then fm
             else setField fm "title" (VStr basename) in
  let fm2 := setField fm1 "tags" (normalizeArray (getField fm1 "tags")) in
  setField fm2 "authors" (normalizeArray (getField fm2 "authors")).

Section WithHost.
Context `{Host}.

(** One line of [formatFrontmatter]. *)
Definition formatEntry (entry : jsstring * value) : jsstring :=
  let '(key, v) := entry in
  match v with
  | VArr items =>
      key ++ js ": ["
        ++ join (js ", ")
             (map (fun v => [squote] ++ toStr v ++ [squote]) items)
        ++ js "]"
  | VStr s =>
      if includes (js ":") s
      then key ++ js ": " ++ [squote] ++ s ++ [squote]
      else key ++ js ": " ++ s
  | _ => key ++ js ": " ++ toStr v
  end.

(** [formatFrontmatter(frontmatter)], over [Object.entries(frontmatter)]. *)
Definition formatFrontmatter (entries : list (jsstring * value)) : jsstring :=
  join [LF] ([js "---"] ++ map formatEntry entries ++ [js "---"]).

End WithHost.

End FrontmatterCodec.

(* ================================================================== *)
(** ** Frontmatter utilities (src/unnamed/part_005) *)
(* ================================================================== *)

(** [{ shouldSkip, reason? }] *)
Record skipDecision : Type := mkSkipDecision {
  shouldSkip : bool;
  reason : option jsstring
}.

Module FrontmatterUtils.

(** [normalizeArray(value)] *)
Definition normalizeArray (v : value) : value :=
  if isArray v then v
  else if truthy v && isString v then VArr [v]
  else VArr [].

(** [processFrontmatter(frontmatter, filename, getBasename)] *)
Definition processFrontmatter (fm : frontmatter) (filename : jsstring)
  (getBasename : jsstring -> jsstring) : frontmatter :=
  let basename := getBasename filename in
  let fm1 := if ImportUtils.keepsTitle (getField fm "title") then fm
             else setField fm "title" (VStr basename) in
  let fm2 := setField fm1 "tags" (normalizeArray (getField fm1 "tags")) in
  let fm3 := setField fm2 "authors"
               (normalizeArray (getField fm2 "authors")) in
  match getField fm3 "tags" with
  | VArr tags => setField fm3 "tags" (VArr (map ImportUtils.stripHash tags))
  | _ => fm3
  end.

Section WithHost.
Context `{Host}.

(** [shouldSkipFile(frontmatter)] (the same text in src/unnamed/part_004) *)
Definition shouldSkipFile (fm : frontmatter) : skipDecision :=
  if isTrueOrTrueString (getField fm "can_skip")
  then mkSkipDecision true (Some (js "can skip property is true"))
  else if isTrueOrTrueString (getField fm "is_draft")
  then mkSkipDecision true (Some (js "post is in draft state"))
  else
    let description := getField fm "description" in
    let date := getField fm "date" in
    let missing1 :=
      if negb (truthy description) || negb (isString description)
      then [js "description"] else [] in
    let missing2 :=
      if negb (truthy date) then [js "date"]
      else if negb (validDate date) then [js "date (invalid)"]
      else [] in
    let missing := missing1 ++ missing2 in
    match missing with
    | [] => mkSkipDecision false None
    | _ =>
        mkSkipDecision true
          (Some (js "missing required properties: " ++ join (js ", ") missing))
    end.

End WithHost.

End FrontmatterUtils.

(* ================================================================== *)
(** ** A small world to run the scripts in *)
(* ================================================================== *)

(** An in-memory file system: the files with their contents, and the paths
    that refuse access (reading, writing or copying them fails with EACCES).
    Directories are not kept: [ensureDir] only fails on a locked path. *)
Module MemoryWorld.

Record world : Type := mkWorld {
  files : gmap jsstring jsstring;
  locked : list jsstring
}.

Definition isLocked (p : jsstring) (w : world) : bool :=
  existsb (eqs p) (locked w).

Definition EACCES (p : jsstring) : exn :=
  Error (js "EACCES: permission denied, " ++ p).

Definition ENOENT (p : jsstring) : exn :=
  Error (js "ENOENT: no such file or directory, " ++ p).

Definition memReadFile (p : jsstring) : M world jsstring :=
  fun w =>
    if isLocked p w then (Throw (EACCES p), w)
    else match files w !! p with
         | Some c => (Ok c, w)
         | None => (Throw (ENOENT p), w)
         end.

Definition memWriteFile (p c : jsstring) : M world unit :=
  fun w =>
    if isLocked p w then (Throw (EACCES p), w)
    else (Ok tt, mkWorld (<[p := c]> (files w)) (locked w)).

Definition memEnsureDir (p : jsstring) : M world unit :=
  fun w => if isLocked p w then (Throw (EACCES p), w) else (Ok tt, w).

Definition memPathExists (p : jsstring) (w : world) : bool :=
  match files w !! p with Some _ => true | None => false end.

Definition memCopy (src dst : jsstring) : M world unit :=
  fun w =>
    if isLocked src w then (Throw (EACCES src), w)
    else if isLocked dst w then (Throw (EACCES dst), w)
    else match files w !! src with
         | Some c => (Ok tt, mkWorld (<[dst := c]> (files w)) (locked w))
         | None => (Throw (ENOENT src), w)
         end.

#[global] Instance memFileSystem : FileSystem world := {
  readFile := memReadFile;
  writeFile := memWriteFile;
  ensureDir := memEnsureDir;
  pathExists := memPathExists;
  copy := memCopy
}.

(** [readdir]: the names of the files that are directly in the directory;
    a directory without file does not exist. *)
Definition memReaddir (dir : jsstring) : M world (list jsstring) :=
  fun w =>
    let names :=
      omap (fun entry : jsstring * jsstring =>
              if startsWith (dir ++ js "/") entry.1
              then let name := drop (length dir + 1) entry.1 in
                   if includes (js "/") name then None else Some name
              else None)
        (map_to_list (files w)) in
    match names with
    | [] => (Throw (ENOENT dir), w)
    | _ => (Ok names, w)
    end.

#[global] Instance memDirectory : Directory world := {
  readdir := memReaddir
}.

(** A host for the examples: [path.join] without normalisation, dates that
    are valid when they are strings starting with a digit, and the
    frontmatter codec of the repository in the place of gray-matter. *)
Definition simpleValidDate (v : value) : bool :=
  match v with
  | VStr (c :: _) => isDigit c
  | VDate (Some _) => true
  | VNum _ => true
  | _ => false
  end.

Definition simpleToString (v : value) : jsstring :=
  match v with
  | VStr s => s
  | VArr _ => js "[array]"
  | VNum _ => js "[number]"
  | VDate _ => js "[date]"
  | _ => js "[object Object]"
  end.

Definition simpleStringify (body : jsstring) (fm : frontmatter)
  : result jsstring :=
  Ok (join [LF]
        ([js "---"]
           ++ map (fun '(k, v) => k ++ js ": " ++ simpleToString v)
                (map_to_list fm)
           ++ [js "---"; body])).

#[global] Instance simpleHost : Host := {
  pathJoin := fun a b => a ++ js "/" ++ b;
  validDate := simpleValidDate;
  isoDay := fun _ => js "1970-01-01";
  hostToString := simpleToString;
  matter := fun content => Ok (FrontmatterCodec.parseFrontmatter content);
  matterStringify := simpleStringify
}.

(** A remote service for the examples: the articles it holds, the local
    post files, whether its update endpoint is broken, and a counter for
    new article ids. *)
Record remote : Type := mkRemote {
  posts : gmap jsstring jsstring;
  articles : list article;
  updateBroken : bool;
  nextId : Z
}.

Definition remoteRead (p : jsstring) : M remote jsstring :=
  fun w => match posts w !! p with
           | Some c => (Ok c, w)
           | None => (Throw (ENOENT p), w)
           end.

Definition remoteUpdate (id : value) (d : articleData) : M remote article :=
  fun w =>
    if updateBroken w
    then (Throw (Error (js "API request failed: 500")), w)
    else (Ok (mkArticle id (VStr (js "https://dev.to/updated"))
                (VBool (published d)) (VStr (canonical_url d))), w).

Definition remoteCreate (d : articleData) : M remote article :=
  fun w =>
    let a := mkArticle (VNum (nextId w)) (VStr (js "https://dev.to/created"))
               (VBool (published d)) (VStr (canonical_url d)) in
    (Ok a, mkRemote (posts w) (articles w ++ [a]) (updateBroken w)
             (nextId w + 1)).

#[global] Instance remoteDevTo : DevTo remote := {
  readPost := remoteRead;
  getAllDevToArticles := fun w => (Ok (articles w), w);
  updateArticle := remoteUpdate;
  createArticle := remoteCreate;
  nowISO := fun _ => js "2024-01-01T00:00:00.000Z"
}.

End MemoryWorld.

(* ================================================================== *)
(** ** The specification's words, as definitions *)
(* ================================================================== *)

(** Definitions written after the specification's sentences, to be compared
    with the functions above. *)
Module Spec.

(** [A-Za-z0-9]: the alphanumeric characters. *)
Definition isAlphanumeric (c : ascii) : bool :=
  isLower c || isUpperAZ c || isDigit c.

(** "strip hyphens/underscores/whitespace, lower-case, strip remaining
    non-alphanumerics". *)
Definition cleanTag (tag : jsstring) : jsstring :=
  keepOnly PublishDevto.isAlnum
    (toLowerCase
       (keepOnly (fun c => negb (PublishDevto.isSeparator c)) tag)).

(** The string entries of a tag list, cleaned, without the empty ones. *)
Fixpoint cleanedTags (items : list value) : list jsstring :=
  match items with
  | [] => []
  | VStr s :: rest =>
      if eqs (cleanTag s) [] then cleanedTags rest
      else cleanTag s :: cleanedTags rest
  | _ :: rest => cleanedTags rest
  end.

(** "drop empty results, cap at 4 tags". *)
Definition sanitizedTags (items : list value) : list jsstring :=
  take 4 (cleanedTags items).

(** What [normalizeImageName] does to the base name: lower case, then
    every run of whitespace replaced by one hyphen. *)
Definition lowerHyphen (base : jsstring) : jsstring :=
  replaceSpaceRuns (js "-") false (toLowerCase base).

(** "a scalar becomes a one-element array, a missing value becomes the
    empty array", as the code has it: an array stays as it is, a non-empty
    string becomes the array of itself, and every other value (absent, null,
    the empty string, a number, a boolean, an object) becomes the empty
    array. *)
Definition asArray (v : value) : list value :=
  match v with
  | VArr items => items
  | VStr (_ :: _) => [v]
  | _ => []
  end.


(** A title that normalization keeps: a string whose [trim()] is not
    empty. *)
Definition usableTitle (v : value) : Prop :=
  exists s, v = VStr s /\ trim s <> [].

(** A path that names a file: it has a character other than a slash. *)
Definition namesFile (filename : jsstring) : Prop :=
  Exists (fun c => NodePath.isSlash c = false) filename.

(** The windows of a list: consecutive batches of [size] elements, the
    last one possibly shorter.  ([fuel] bounds the number of windows.) *)
Fixpoint windows {A} (fuel size : nat) (l : list A) : list (list A) :=
  match fuel, l with
  | O, _ => []
  | _, [] => []
  | S fuel', _ => take size l :: windows fuel' size (drop size l)
  end.

Definition windowsOf {A} (size : nat) (l : list A) : list (list A) :=
  windows (length l) size l.

(** "within a window all notes are dispatched ... and the window is awaited
    to completion before the next window starts": the entries of each
    window, window after window. *)
Fixpoint runWindows {W} (process : jsstring -> config -> M W noteResult)
  (cfg : config) (wins : list (list jsstring)) (w : W)
  : list (list noteResult) * W :=
  match wins with
  | [] => ([], w)
  | win :: rest =>
      let '(settled, w1) :=
        settleAll (map (fun filePath => process filePath cfg) win) w in
      let '(later, w2) := runWindows process cfg rest w1 in
      (ImportObsidian.collect win settled :: later, w2)
  end.

(** The entry of the result list for a note that settled as [r]. *)
Definition entryOf (filePath : jsstring) (r : result noteResult)
  : noteResult :=
  match r with
  | Ok v => v
  | Throw reason =>
      mkNoteResult error_ (NodePath.basename1 filePath)
        (ImportObsidian.errorMessage reason) None
  end.

(** Modelled from the spec: [serialize(fields, body)].  The script that
    joins the block of [formatFrontmatter] and the body is not part of the
    sources at hand; the text it puts between them is the parameter
    [glue]. *)
Definition serialize `{Host} (entries : list (jsstring * value))
  (glue body : jsstring) : jsstring :=
  FrontmatterCodec.formatFrontmatter entries ++ glue ++ body.

(** The character [c] does not occur in [s]. *)
Definition noChar (c : ascii) (s : jsstring) : bool :=
  forallb (fun x => negb (eqc x c)) s.

(** A key the codec gives back: trimmed, on one line, without colon, and
    not starting like a comment or a list item.  ([__proto__] is no key of
    its own on a JavaScript object.) *)
Definition goodKey (k : jsstring) : bool :=
  noChar ":" k && noChar LF k && eqs (trim k) k
  && negb (startsWith (js "#") k) && negb (startsWith (js "-") k)
  && negb (eqs k (js "__proto__")).

Definition bracketed (s : jsstring) : bool :=
  startsWith (js "[") s && endsWith (js "]") s.

Definition quoted (s : jsstring) : bool :=
  (startsWith [dquote] s && endsWith [dquote] s)
  || (startsWith [squote] s && endsWith [squote] s).

(** A scalar the codec gives back: on one line, not shaped like an inline
    array, and, when it has no colon (so that it is written without
    quotes), trimmed and not wrapped in quotes. *)
Definition goodScalar (s : jsstring) : bool :=
  noChar LF s && negb (bracketed s)
  && (includes (js ":") s || (eqs (trim s) s && negb (quoted s))).

(** An array item the codec gives back: on one line, without comma. *)
Definition goodItem (v : value) : bool :=
  match v with
  | VStr s => noChar "," s && noChar LF s
  | _ => false
  end.

Definition goodValue (v : value) : bool :=
  match v with
  | VStr s => goodScalar s
  | VArr items => forallb goodItem items
  | _ => false
  end.

Definition goodEntry (entry : jsstring * value) : bool :=
  goodKey entry.1 && goodValue entry.2.

(** Whitespace that ends with a line feed. *)
Definition goodGlue (glue : jsstring) : bool :=
  forallb isSpace glue && endsWith [LF] glue.

(** A body that does not start with a blank line: no line feed in its
    leading whitespace. *)
Definition goodBody (body : jsstring) : bool :=
  noChar LF (takeWhile isSpace body).

(** The text [formatFrontmatter] writes after the key and the colon. *)
Definition valueText `{Host} (v : value) : jsstring :=
  match v with
  | VArr items =>
      js "["
        ++ join (js ", ")
             (map (fun v => [squote] ++ toStr v ++ [squote]) items)
        ++ js "]"
  | VStr s => if includes (js ":") s then [squote] ++ s ++ [squote] else s
  | _ => toStr v
  end.

Section Copies.
Context `{Host} {W : Type} `{FileSystem W}.

(** "Copy failures due to missing source file produce a [{success:false}]
    result and do NOT abort the batch; other I/O errors propagate": the
    outcomes of the copies of the named images from [sourceDir] into
    [assetsDir], image after image from the world [w].  A source that does
    not exist gives a [success: false] result with the error [missing] and
    leaves the world as it is; a copy that works gives a [success: true]
    result; any other end of the copy is an error thrown for that image.
    The images after it are copied all the same. *)
Fixpoint strictCopies (sourceDir assetsDir : jsstring)
  (names : list jsstring) (w : W) : list (result copyResult) * W :=
  match names with
  | [] => ([], w)
  | name :: rest =>
      let normalized := ImageUtils.normalizeImageName name in
      let '(outcome, w1) :=
        if pathExists (pathJoin sourceDir name) w then
          match copy (pathJoin sourceDir name)
                  (pathJoin assetsDir normalized) w with
          | (Ok _, w') =>
              (Ok (mkCopyResult true name (Some normalized) VUndefined), w')
          | (Throw e, w') => (Throw e, w')
          end
        else (Ok (mkCopyResult false name None (VStr (js "missing"))), w) in
      let '(outcomes, w2) := strictCopies sourceDir assetsDir rest w1 in
      (outcome :: outcomes, w2)
  end.

(** The copies in which no error propagates: the name is trimmed, a source
    that does not exist gives a [success: false] result without error, and
    an error of the copy gives a [success: false] result with the message
    of the error.  Every result carries the trimmed and the normalized
    name. *)
Fixpoint lenientCopies (sourceDir assetsDir : jsstring)
  (names : list jsstring) (w : W) : list copyResult * W :=
  match names with
  | [] => ([], w)
  | name :: rest =>
      let original := trim name in
      let normalized := ImportUtils.normalizeImageName original in
      let '(r, w1) :=
        if pathExists (pathJoin sourceDir original) w then
          match copy (pathJoin sourceDir original)
                  (pathJoin assetsDir normalized) w with
          | (Ok _, w') =>
              (mkCopyResult true original (Some normalized) VUndefined, w')
          | (Throw e, w') =>
              (mkCopyResult false original (Some normalized) (exnMessage e),
               w')
          end
        else (mkCopyResult false original (Some normalized) VUndefined, w) in
      let '(rs, w2) := lenientCopies sourceDir assetsDir rest w1 in
      (r :: rs, w2)
  end.

End Copies.

End Spec.

(* ================================================================== *)
(** ** Example data *)
(* ================================================================== *)

Module Examples.

Import MemoryWorld.

(** A draft note whose date is no date and which has no description. *)
Definition draftNote : jsstring :=
  join [LF]
    [js "---"; js "title: Draft"; js "is_draft: true"; js "date: tomorrow";
     js "---"; js "Not ready yet."].

(** A note with two images. *)
Definition photoNote : jsstring :=
  join [LF]
    [js "---"; js "title: Photos"; js "description: two photos";
     js "date: 2024-05-01"; js "tags: ['#travel', 'sea']"; js "---";
     js "![[My Photo.PNG]] and ![[Lost.png]]"].

(** A vault with the two notes and one of the two images. *)
Definition vault : world :=
  mkWorld
    (<[js "vault/draft.md" := draftNote]>
       (<[js "vault/photos.md" := photoNote]>
          (<[js "att/My Photo.PNG" := js "PNG"]> ∅)))
    [].

Definition vaultConfig : config :=
  mkConfig (js "vault") (js "att") (js "blog").

(** A post of the example remote service, already posted as article 41. *)
Definition helloPost : jsstring :=
  join [LF]
    [js "---"; js "title: Hello"; js "description: first post";
     js "tags: ['My-Tag', 'c++']"; js "---"; js "Hello."].

Definition brokenRemote : MemoryWorld.remote :=
  MemoryWorld.mkRemote
    (<[js "blog/hello/index.mdx" := helloPost]> ∅)
    [mkArticle (VNum 41) (VStr (js "https://dev.to/hello"))
       (VBool true) (VStr (js "https://example.org/blog/hello"))]
    true 100.

(** A body with one image whose name has two dollar signs, and a vault
    that holds the image. *)
Definition priceBody : jsstring := js "![[Price in $$.png]]".

Definition priceVault : MemoryWorld.world :=
  MemoryWorld.mkWorld (<[js "att/Price in $$.png" := js "PNG"]> ∅) [].

(** A field list the codec gives back. *)
Definition plainFields : list (jsstring * value) :=
  [(js "title", VStr (js "Notes: part one"));
   (js "tags", VArr [VStr (js "travel"); VStr (js "black sea")]);
   (js "summary", VStr [])].

(** A text with two image tokens, the second with spaces around its
    name. *)
Definition twoPhotos : list (jsstring * jsstring) :=
  [(js "See ", js "My Photo.PNG"); (js " and ", js " Lost.png ")].

(** A field list with an array written as a YAML list. *)
Definition listFields : list (jsstring * value) :=
  [(js "title", VStr (js "Photos"));
   (js "tags", VArr [VStr (js "travel"); VStr (js "sea, black: the coast")]);
   (js "date", VStr (js "2024-05-01"))].

(** The same remote service with a working update endpoint. *)
Definition workingRemote : MemoryWorld.remote :=
  MemoryWorld.mkRemote
    (<[js "blog/hello/index.mdx" := helloPost]> ∅)
    [mkArticle (VNum 41) (VStr (js "https://dev.to/hello"))
       (VBool true) (VStr (js "https://example.org/blog/hello"))]
    false 100.

(** A note without description and without date, and a vault that holds
    it. *)
Definition undatedNote : jsstring :=
  join [LF] [js "---"; js "title: Undated"; js "---"; js "No date yet."].

Definition undatedVault : world :=
  mkWorld (<[js "vault/undated.md" := undatedNote]> ∅) [].

(** The vault with a file that is no note, and an environment for it. *)
Definition mixedVault : world :=
  mkWorld (<[js "vault/readme.txt" := js "About this vault."]> (files vault))
    [].

Definition vaultEnv : gmap jsstring jsstring :=
  <[js "SOURCE_MARKDOWN_DIR" := js "vault"]>
    (<[js "SOURCE_ATTACHMENT_DIR" := js "att"]>
       (<[js "TARGET_DIR" := js "blog"]> ∅)).

(** The vault with the place of the first image in the blog locked: copying
    the image there fails with EACCES. *)
Definition lockedVault : world :=
  mkWorld (files vault) [js "blog/photos/assets/my-photo.PNG"].

End Examples.

(* ================================================================== *)
(** ** Notions and tactics of the proofs *)
(* ================================================================== *)

(** A fact about every character, by running through the 256 of them. *)
Ltac each_char c :=
  destruct c as [[|] [|] [|] [|] [|] [|] [|] [|]]; vm_compute;
  try reflexivity; try discriminate; try tauto; auto.

(** Two field names are different keys. *)
Ltac distinct_keys :=
  let E := fresh in intros E; vm_compute in E; discriminate E.

(** A text without slash, and a text without dot. *)
Definition noSlash (s : jsstring) : Prop :=
  Forall (fun c => negb (NodePath.isSlash c) = true) s.

Definition noDot (s : jsstring) : Prop :=
  Forall (fun c => negb (NodePath.isDot c) = true) s.

(** The first character of a text, if any, is no whitespace. *)
Definition startsSolid (s : jsstring) : Prop :=
  match s with
  | [] => True
  | c :: _ => isSpace c = false
  end.

(** A line of a block: not empty, on one line, not starting with a
    hyphen, and starting with a solid character. *)
Definition blockLine (l : jsstring) : Prop :=
  l <> [] /\ Spec.noChar LF l = true /\ startsWith (js "-") l = false
  /\ startsSolid l.

(** A text without image token: [![[] occurs nowhere in it. *)
Definition tokenFree (s : jsstring) : bool := negb (includes (js "![[") s).

(** The name of an image: not empty, without bracket and without dollar
    sign. *)
Definition plainName (name : jsstring) : bool :=
  negb (eqs name [])
  && forallb (fun c => negb (eqc c "[" || eqc c "]" || eqc c "$")) name.

(** A text given by its image tokens: for each token in turn the text
    before it and its name, then the text after the last token. *)
Definition withTokens (segs : list (jsstring * jsstring)) (last : jsstring)
  : jsstring :=
  foldr (fun seg rest => seg.1 ++ js "![[" ++ seg.2 ++ js "]]" ++ rest)
    last segs.

(** The same text with, in place of each token, the Markdown reference to
    the normalized name. *)
Definition withRefs (segs : list (jsstring * jsstring)) (last : jsstring)
  : jsstring :=
  foldr (fun seg rest =>
           seg.1 ++ markdownRef (ImportUtils.normalizeImageName (trim seg.2))
             ++ rest)
    last segs.

(** The text before a token has no token, and the name is plain. *)
Definition plainSegment (seg : jsstring * jsstring) : bool :=
  tokenFree seg.1 && plainName seg.2.

(** No token opens inside [x] when [y] follows it. *)
Definition opensNoToken (x y : jsstring) : Prop :=
  forall a b, x = a ++ b -> b <> [] -> startsWith (js "![[") (b ++ y) = false.

(** The text [content] is a frontmatter block with the lines [text],
    followed by [body]: the opening marker, whitespace up to a line feed,
    [text], and on a new line the closing marker, again with whitespace up
    to a line feed. *)
Definition hasBlock (content text body : jsstring) : Prop :=
  exists ws1 ws2,
    forallb isSpace ws1 = true /\ forallb isSpace ws2 = true
    /\ content
       = js "---" ++ ws1 ++ LF :: text ++ LF :: js "---" ++ ws2 ++ LF :: body.

(** An item of a YAML list the codec gives back: a string on one line,
    trimmed and not wrapped in quotes. *)
Definition plainItem (v : value) : bool :=
  match v with
  | VStr s => Spec.noChar LF s && eqs (trim s) s && negb (Spec.quoted s)
  | _ => false
  end.

Definition itemText (v : value) : jsstring :=
  match v with
  | VStr s => s
  | _ => []
  end.

(** The lines of a field in a frontmatter block: a non-empty array in the
    block style of YAML (the key and a colon, then one line [  - item] for
    each item), every other value as [formatFrontmatter] writes it. *)
Definition yamlLines `{Host} (entry : jsstring * value) : list jsstring :=
  match entry.2 with
  | VArr ((_ :: _) as items) =>
      (entry.1 ++ js ":") :: map (fun v => js "  - " ++ itemText v) items
  | _ => [FrontmatterCodec.formatEntry entry]
  end.

Definition goodYamlEntry (entry : jsstring * value) : bool :=
  Spec.goodKey entry.1
  && match entry.2 with
     | VArr ((_ :: _) as items) => forallb plainItem items
     | v => Spec.goodValue v
     end.

(** A note: the block of the fields, whitespace up to a line feed, and the
    body. *)
Definition yamlNote `{Host} (entries : list (jsstring * value))
  (glue body : jsstring) : jsstring :=
  js "---" ++ LF :: join [LF] (concat (map yamlLines entries))
    ++ LF :: js "---" ++ glue ++ body.

(** A line inside a block that cannot be taken for the closing marker. *)
Definition innerLine (l : jsstring) : Prop :=
  l <> [] /\ Spec.noChar LF l = true /\ startsWith (js "-") l = false.

Section ImportSteps.
Context `{Host} {W : Type} `{FileSystem W}.

(** The steps of a successful import of the note at [filePath], from the
    world [w] to the world [w']: the note is read, it is neither flagged nor
    invalid, its directory is made, its images are processed, the MDX text
    is built and [index.mdx] is written in the directory. *)
Definition importSteps (filePath : jsstring) (cfg : config) (w w' : W)
  : Prop :=
  let slug := ImportUtils.slugify (ImportUtils.getBasename filePath) in
  let dir := pathJoin (targetDir cfg) slug in
  exists fm body w1 w2 w3 images text,
    ImportObsidian.readNoteFile filePath w = (Ok (fm, body), w1)
    /\ ImportUtils.getSkipReason fm = None
    /\ ImportUtils.validateFrontmatter fm = None
    /\ ensureDir dir w1 = (Ok tt, w2)
    /\ ImportUtils.processImages body (sourceAttachmentDir cfg) dir w2
       = (Ok images, w3)
    /\ ImportUtils.buildMdxContent (content images)
         (ImportUtils.parseObsidianFrontMatter fm filePath
            ImportUtils.getBasename)
       = Ok text
    /\ writeFile (pathJoin dir (js "index.mdx")) text w3 = (Ok tt, w').

End ImportSteps.

(** A name on one line: without line terminator. *)
Definition oneLine (name : jsstring) : bool :=
  forallb (fun c => negb (isLineTerminator c)) name.

(* ================================================================== *)
(** * Properties *)
(* ================================================================== *)

(** ** Characters *)

Lemma eqc_true (a b : ascii) : eqc a b = true <-> a = b.
Proof. unfold eqc. apply Ascii.eqb_eq. Qed.

Lemma eqc_refl (a : ascii) : eqc a a = true.
Proof. apply eqc_true. reflexivity. Qed.

Lemma eqc_sym (a b : ascii) : eqc a b = eqc b a.
Proof. unfold eqc. apply Ascii.eqb_sym. Qed.

Lemma eqs_true (a b : jsstring) : eqs a b = true <-> a = b.
Proof.
  revert b. induction a as [|x a IH]; intros [|y b]; simpl; split;
    try congruence; try discriminate.
  - intros [Hx Hab]%andb_prop. apply eqc_true in Hx. apply IH in Hab.
    congruence.
  - intros [= -> ->]. rewrite eqc_refl. simpl. apply IH. reflexivity.
Qed.

Lemma eqs_refl (a : jsstring) : eqs a a = true.
Proof. apply eqs_true. reflexivity. Qed.

Lemma eqs_false (a b : jsstring) : eqs a b = false <-> a <> b.
Proof.
  split.
  - intros H ->. rewrite eqs_refl in H. discriminate.
  - intros H. destruct (eqs a b) eqn:E; [|reflexivity].
    apply eqs_true in E. contradiction.
Qed.

Lemma eqs_nil_r (a : jsstring) : eqs a [] = true <-> a = [].
Proof. apply eqs_true. Qed.

Lemma lowerChar_idem (c : ascii) : lowerChar (lowerChar c) = lowerChar c.
Proof. each_char c. Qed.

Lemma isSpace_lowerChar (c : ascii) : isSpace (lowerChar c) = isSpace c.
Proof. each_char c. Qed.

Lemma alnum_not_space (c : ascii) :
  PublishDevto.isAlnum c = true -> isSpace c = false.
Proof. each_char c. Qed.

Lemma alnum_lower_fixed (c : ascii) :
  PublishDevto.isAlnum c = true -> lowerChar c = c.
Proof. each_char c. Qed.

(** ** Lists of characters *)

Lemma dropWhile_none (p : ascii -> bool) (s : jsstring) :
  Forall (fun c => p c = false) s -> dropWhile p s = s.
Proof. destruct 1 as [|c s Hc _]; simpl; [reflexivity|]. now rewrite Hc. Qed.

Lemma trim_no_space (s : jsstring) :
  Forall (fun c => isSpace c = false) s -> trim s = s.
Proof.
  intros H. unfold trim, trimEnd, trimStart.
  rewrite (dropWhile_none _ s H).
  rewrite dropWhile_none; [apply rev_involutive|].
  apply List.Forall_rev, H.
Qed.

Lemma keepOnly_all (keep : ascii -> bool) (s : jsstring) :
  Forall (fun c => keep c = true) s -> keepOnly keep s = s.
Proof.
  unfold keepOnly. induction 1 as [|c s Hc _ IH]; simpl; [reflexivity|].
  now rewrite Hc, IH.
Qed.

Lemma keepOnly_Forall (keep : ascii -> bool) (s : jsstring) :
  Forall (fun c => keep c = true) (keepOnly keep s).
Proof.
  apply List.Forall_forall. intros c Hc. unfold keepOnly in Hc.
  apply List.filter_In in Hc. tauto.
Qed.

Lemma dropWhile_Forall (P : ascii -> Prop) (p : ascii -> bool) (s : jsstring) :
  Forall P s -> Forall P (dropWhile p s).
Proof.
  induction 1 as [|c s Hc Hs IH]; simpl; [constructor|].
  destruct (p c); [exact IH | now constructor].
Qed.

Lemma trim_Forall (P : ascii -> Prop) (s : jsstring) :
  Forall P s -> Forall P (trim s).
Proof.
  intros H. unfold trim, trimEnd, trimStart.
  apply List.Forall_rev, dropWhile_Forall, List.Forall_rev,
    dropWhile_Forall, H.
Qed.

(** ** The tag sanitizer of the cross-poster *)

Lemma cleanTag_alnum (s : jsstring) :
  Forall (fun c => PublishDevto.isAlnum c = true) (Spec.cleanTag s).
Proof. apply keepOnly_Forall. Qed.

Lemma sanitizeTag_cleanTag (s : jsstring) :
  PublishDevto.sanitizeTag s = Spec.cleanTag s.
Proof.
  unfold PublishDevto.sanitizeTag. apply trim_no_space.
  eapply Forall_impl; [apply cleanTag_alnum|]. apply alnum_not_space.
Qed.

Lemma keptEntry_sanitized (s : jsstring) :
  PublishDevto.keptEntry (Some s) = negb (eqs s []).
Proof. destruct s; reflexivity. Qed.

Lemma sanitizeTags_cleanedTags (items : list value) :
  omap (fun t => if PublishDevto.keptEntry t then t else None)
    (map PublishDevto.sanitizeEntry items)
  = Spec.cleanedTags items.
Proof.
  induction items as [|v items IH]; [reflexivity|].
  destruct v; simpl; try exact IH.
  rewrite sanitizeTag_cleanTag.
  destruct (Spec.cleanTag s) eqn:E; simpl; [exact IH|].
  f_equal. exact IH.
Qed.

Lemma cleanedTags_Forall (items : list value) :
  Forall (fun t => t <> [] /\ Forall (fun c => PublishDevto.isAlnum c = true) t)
    (Spec.cleanedTags items).
Proof.
  induction items as [|v items IH]; simpl; [constructor|].
  destruct v; try exact IH.
  destruct (eqs (Spec.cleanTag s) []) eqn:E; [exact IH|].
  constructor; [|exact IH]. split; [now apply eqs_false|apply cleanTag_alnum].
Qed.

Lemma separator_not_alphanumeric (c : ascii) :
  Spec.isAlphanumeric c = true -> PublishDevto.isSeparator c = false.
Proof. each_char c. Qed.

Lemma alnum_after_lower (c : ascii) :
  PublishDevto.isAlnum (lowerChar c) = Spec.isAlphanumeric c.
Proof. each_char c. Qed.

(** A cleaned tag is made of the letters and digits of the tag, in their
    order, lower-cased. *)
Lemma cleanTag_letters_digits (s : jsstring) :
  Spec.cleanTag s = toLowerCase (keepOnly Spec.isAlphanumeric s).
Proof.
  unfold Spec.cleanTag, toLowerCase, keepOnly.
  induction s as [|c s IH]; [reflexivity|]. simpl.
  destruct (Spec.isAlphanumeric c) eqn:Ea.
  - rewrite (separator_not_alphanumeric c Ea). simpl.
    rewrite alnum_after_lower, Ea. simpl. now rewrite IH.
  - destruct (PublishDevto.isSeparator c); simpl; [exact IH|].
    rewrite alnum_after_lower, Ea. exact IH.
Qed.

(** C8.  On every tag list the sanitizer of the cross-poster returns the
    first four of the cleaned string tags: each string tag loses its
    hyphens, underscores and whitespace, is lower-cased and loses what is
    left that is not in [a-z0-9] (so it is the letters and digits of the
    tag, lower-cased); tags that become empty and entries that are no
    strings are dropped; what comes after the fourth tag is dropped too.
    The result has at most four tags, each one non-empty and over [a-z0-9].
    On ["My-Tag", "c++", "", "a b", "tag5", "tag6"] the result is
    ["mytag", "c", "ab", "tag5"]. *)
Theorem sanitizeTags_cleans_and_caps (items : list value) :
  PublishDevto.sanitizeTags (VArr items) = Spec.sanitizedTags items
  /\ length (PublishDevto.sanitizeTags (VArr items)) <= 4
  /\ Forall (fun t => t <> []
                      /\ Forall (fun c => PublishDevto.isAlnum c = true) t)
       (PublishDevto.sanitizeTags (VArr items))
  /\ (forall s, PublishDevto.sanitizeTag s
                = toLowerCase (keepOnly Spec.isAlphanumeric s))
  /\ PublishDevto.sanitizeTags
       (VArr [VStr (js "My-Tag"); VStr (js "c++"); VStr (js "");
              VStr (js "a b"); VStr (js "tag5"); VStr (js "tag6")])
     = [js "mytag"; js "c"; js "ab"; js "tag5"].
Proof.
  assert (E : PublishDevto.sanitizeTags (VArr items)
              = Spec.sanitizedTags items).
  { unfold PublishDevto.sanitizeTags, Spec.sanitizedTags.
    now rewrite sanitizeTags_cleanedTags. }
  rewrite E. unfold Spec.sanitizedTags. repeat split.
  - rewrite length_take. lia.
  - apply Forall_take, cleanedTags_Forall.
  - intros s. rewrite sanitizeTag_cleanTag. apply cleanTag_letters_digits.
Qed.

(** ** Prefixes cut by a predicate *)

Section Spans.
Variable p : ascii -> bool.

Lemma takeWhile_dropWhile (s : jsstring) :
  takeWhile p s ++ dropWhile p s = s.
Proof.
  induction s as [|c s IH]; simpl; [reflexivity|].
  destruct (p c); simpl; [now rewrite IH | reflexivity].
Qed.

Lemma takeWhile_Forall (s : jsstring) :
  Forall (fun c => p c = true) (takeWhile p s).
Proof.
  induction s as [|c s IH]; simpl; [constructor|].
  destruct (p c) eqn:E; constructor; assumption.
Qed.

Lemma dropWhile_head (s t : jsstring) (c : ascii) :
  dropWhile p s = c :: t -> p c = false.
Proof.
  induction s as [|d s IH]; simpl; [discriminate|].
  destruct (p d) eqn:E; [exact IH|]. intros [= -> _]. exact E.
Qed.

Lemma takeWhile_all (s : jsstring) :
  Forall (fun c => p c = true) s -> takeWhile p s = s.
Proof.
  induction 1 as [|c s Hc _ IH]; simpl; [reflexivity|].
  now rewrite Hc, IH.
Qed.

Lemma dropWhile_all (s : jsstring) :
  Forall (fun c => p c = true) s -> dropWhile p s = [].
Proof.
  induction 1 as [|c s Hc _ IH]; simpl; [reflexivity|]. now rewrite Hc.
Qed.

Lemma takeWhile_stop (a b : jsstring) (c : ascii) :
  Forall (fun c => p c = true) a -> p c = false ->
  takeWhile p (a ++ c :: b) = a.
Proof.
  intros Ha Hc. induction Ha as [|d a Hd _ IH]; simpl.
  - now rewrite Hc.
  - now rewrite Hd, IH.
Qed.

Lemma dropWhile_stop (a b : jsstring) (c : ascii) :
  Forall (fun c => p c = true) a -> p c = false ->
  dropWhile p (a ++ c :: b) = c :: b.
Proof.
  intros Ha Hc. induction Ha as [|d a Hd _ IH]; simpl.
  - now rewrite Hc.
  - now rewrite Hd, IH.
Qed.

Lemma dropWhile_app_all (a b : jsstring) :
  Forall (fun c => p c = true) a -> dropWhile p (a ++ b) = dropWhile p b.
Proof.
  induction 1 as [|d a Hd _ IH]; simpl; [reflexivity|]. now rewrite Hd.
Qed.

Lemma dropWhile_length (s : jsstring) : length (dropWhile p s) <= length s.
Proof.
  induction s as [|c s IH]; simpl; [lia|]. destruct (p c); simpl; lia.
Qed.

Lemma takeWhile_length (s : jsstring) : length (takeWhile p s) <= length s.
Proof.
  induction s as [|c s IH]; simpl; [lia|]. destruct (p c); simpl; lia.
Qed.

End Spans.

Lemma startsWith_app (a b : jsstring) : startsWith a (a ++ b) = true.
Proof.
  induction a as [|c a IH]; simpl; [reflexivity|].
  now rewrite eqc_refl, IH.
Qed.

Lemma startsWith_true (a s : jsstring) :
  startsWith a s = true <-> exists b, s = a ++ b.
Proof.
  split.
  - revert s. induction a as [|c a IH]; intros s; simpl.
    + eauto.
    + destruct s as [|d s]; [discriminate|].
      intros [Hc Hs]%andb_prop. apply eqc_true in Hc. subst d.
      destruct (IH s Hs) as [b ->]. eauto.
  - intros [b ->]. apply startsWith_app.
Qed.

Lemma endsWith_app (a b : jsstring) : endsWith b (a ++ b) = true.
Proof. unfold endsWith. rewrite rev_app_distr. apply startsWith_app. Qed.

Lemma endsWith_true (a s : jsstring) :
  endsWith a s = true <-> exists b, s = b ++ a.
Proof.
  unfold endsWith. rewrite startsWith_true. split.
  - intros [b Hb]. exists (rev b).
    rewrite <- (rev_involutive s), Hb, rev_app_distr, rev_involutive.
    reflexivity.
  - intros [b ->]. exists (rev b). apply rev_app_distr.
Qed.

(** ** Segments and extensions of paths *)

Lemma isDot_true (c : ascii) : NodePath.isDot c = true -> c = ".".
Proof. apply eqc_true. Qed.

Lemma lastSegment_noSlash (p : jsstring) : noSlash (NodePath.lastSegment p).
Proof. apply List.Forall_rev, takeWhile_Forall. Qed.

Lemma lastSegment_fixed (s : jsstring) :
  noSlash s -> NodePath.lastSegment s = s.
Proof.
  intros H. unfold NodePath.lastSegment.
  assert (Hr : noSlash (rev s)) by now apply List.Forall_rev.
  rewrite dropWhile_none.
  - rewrite takeWhile_all by exact Hr. apply rev_involutive.
  - eapply Forall_impl; [exact Hr|]. intros c Hc. simpl in Hc.
    now destruct (NodePath.isSlash c).
Qed.

Lemma lastSegment_length (p : jsstring) :
  length (NodePath.lastSegment p) <= length p.
Proof.
  unfold NodePath.lastSegment. rewrite length_rev.
  etransitivity; [apply takeWhile_length|].
  etransitivity; [apply dropWhile_length|]. now rewrite length_rev.
Qed.

(** A segment either has no dot, or is a text, a dot and a text without
    dot. *)
Lemma segment_cases (seg : jsstring) :
  noDot seg \/ exists b e, seg = b ++ "." :: e /\ noDot e.
Proof.
  pose proof (takeWhile_dropWhile (fun c => negb (NodePath.isDot c)) (rev seg))
    as Hsplit.
  destruct (dropWhile (fun c => negb (NodePath.isDot c)) (rev seg))
    as [|d rb] eqn:Hd.
  - left. rewrite app_nil_r in Hsplit.
    rewrite <- (rev_involutive seg), <- Hsplit.
    apply List.Forall_rev, takeWhile_Forall.
  - right. apply dropWhile_head in Hd as Hdot.
    apply negb_false_iff, isDot_true in Hdot. subst d.
    pose proof (takeWhile_Forall (fun c => negb (NodePath.isDot c)) (rev seg))
      as Hte.
    set (te := takeWhile (fun c => negb (NodePath.isDot c)) (rev seg)) in *.
    exists (rev rb), (rev te). split.
    + rewrite <- (rev_involutive seg), <- Hsplit.
      rewrite rev_app_distr. simpl. now rewrite <- app_assoc.
    + apply List.Forall_rev, Hte.
Qed.

Lemma segmentExt_noDot (seg : jsstring) :
  noDot seg -> NodePath.segmentExt seg = [].
Proof.
  intros H. unfold NodePath.segmentExt.
  rewrite dropWhile_all; [reflexivity|]. now apply List.Forall_rev.
Qed.

Lemma segmentExt_split (b e : jsstring) :
  noDot e ->
  NodePath.segmentExt (b ++ "." :: e)
  = match b with
    | [] => []
    | _ => if eqs (b ++ "." :: e) (js "..") then [] else "." :: e
    end.
Proof.
  intros He. unfold NodePath.segmentExt.
  rewrite rev_app_distr. simpl rev. rewrite <- app_assoc. simpl app.
  assert (Hre : noDot (rev e)) by now apply List.Forall_rev.
  rewrite dropWhile_stop, takeWhile_stop by (exact Hre || reflexivity).
  destruct b as [|c b]; [reflexivity|].
  destruct (rev (c :: b)) as [|x r] eqn:Er.
  { apply (f_equal (@length _)) in Er. rewrite length_rev in Er.
    discriminate. }
  rewrite rev_app_distr. simpl. rewrite rev_involutive. reflexivity.
Qed.

(** The extension of a path is empty, or a dot and a text without dot that
    ends a longer segment. *)
Lemma extname_cases (p : jsstring) :
  (NodePath.extname p = []
   /\ NodePath.basename p (NodePath.extname p) = NodePath.lastSegment p)
  \/ (exists b e, NodePath.lastSegment p = b ++ "." :: e /\ noDot e
                  /\ b <> [] /\ b ++ "." :: e <> js ".."
                  /\ NodePath.extname p = "." :: e
                  /\ NodePath.basename p (NodePath.extname p) = b).
Proof.
  assert (Hempty : NodePath.extname p = [] ->
                   NodePath.basename p (NodePath.extname p)
                   = NodePath.lastSegment p).
  { intros ->. reflexivity. }
  unfold NodePath.extname in *.
  destruct (segment_cases (NodePath.lastSegment p)) as [Hn | (b & e & Hseg & He)].
  - left. split; [|apply Hempty]; now apply segmentExt_noDot.
  - pose proof (segmentExt_split b e He) as Hext. rewrite <- Hseg in Hext.
    destruct b as [|c b].
    { left. split; [|apply Hempty]; exact Hext. }
    destruct (eqs (NodePath.lastSegment p) (js "..")) eqn:Edd.
    { left. split; [|apply Hempty]; exact Hext. }
    right. exists (c :: b), e. rewrite <- Hseg.
    repeat split; try assumption; try discriminate.
    { now apply eqs_false. }
    rewrite Hext. unfold NodePath.basename.
    pose proof (lastSegment_length p) as Hlen.
    assert (Hle : length ("." :: e) <= length p).
    { rewrite Hseg in Hlen. rewrite length_app in Hlen. simpl in *. lia. }
    replace (length ("." :: e) =? 0)%nat with false by reflexivity.
    replace (length p <? length ("." :: e))%nat with false
      by (symmetry; apply Nat.ltb_ge; exact Hle).
    simpl orb. cbv iota.
    assert (Hne : eqs ("." :: e) p = false).
    { apply eqs_false. intros Heq.
      pose proof (lastSegment_noSlash p) as Hs. rewrite Hseg in Hs.
      apply Forall_app in Hs. destruct Hs as [_ Hs].
      rewrite <- Heq, lastSegment_fixed in Hseg by exact Hs.
      apply (f_equal (@length _)) in Hseg. rewrite length_app in Hseg.
      simpl in Hseg. lia. }
    rewrite Hne, Hseg.
    change (c :: b ++ "." :: e) with ((c :: b) ++ "." :: e).
    rewrite endsWith_app.
    assert (Hne2 : eqs ("." :: e) ((c :: b) ++ "." :: e) = false).
    { apply eqs_false. intros Heq. apply (f_equal (@length _)) in Heq.
      rewrite length_app in Heq. simpl in Heq. lia. }
    rewrite Hne2. rewrite length_app.
    replace (length (c :: b) + length ("." :: e) - length ("." :: e))
      with (length (c :: b)) by lia.
    now rewrite take_app_length.
Qed.

(** ** Lower case and hyphens *)

Lemma replaceSpaceRuns_Forall (Q : ascii -> Prop) (inRun : bool)
  (s : jsstring) :
  Q "-" -> Forall (fun c => isSpace c = false -> Q c) s ->
  Forall Q (replaceSpaceRuns (js "-") inRun s).
Proof.
  intros Hq H. revert inRun.
  induction H as [|c s Hc _ IH]; intros inRun; simpl; [constructor|].
  destruct (isSpace c) eqn:E.
  - destruct inRun; simpl; [apply IH|]. constructor; [exact Hq|apply IH].
  - constructor; [now apply Hc|apply IH].
Qed.

Lemma replaceSpaceRuns_fixed (by_ : jsstring) (inRun : bool) (s : jsstring) :
  Forall (fun c => isSpace c = false) s ->
  replaceSpaceRuns by_ inRun s = s.
Proof.
  intros H. revert inRun.
  induction H as [|c s Hc _ IH]; intros inRun; simpl; [reflexivity|].
  now rewrite Hc, IH.
Qed.

Lemma toLowerCase_fixed (s : jsstring) :
  Forall (fun c => lowerChar c = c) s -> toLowerCase s = s.
Proof.
  unfold toLowerCase. induction 1 as [|c s Hc _ IH]; simpl; [reflexivity|].
  now rewrite Hc, IH.
Qed.

Lemma lowerHyphen_Forall (Q : ascii -> Prop) (s : jsstring) :
  Q "-" -> Forall (fun c => isSpace c = false -> Q (lowerChar c)) s ->
  Forall Q (Spec.lowerHyphen s).
Proof.
  intros Hq H. apply replaceSpaceRuns_Forall; [exact Hq|].
  unfold toLowerCase. apply Forall_map.
  eapply Forall_impl; [exact H|]. intros c Hc Hs. apply Hc.
  now rewrite isSpace_lowerChar in Hs.
Qed.

Lemma lowerHyphen_idem (s : jsstring) :
  Spec.lowerHyphen (Spec.lowerHyphen s) = Spec.lowerHyphen s.
Proof.
  assert (H : Forall (fun c => isSpace c = false /\ lowerChar c = c)
                (Spec.lowerHyphen s)).
  { apply lowerHyphen_Forall; [split; reflexivity|].
    apply List.Forall_forall. intros c _ Hs. split.
    - now rewrite isSpace_lowerChar.
    - apply lowerChar_idem. }
  unfold Spec.lowerHyphen at 1.
  rewrite toLowerCase_fixed, replaceSpaceRuns_fixed; [reflexivity| |];
    (eapply Forall_impl; [exact H|]; simpl; tauto).
Qed.

Lemma lowerChar_slash (c : ascii) :
  negb (NodePath.isSlash c) = true -> negb (NodePath.isSlash (lowerChar c)) = true.
Proof. each_char c. Qed.

Lemma lowerChar_dot (c : ascii) :
  negb (NodePath.isDot c) = true -> negb (NodePath.isDot (lowerChar c)) = true.
Proof. each_char c. Qed.

Lemma lowerChar_is_dot (c : ascii) : lowerChar c = "." -> c = ".".
Proof. each_char c. Qed.

Lemma lowerHyphen_noSlash (s : jsstring) :
  noSlash s -> noSlash (Spec.lowerHyphen s).
Proof.
  intros H. apply lowerHyphen_Forall; [reflexivity|].
  eapply Forall_impl; [exact H|]. intros c Hc _. now apply lowerChar_slash.
Qed.

Lemma lowerHyphen_noDot (s : jsstring) :
  noDot s -> noDot (Spec.lowerHyphen s).
Proof.
  intros H. apply lowerHyphen_Forall; [reflexivity|].
  eapply Forall_impl; [exact H|]. intros c Hc _. now apply lowerChar_dot.
Qed.

Lemma lowerHyphen_nil (s : jsstring) : Spec.lowerHyphen s = [] -> s = [].
Proof.
  destruct s as [|c s]; [reflexivity|]. unfold Spec.lowerHyphen. simpl.
  destruct (isSpace (lowerChar c)); discriminate.
Qed.

Lemma lowerHyphen_dot_cons (e : jsstring) :
  Spec.lowerHyphen ("." :: e) = "." :: Spec.lowerHyphen e.
Proof. reflexivity. Qed.

Lemma lowerHyphen_is_dot (s : jsstring) :
  Spec.lowerHyphen s = js "." -> s = js ".".
Proof.
  destruct s as [|c s]; [discriminate|]. unfold Spec.lowerHyphen. simpl.
  destruct (isSpace (lowerChar c)); [discriminate|].
  intros [= Hc Hs]. apply lowerChar_is_dot in Hc. subst c.
  apply (lowerHyphen_nil s) in Hs. now subst s.
Qed.

(** ** Image names and slugs *)

Lemma normalizeImageName_parts (p : jsstring) :
  ImageUtils.normalizeImageName p
  = Spec.lowerHyphen (NodePath.basename p (NodePath.extname p))
      ++ NodePath.extname p.
Proof. reflexivity. Qed.

Lemma segmentExt_lowerHyphen_nil (seg : jsstring) :
  NodePath.segmentExt seg = [] ->
  NodePath.segmentExt (Spec.lowerHyphen seg) = [].
Proof.
  intros He.
  destruct (segment_cases seg) as [Hn | (b & e & -> & Hne)].
  - now apply segmentExt_noDot, lowerHyphen_noDot.
  - rewrite segmentExt_split in He by exact Hne.
    destruct b as [|c b].
    + simpl app. rewrite lowerHyphen_dot_cons.
      apply (segmentExt_split [] (Spec.lowerHyphen e)).
      now apply lowerHyphen_noDot.
    + destruct (eqs ((c :: b) ++ "." :: e) (js "..")) eqn:Edd;
        [|discriminate].
      apply eqs_true in Edd. rewrite Edd. reflexivity.
Qed.

Lemma normalized_not_dotdot (b e : jsstring) :
  b <> [] -> b ++ "." :: e <> js ".." ->
  Spec.lowerHyphen b ++ "." :: e <> js "..".
Proof.
  intros Hb Hdd Heq. apply Hdd.
  destruct (Spec.lowerHyphen b) as [|x [|y r]] eqn:El.
  - apply lowerHyphen_nil in El. contradiction.
  - simpl in Heq. injection Heq as Hx He. subst x.
    apply (lowerHyphen_is_dot b) in El. now rewrite El, He.
  - simpl in Heq. injection Heq as _ _ Hr. destruct r; discriminate.
Qed.

Lemma normalizeImageName_idem (p : jsstring) :
  ImageUtils.normalizeImageName (ImageUtils.normalizeImageName p)
  = ImageUtils.normalizeImageName p.
Proof.
  pose proof (lastSegment_noSlash p) as Hslash.
  rewrite (normalizeImageName_parts p).
  destruct (extname_cases p)
    as [[He Hb] | (b & e & Hseg & Hne & Hb0 & Hdd & He & Hb)];
    rewrite Hb, He.
  - rewrite app_nil_r.
    set (t := Spec.lowerHyphen (NodePath.lastSegment p)).
    assert (Ht : NodePath.lastSegment t = t)
      by now apply lastSegment_fixed, lowerHyphen_noSlash.
    assert (Hext : NodePath.extname t = []).
    { unfold NodePath.extname. rewrite Ht.
      now apply segmentExt_lowerHyphen_nil. }
    rewrite normalizeImageName_parts, Hext, app_nil_r.
    change (NodePath.basename t []) with (NodePath.lastSegment t).
    rewrite Ht. apply lowerHyphen_idem.
  - rewrite Hseg in Hslash. apply Forall_app in Hslash.
    destruct Hslash as [Hsb Hse].
    set (t := Spec.lowerHyphen b ++ "." :: e).
    assert (Ht : NodePath.lastSegment t = t).
    { apply lastSegment_fixed, Forall_app. split; [|exact Hse].
      now apply lowerHyphen_noSlash. }
    assert (Hext : NodePath.extname t = "." :: e).
    { unfold NodePath.extname. rewrite Ht. unfold t.
      rewrite segmentExt_split by exact Hne.
      destruct (Spec.lowerHyphen b) eqn:El.
      { apply lowerHyphen_nil in El. contradiction. }
      rewrite <- El.
      pose proof (normalized_not_dotdot b e Hb0 Hdd) as Hn.
      apply eqs_false in Hn. now rewrite Hn. }
    rewrite normalizeImageName_parts.
    destruct (extname_cases t)
      as [[He' _] | (b' & e' & Hseg' & _ & _ & _ & He' & Hb')].
    { rewrite Hext in He'. discriminate. }
    rewrite Hb', Hext. rewrite Hext in He'. injection He' as <-.
    rewrite Ht in Hseg'. unfold t in Hseg'.
    apply app_inv_tail in Hseg'. subst b'.
    now rewrite lowerHyphen_idem.
Qed.

Lemma slugChar_out (c : ascii) :
  FileUtils.isSlugChar c = true -> isSpace c = false ->
  (isLower c || isDigit c || eqc c "-") = true.
Proof. each_char c. Qed.

Lemma slugOut_props (c : ascii) :
  (isLower c || isDigit c || eqc c "-") = true ->
  lowerChar c = c /\ FileUtils.isSlugChar c = true /\ isSpace c = false.
Proof. each_char c. Qed.

(** A slug is made of [a-z], [0-9] and hyphens. *)
Lemma slugify_chars (s : jsstring) :
  Forall (fun c => (isLower c || isDigit c || eqc c "-") = true)
    (FileUtils.slugify s).
Proof.
  unfold FileUtils.slugify.
  apply replaceSpaceRuns_Forall; [reflexivity|].
  eapply Forall_impl; [apply trim_Forall, keepOnly_Forall|].
  intros c Hc Hs. now apply slugChar_out.
Qed.

Lemma slugify_fixed (s : jsstring) :
  Forall (fun c => (isLower c || isDigit c || eqc c "-") = true) s ->
  FileUtils.slugify s = s.
Proof.
  intros H. unfold FileUtils.slugify.
  rewrite toLowerCase_fixed, keepOnly_all, trim_no_space,
    replaceSpaceRuns_fixed; [reflexivity| | | |];
    (eapply Forall_impl; [exact H|]; intros c Hc;
     apply slugOut_props in Hc; tauto).
Qed.

(** C9.  Image-name normalization and slugification are functions of the
    name alone and are idempotent: normalizing a normalized image name, and
    slugifying a slug, change nothing; this holds for the copies of the two
    functions in both utility files, which agree. *)
Theorem normalizeImageName_slugify_idempotent (s : jsstring) :
  ImageUtils.normalizeImageName (ImageUtils.normalizeImageName s)
  = ImageUtils.normalizeImageName s
  /\ ImportUtils.normalizeImageName (ImportUtils.normalizeImageName s)
     = ImportUtils.normalizeImageName s
  /\ FileUtils.slugify (FileUtils.slugify s) = FileUtils.slugify s
  /\ ImportUtils.slugify (ImportUtils.slugify s) = ImportUtils.slugify s
  /\ ImportUtils.normalizeImageName s = ImageUtils.normalizeImageName s
  /\ ImportUtils.slugify s = FileUtils.slugify s.
Proof.
  assert (Hs : FileUtils.slugify (FileUtils.slugify s) = FileUtils.slugify s)
    by apply slugify_fixed, slugify_chars.
  repeat split; try exact Hs; apply normalizeImageName_idem.
Qed.

(** ** Frontmatter normalization (src/unnamed/part_005) *)

Lemma getField_setField_eq (fm : frontmatter) (k : string) (v : value) :
  getField (setField fm k v) k = v.
Proof. unfold getField, setField. now rewrite lookup_insert_eq. Qed.

Lemma getField_setField_ne (fm : frontmatter) (k k' : string) (v : value) :
  js k <> js k' -> getField (setField fm k v) k' = getField fm k'.
Proof.
  intros Hne. unfold getField, setField. now rewrite lookup_insert_ne.
Qed.

Lemma normalizeArray_asArray (v : value) :
  FrontmatterUtils.normalizeArray v = VArr (Spec.asArray v).
Proof.
  unfold FrontmatterUtils.normalizeArray.
  destruct v as [| |b|n| |[|c s]| | |]; simpl; rewrite ?andb_false_r;
    reflexivity.
Qed.

Lemma keepsTitle_usable (v : value) :
  ImportUtils.keepsTitle v = true <-> Spec.usableTitle v.
Proof.
  unfold Spec.usableTitle. split.
  - destruct v; simpl; try discriminate.
    intros [_ Ht]%andb_prop. exists s. split; [reflexivity|].
    apply eqs_false. now apply negb_true_iff.
  - intros (s & -> & Hs). simpl.
    assert (Hne : s <> []) by (intros ->; now apply Hs).
    apply eqs_false in Hne, Hs. now rewrite Hne, Hs.
Qed.

Lemma processFrontmatter_fields (fm : frontmatter) (filename : jsstring)
  (getBasename : jsstring -> jsstring) :
  let out := FrontmatterUtils.processFrontmatter fm filename getBasename in
  getField out "title"
  = (if ImportUtils.keepsTitle (getField fm "title")
     then getField fm "title" else VStr (getBasename filename))
  /\ getField out "tags"
     = VArr (map ImportUtils.stripHash (Spec.asArray (getField fm "tags")))
  /\ getField out "authors" = VArr (Spec.asArray (getField fm "authors")).
Proof.
  unfold FrontmatterUtils.processFrontmatter.
  set (fm1 := if ImportUtils.keepsTitle (getField fm "title") then fm
              else setField fm "title" (VStr (getBasename filename))).
  assert (Htitle : getField fm1 "title"
                   = if ImportUtils.keepsTitle (getField fm "title")
                     then getField fm "title"
                     else VStr (getBasename filename)).
  { unfold fm1. destruct (ImportUtils.keepsTitle _); [reflexivity|].
    apply getField_setField_eq. }
  assert (Htags : getField fm1 "tags" = getField fm "tags").
  { unfold fm1. destruct (ImportUtils.keepsTitle _); [reflexivity|].
    apply getField_setField_ne. distinct_keys. }
  assert (Hauthors : getField fm1 "authors" = getField fm "authors").
  { unfold fm1. destruct (ImportUtils.keepsTitle _); [reflexivity|].
    apply getField_setField_ne. distinct_keys. }
  rewrite (getField_setField_ne _ "authors" "tags") by distinct_keys.
  rewrite getField_setField_eq, normalizeArray_asArray.
  rewrite (getField_setField_ne _ "tags" "authors") by distinct_keys.
  rewrite normalizeArray_asArray, Htags, Hauthors. cbv zeta.
  rewrite getField_setField_eq.
  rewrite !(getField_setField_ne _ "tags" "title") by distinct_keys.
  rewrite !(getField_setField_ne _ "authors" "title") by distinct_keys.
  rewrite (getField_setField_ne _ "tags" "authors") by distinct_keys.
  rewrite getField_setField_eq.
  rewrite (getField_setField_ne _ "tags" "title") by distinct_keys. auto.
Qed.

Lemma lastSegment_nonempty (p : jsstring) :
  Spec.namesFile p -> NodePath.lastSegment p <> [].
Proof.
  intros H Hnil. unfold NodePath.lastSegment in Hnil.
  apply (f_equal (@rev _)) in Hnil. rewrite rev_involutive in Hnil.
  simpl in Hnil.
  destruct (dropWhile NodePath.isSlash (rev p)) as [|c t] eqn:Hd.
  - apply List.Exists_exists in H. destruct H as (c & Hin & Hc).
    pose proof (takeWhile_dropWhile NodePath.isSlash (rev p)) as Hs.
    rewrite Hd, app_nil_r in Hs.
    pose proof (takeWhile_Forall NodePath.isSlash (rev p)) as Hall.
    rewrite Hs in Hall. rewrite List.Forall_forall in Hall.
    apply List.in_rev in Hin. specialize (Hall c Hin). congruence.
  - apply dropWhile_head in Hd. simpl in Hnil. rewrite Hd in Hnil.
    discriminate.
Qed.

Lemma getBasename_nonempty (p : jsstring) :
  Spec.namesFile p -> FileUtils.getBasename p <> [].
Proof.
  intros H. unfold FileUtils.getBasename.
  destruct (extname_cases p) as [[_ ->] | (b & e & _ & _ & Hb & _ & _ & ->)].
  - now apply lastSegment_nonempty.
  - exact Hb.
Qed.





(** ** The validation gate of [processNote] *)

Lemma isTrueOrTrueString_true (v : value) :
  isTrueOrTrueString v = true <-> v = VBool true \/ v = VStr (js "true").
Proof.
  split.
  - destruct v; simpl; try discriminate.
    + intros ->. now left.
    + intros Hs%eqs_true. right. now rewrite Hs.
  - intros [-> | ->]; reflexivity.
Qed.

Section SkipPriority.
Context `{Host} {W : Type} `{FileSystem W}.

(** C1.  When the frontmatter read from a note has [can_skip] or
    [is_draft] equal to [true] or to the string "true", [processNote]
    returns a [skipped] result with the skip reason at once: the world is
    the one the read left, and nothing else of the frontmatter is looked
    at, so a draft with a missing or invalid date or description is
    skipped, not rejected. *)
Theorem processNote_skips_first (filePath : jsstring) (cfg : config)
  (w w' : W) (fm : frontmatter) (body : jsstring) :
  ImportObsidian.readNoteFile filePath w = (Ok (fm, body), w') ->
  (getField fm "can_skip" = VBool true
   \/ getField fm "can_skip" = VStr (js "true")
   \/ getField fm "is_draft" = VBool true
   \/ getField fm "is_draft" = VStr (js "true")) ->
  exists reason,
    ImportUtils.getSkipReason fm = Some reason
    /\ ImportObsidian.processNote filePath cfg w
       = (Ok (mkNoteResult skipped (NodePath.basename1 filePath)
                (VStr reason) None), w').
Proof.
  intros Hread Hskip.
  assert (Hreason : exists reason, ImportUtils.getSkipReason fm = Some reason).
  { unfold ImportUtils.getSkipReason.
    destruct (isTrueOrTrueString (getField fm "can_skip")) eqn:Ec; [eauto|].
    destruct (isTrueOrTrueString (getField fm "is_draft")) eqn:Ed; [eauto|].
    exfalso.
    destruct Hskip as [Hs | [Hs | [Hs | Hs]]];
      rewrite Hs in *; discriminate. }
  destruct Hreason as [reason Hreason]. exists reason.
  split; [exact Hreason|].
  unfold ImportObsidian.processNote, tryCatch, bind.
  rewrite Hread, Hreason. reflexivity.
Qed.

End SkipPriority.

Lemma processNote_skips_first_witness :
  ImportObsidian.readNoteFile (js "vault/draft.md") Examples.vault
  = (Ok (FrontmatterCodec.parseFrontmatter Examples.draftNote),
     Examples.vault)
  /\ ImportUtils.validateFrontmatter
       (FrontmatterCodec.parseFrontmatter Examples.draftNote).1
     <> None
  /\ exists reason,
       ImportUtils.getSkipReason
         (FrontmatterCodec.parseFrontmatter Examples.draftNote).1
       = Some reason
       /\ ImportObsidian.processNote (js "vault/draft.md")
            Examples.vaultConfig Examples.vault
          = (Ok (mkNoteResult skipped (js "draft.md") (VStr reason) None),
             Examples.vault).
Proof.
  split; [vm_compute; reflexivity|].
  split; [vm_compute; discriminate|].
  apply (processNote_skips_first (js "vault/draft.md") Examples.vaultConfig
           Examples.vault Examples.vault
           (FrontmatterCodec.parseFrontmatter Examples.draftNote).1
           (FrontmatterCodec.parseFrontmatter Examples.draftNote).2).
  - vm_compute. reflexivity.
  - right. right. right. vm_compute. reflexivity.
Defined.

(** ** Settled tasks *)

Lemma settleAll_length {W A} (tasks : list (M W A)) (w : W) :
  length (settleAll tasks w).1 = length tasks.
Proof.
  revert w. induction tasks as [|t ts IH]; intros w; simpl; [reflexivity|].
  destruct (t w) as [r w1]. specialize (IH w1).
  destruct (settleAll ts w1) as [rs w2]. simpl in *. now rewrite IH.
Qed.

(** Every settled entry is what its task gave in some world. *)
Lemma settleAll_each {W A} (tasks : list (M W A)) (w : W) :
  Forall2 (fun t r => exists wi wi', t wi = (r, wi')) tasks
    (settleAll tasks w).1.
Proof.
  revert w. induction tasks as [|t ts IH]; intros w; simpl; [constructor|].
  destruct (t w) as [r w1] eqn:Et. specialize (IH w1).
  destruct (settleAll ts w1) as [rs w2]. simpl in *.
  constructor; [eauto|exact IH].
Qed.

Lemma settleAll_app {W A} (ts1 ts2 : list (M W A)) (w : W) :
  settleAll (ts1 ++ ts2) w
  = let '(rs1, w1) := settleAll ts1 w in
    let '(rs2, w2) := settleAll ts2 w1 in
    (rs1 ++ rs2, w2).
Proof.
  revert w. induction ts1 as [|t ts IH]; intros w; simpl.
  - now destruct (settleAll ts2 w).
  - destruct (t w) as [r w1]. rewrite IH.
    destruct (settleAll ts w1) as [rs1 w2].
    now destruct (settleAll ts2 w2).
Qed.

Lemma allFulfilled_all {A} (vs : list A) : allFulfilled (map Ok vs) = Ok vs.
Proof. induction vs as [|v vs IH]; simpl; [reflexivity|]. now rewrite IH. Qed.

Lemma allFulfilled_first_throw {A} (pre : list A) (e : exn)
  (post : list (result A)) :
  allFulfilled (map Ok pre ++ Throw e :: post) = Throw e.
Proof. induction pre as [|v vs IH]; simpl; [reflexivity|]. now rewrite IH. Qed.

(** Settled tasks are all fulfilled, or there is a first rejected one. *)
Lemma settled_cases {A} (rs : list (result A)) :
  (exists vs, rs = map Ok vs)
  \/ (exists pre e post, rs = map Ok pre ++ Throw e :: post).
Proof.
  induction rs as [|r rs IH].
  - left. now exists [].
  - destruct r as [v|e].
    + destruct IH as [[vs ->] | (pre & e & post & ->)].
      * left. now exists (v :: vs).
      * right. now exists (v :: pre), e, post.
    + right. now exists [], e, rs.
Qed.

(** ** The image relocator (obsidian-image-utils.mjs) *)

Section ImageCopies.
Context `{Host} {W : Type} `{FileSystem W}.

Lemma copyImage_missing (src dst o n : jsstring) (w : W) :
  pathExists src w = false ->
  ImageUtils.copyImage src dst o n w
  = (Ok (mkCopyResult false o None (VStr (js "missing"))), w).
Proof. intros E. unfold ImageUtils.copyImage. now rewrite E. Qed.

Lemma copyImage_io_error (src dst o n : jsstring) (w w' : W) (e : exn) :
  pathExists src w = true -> copy src dst w = (Throw e, w') ->
  ImageUtils.copyImage src dst o n w = (Throw e, w').
Proof.
  intros E Hc. unfold ImageUtils.copyImage, bind. now rewrite E, Hc.
Qed.

Lemma copyImage_copied (src dst o n : jsstring) (w w' : W) :
  pathExists src w = true -> copy src dst w = (Ok tt, w') ->
  ImageUtils.copyImage src dst o n w
  = (Ok (mkCopyResult true o (Some n) VUndefined), w').
Proof.
  intros E Hc. unfold ImageUtils.copyImage, bind. now rewrite E, Hc.
Qed.

Lemma imageLoop_tasks (sourceDir assetsDir : jsstring)
  (matches : list (jsstring * jsstring)) (content : jsstring) :
  (ImageUtils.imageLoop sourceDir assetsDir matches content).1
  = map (ImageUtils.imageTask sourceDir assetsDir) matches.
Proof.
  revert content. induction matches as [|m ms IH]; intros content; simpl;
    [reflexivity|].
  specialize (IH (replaceFirst m.1
                    (markdownRef (ImageUtils.normalizeImageName m.2))
                    content)).
  destruct (ImageUtils.imageLoop sourceDir assetsDir ms _) as [ts final].
  simpl in *. now rewrite IH.
Qed.

(** The copies [processImages] of obsidian-image-utils.mjs starts settle as
    the specification words them. *)
Lemma first_tasks_copies (sourceDir assetsDir : jsstring)
  (matches : list (jsstring * jsstring)) (w : W) :
  settleAll (map (ImageUtils.imageTask sourceDir assetsDir) matches) w
  = Spec.strictCopies sourceDir assetsDir (map snd matches) w.
Proof.
  revert w. induction matches as [|m ms IH]; intros w; [reflexivity|].
  rewrite !map_cons. cbn [settleAll Spec.strictCopies].
  unfold ImageUtils.imageTask at 1. unfold ImageUtils.copyImage, bind, ret.
  destruct (pathExists _ w).
  - destruct (copy _ _ w) as [[u|e] w1]; rewrite IH; reflexivity.
  - rewrite IH. reflexivity.
Qed.

Lemma strictCopies_length (sourceDir assetsDir : jsstring)
  (names : list jsstring) (w : W) :
  length (Spec.strictCopies sourceDir assetsDir names w).1 = length names.
Proof.
  revert w. induction names as [|n ns IH]; intros w; [reflexivity|].
  cbn [Spec.strictCopies].
  destruct (pathExists _ w).
  - destruct (copy _ _ w) as [[u|e] w1]; specialize (IH w1);
      destruct (Spec.strictCopies _ _ ns w1); simpl in *; now rewrite IH.
  - specialize (IH w).
    destruct (Spec.strictCopies _ _ ns w); simpl in *; now rewrite IH.
Qed.

Lemma first_processImages_copies (content sourceDir destDir : jsstring)
  (w w1 : W) :
  let matches := ImageUtils.OBSIDIAN_IMAGE_REGEX content in
  let assetsDir := pathJoin destDir (js "assets") in
  let copies :=
    Spec.strictCopies sourceDir assetsDir (map snd matches) w1 in
  matches <> [] ->
  ensureDir assetsDir w = (Ok tt, w1) ->
  ImageUtils.processImages content sourceDir destDir w
  = (match allFulfilled copies.1 with
     | Ok rs =>
         Ok (mkImagesResult
               (ImageUtils.imageLoop sourceDir assetsDir matches content).2
               rs)
     | Throw e => Throw e
     end,
     copies.2).
Proof.
  intros matches assetsDir copies Hne Hdir. subst copies.
  unfold ImageUtils.processImages. fold matches. fold assetsDir.
  destruct matches as [|m ms] eqn:Em; [done|]. rewrite <- Em in *.
  unfold bind, promiseAll, ret. rewrite Hdir.
  pose proof (imageLoop_tasks sourceDir assetsDir matches content) as Ht.
  destruct (ImageUtils.imageLoop sourceDir assetsDir matches content)
    as [ts final]. cbn [fst snd] in *. subst ts.
  rewrite first_tasks_copies.
  destruct (Spec.strictCopies _ _ _ w1) as [rs w2]. cbn [fst snd].
  now destruct (allFulfilled rs).
Qed.

End ImageCopies.

(** ** The batch runner *)

Lemma collect_entries (batch : list jsstring)
  (settled : list (result noteResult)) :
  ImportObsidian.collect batch settled
  = map (fun '(p, r) => Spec.entryOf p r) (combine batch settled).
Proof.
  unfold ImportObsidian.collect. apply map_ext. now intros [p [v|e]].
Qed.

Lemma collect_length (batch : list jsstring)
  (settled : list (result noteResult)) :
  length settled = length batch ->
  length (ImportObsidian.collect batch settled) = length batch.
Proof.
  intros E. unfold ImportObsidian.collect.
  rewrite length_map, length_combine. lia.
Qed.

Lemma collect_app (b1 b2 : list jsstring)
  (s1 s2 : list (result noteResult)) :
  length s1 = length b1 ->
  ImportObsidian.collect (b1 ++ b2) (s1 ++ s2)
  = ImportObsidian.collect b1 s1 ++ ImportObsidian.collect b2 s2.
Proof.
  unfold ImportObsidian.collect. revert s1.
  induction b1 as [|p b1 IH]; intros [|r s1] E; try discriminate;
    [reflexivity|].
  simpl. f_equal. apply IH. now injection E.
Qed.

Lemma collect_lookup (batch : list jsstring)
  (settled : list (result noteResult)) (i : nat) (p : jsstring)
  (r : result noteResult) :
  batch !! i = Some p -> settled !! i = Some r ->
  ImportObsidian.collect batch settled !! i = Some (Spec.entryOf p r).
Proof.
  rewrite collect_entries. revert settled i.
  induction batch as [|q batch IH]; intros [|s settled] [|i] Hp Hr;
    simpl in *; try discriminate.
  - now injection Hp as ->; injection Hr as ->.
  - now apply IH.
Qed.

Lemma windows_concat {A} (fuel size : nat) (l : list A) :
  0 < size -> length l <= fuel -> concat (Spec.windows fuel size l) = l.
Proof.
  intros Hs. revert l. induction fuel as [|fuel IH]; intros l Hl.
  - destruct l; [reflexivity|simpl in Hl; lia].
  - destruct l as [|a l]; [reflexivity|].
    change (Spec.windows (S fuel) size (a :: l))
      with (take size (a :: l)
            :: Spec.windows fuel size (drop size (a :: l))).
    simpl concat. rewrite IH.
    + apply take_drop.
    + rewrite length_drop. simpl in *. lia.
Qed.

Lemma windows_fuel {A} (fuel size : nat) (l : list A) :
  0 < size -> length l <= fuel ->
  Spec.windows fuel size l = Spec.windowsOf size l.
Proof.
  intros Hs. unfold Spec.windowsOf.
  remember (length l) as n eqn:En. revert fuel l En.
  induction n as [n IH] using lt_wf_ind. intros fuel l En Hl.
  destruct l as [|a l].
  - subst n. now destruct fuel.
  - destruct fuel as [|fuel]; [simpl in *; lia|].
    destruct n as [|n]; [discriminate|].
    change (take size (a :: l) :: Spec.windows fuel size (drop size (a :: l))
            = take size (a :: l) :: Spec.windows n size (drop size (a :: l))).
    f_equal.
    assert (Hd : length (drop size (a :: l)) <= n).
    { rewrite length_drop. simpl in *. lia. }
    rewrite (IH (length (drop size (a :: l)))); try lia; try reflexivity.
    symmetry. apply (IH (length (drop size (a :: l)))); try lia; reflexivity.
Qed.

Section BatchRunner.
Context `{Host} {W : Type} `{FileSystem W}.
Variable process : jsstring -> config -> M W noteResult.
Variable cfg : config.

Lemma runWindows_flat (wins : list (list jsstring)) (w : W) :
  let flat := settleAll (map (fun p => process p cfg) (concat wins)) w in
  (concat (Spec.runWindows process cfg wins w).1
   = ImportObsidian.collect (concat wins) flat.1)
  /\ (Spec.runWindows process cfg wins w).2 = flat.2.
Proof.
  revert w. induction wins as [|win wins IH]; intros w; [now split|].
  simpl. rewrite map_app, settleAll_app.
  pose proof (settleAll_length (map (fun p => process p cfg) win) w) as Hlen.
  destruct (settleAll (map (fun p => process p cfg) win) w) as [s1 w1].
  specialize (IH w1).
  destruct (Spec.runWindows process cfg wins w1) as [later w2].
  destruct (settleAll (map (fun p => process p cfg) (concat wins)) w1)
    as [s2 w3].
  cbn [fst snd] in *. rewrite length_map in Hlen.
  destruct IH as [IH1 IH2]. split; [|exact IH2].
  simpl. now rewrite IH1, collect_app.
Qed.

Lemma batchLoop_windows (paths : list jsstring) (concurrency : nat) :
  0 < concurrency ->
  forall fuel i results w,
    length (drop i paths) <= fuel ->
    ImportObsidian.batchLoop process fuel paths cfg concurrency i results w
    = (Some (results
             ++ concat (Spec.runWindows process cfg
                          (Spec.windows fuel concurrency (drop i paths)) w).1),
       (Spec.runWindows process cfg
          (Spec.windows fuel concurrency (drop i paths)) w).2).
Proof.
  intros Hc. induction fuel as [|fuel IH]; intros i results w Hl.
  - assert (Hd : drop i paths = []) by (destruct (drop i paths);
      [reflexivity|simpl in Hl; lia]).
    rewrite Hd. simpl.
    assert (Hi : (i <? length paths)%nat = false).
    { apply Nat.ltb_ge. apply (f_equal (@length _)) in Hd.
      rewrite length_drop in Hd. simpl in Hd. lia. }
    rewrite Hi, app_nil_r. reflexivity.
  - simpl ImportObsidian.batchLoop.
    destruct (i <? length paths)%nat eqn:Hi.
    + apply Nat.ltb_lt in Hi.
      destruct (drop i paths) as [|a rest] eqn:Hd.
      { apply (f_equal (@length _)) in Hd. rewrite length_drop in Hd.
        simpl in Hd. lia. }
      change (Spec.windows (S fuel) concurrency (a :: rest))
        with (take concurrency (a :: rest)
              :: Spec.windows fuel concurrency (drop concurrency (a :: rest))).
      simpl Spec.runWindows.
      destruct (settleAll
                  (map (fun filePath => process filePath cfg)
                     (take concurrency (a :: rest))) w) as [settled w1].
      rewrite IH.
      * rewrite <- Hd, drop_drop.
        destruct (Spec.runWindows process cfg
                    (Spec.windows fuel concurrency
                       (drop (i + concurrency) paths)) w1) as [later w2].
        cbn [fst snd concat]. now rewrite <- app_assoc.
      * rewrite <- drop_drop, Hd, length_drop. simpl in *. lia.
    + apply Nat.ltb_ge in Hi. rewrite drop_ge by exact Hi.
      simpl. now rewrite app_nil_r.
Qed.

End BatchRunner.

Section BatchResults.
Context `{Host} {W : Type} `{FileSystem W}.

(** [processNote] never rejects: whatever is thrown inside is caught at the
    note boundary. *)
Lemma processNote_fulfilled (filePath : jsstring) (cfg : config) (w : W) :
  exists r w', ImportObsidian.processNote filePath cfg w = (Ok r, w').
Proof.
  unfold ImportObsidian.processNote, tryCatch.
  match goal with |- context [match ?m w with _ => _ end] =>
    destruct (m w) as [[r|e] w'] end; unfold ret; eauto.
Qed.

(** With a window of size 0 the loop never ends on a non-empty list. *)
Lemma batchLoop_zero_window (process : jsstring -> config -> M W noteResult)
  (fuel : nat) (paths : list jsstring) (cfg : config)
  (results : list noteResult) (w : W) :
  paths <> [] ->
  ImportObsidian.batchLoop process fuel paths cfg 0 0 results w = (None, w).
Proof.
  intros Hp. revert results.
  induction fuel as [|fuel IH]; intros results; simpl;
    destruct paths as [|a l]; try contradiction; simpl; [reflexivity|].
  rewrite app_nil_r. apply (IH results).
Qed.

(** C4.  For every note processor (one that may reject, too), every list of
    files and every window size above 0 the batch runner returns, with
    fuel for one turn per file, one entry per file, in the order of the
    files: the value of a note that fulfilled, and for a note that rejected
    an [error] entry with the note's basename and the message of the
    rejection.  The entries of a note do not depend on how other notes
    settled, every entry is tagged [imported], [skipped] or [error], and
    the list is the concatenation of the windows' entries in window
    order. *)
Theorem batch_results (process : jsstring -> config -> M W noteResult)
  (fuel : nat) (files : list jsstring) (cfg : config) (concurrency : nat)
  (w : W) :
  0 < concurrency -> length files <= fuel ->
  let paths := map (fun file => pathJoin (sourceMarkdownDir cfg) file) files in
  let settled := settleAll (map (fun p => process p cfg) paths) w in
  exists results,
    ImportObsidian.processFilesWith process fuel files cfg concurrency w
    = (Some results, settled.2)
    /\ length results = length files
    /\ (forall i p r,
          paths !! i = Some p -> settled.1 !! i = Some r ->
          results !! i = Some (Spec.entryOf p r))
    /\ results
       = concat (Spec.runWindows process cfg
                   (Spec.windowsOf concurrency paths) w).1
    /\ Forall (fun r => noteStatus r = imported \/ noteStatus r = skipped
                        \/ noteStatus r = error_) results.
Proof.
  intros Hc Hfuel paths settled.
  assert (Hlen : length paths = length files) by apply length_map.
  pose proof (batchLoop_windows process cfg paths concurrency Hc fuel 0 [] w)
    as Hloop.
  rewrite drop_0 in Hloop. specialize (Hloop ltac:(lia)).
  rewrite windows_fuel in Hloop by lia. simpl app in Hloop.
  assert (Hcat : concat (Spec.windowsOf concurrency paths) = paths)
    by (apply windows_concat; lia).
  destruct (runWindows_flat process cfg (Spec.windowsOf concurrency paths) w)
    as [Hflat Hworld].
  rewrite Hcat in Hflat, Hworld. fold settled in Hflat, Hworld.
  exists (concat (Spec.runWindows process cfg
                    (Spec.windowsOf concurrency paths) w).1).
  split; [|split; [|split; [|split]]].
  - unfold ImportObsidian.processFilesWith. fold paths.
    rewrite Hloop. now rewrite Hworld.
  - rewrite Hflat, collect_length; [exact Hlen|].
    unfold settled. now rewrite settleAll_length, length_map.
  - intros i p r Hp Hr. rewrite Hflat. now apply collect_lookup.
  - reflexivity.
  - apply List.Forall_forall. intros r _. destruct (noteStatus r); auto.
Qed.

End BatchResults.

Lemma batch_results_witness :
  exists results,
    ImportObsidian.processFilesInParallel 3
      [js "draft.md"; js "photos.md"; js "gone.md"]
      Examples.vaultConfig 2 Examples.vault
    = (Some results,
       (settleAll
          (map (fun p => ImportObsidian.processNote p Examples.vaultConfig)
             [js "vault/draft.md"; js "vault/photos.md"; js "vault/gone.md"])
          Examples.vault).2)
    /\ map noteStatus results = [skipped; imported; error_].
Proof.
  destruct (batch_results ImportObsidian.processNote 3
              [js "draft.md"; js "photos.md"; js "gone.md"]
              Examples.vaultConfig 2 Examples.vault
              ltac:(lia) ltac:(simpl; lia))
    as (results & Hrun & _ & _ & Hwin & _).
  exists results. split; [exact Hrun|].
  rewrite Hwin. vm_compute. reflexivity.
Defined.

(** C4, as the claim states it, fails for the window size 0: the loop then
    stays at the first note, and whatever fuel it is given the batch runner
    returns no list for a vault with one note. *)
Lemma batch_zero_window_never_returns :
  ~ exists fuel results w',
      ImportObsidian.processFilesInParallel fuel [js "draft.md"]
        Examples.vaultConfig 0 Examples.vault
      = (Some results, w').
Proof.
  intros (fuel & results & w' & E).
  unfold ImportObsidian.processFilesInParallel,
    ImportObsidian.processFilesWith in E.
  rewrite batchLoop_zero_window in E; [discriminate E | simpl; discriminate].
Qed.

(** ** The cross-poster *)

Section UpdateFallback.
Context `{Host} {W : Type} `{DevTo W}.
Variable ORIGINAL_SITE_URL : jsstring.
Variable convertMdxToMarkdown : jsstring -> jsstring -> jsstring.

(** C7.  When the post is read and parsed, the lookup of the remote
    articles answers, an article id is known (from the article with the
    post's canonical URL, or else from the metadata record) and the update
    of that article fails, [processPost] goes on to create a new article
    with the same payload: its outcome is the outcome of the create call
    (the posted article recorded in the metadata, or the error of the
    create call), never the error of the update. *)
Theorem update_failure_falls_back (p : post)
  (metadata : gmap jsstring postMetadata) (publish : bool)
  (w w1 w2 w3 : W) (text body : jsstring) (fm : frontmatter)
  (existing : option article) (e : exn) :
  let id := postId p in
  let data :=
    PublishDevto.articleDataOf ORIGINAL_SITE_URL convertMdxToMarkdown fm body
      id publish in
  let articleId := PublishDevto.knownArticleId existing (metadata !! id) in
  readPost (postPath p) w = (Ok text, w1) ->
  matter text = Ok (fm, body) ->
  PublishDevto.getArticleByCanonicalUrl
    (PublishDevto.canonicalUrlOf ORIGINAL_SITE_URL id) w1
  = (Ok existing, w2) ->
  truthy articleId = true ->
  updateArticle articleId data w2 = (Throw e, w3) ->
  PublishDevto.processPost ORIGINAL_SITE_URL convertMdxToMarkdown p metadata
    publish w
  = match createArticle data w3 with
    | (Ok created, w4) =>
        (Ok (mkSyncResult id (artId created) (artUrl created)
               (artPublished created),
             <[id := mkPostMetadata (artId created) (artUrl created)
                       (PublishDevto.canonicalUrlOf ORIGINAL_SITE_URL id)
                       (nowISO w4)]> metadata), w4)
    | (Throw e', w4) => (Throw e', w4)
    end.
Proof.
  intros id data articleId Hread Hparse Hfind Hknown Hupdate.
  unfold PublishDevto.processPost, tryCatch, bind, lift.
  rewrite Hread, Hparse. fold id. rewrite Hfind.
  fold data. fold articleId. rewrite Hknown, Hupdate.
  destruct (createArticle data w3) as [[created|e'] w4]; reflexivity.
Qed.

End UpdateFallback.

Lemma update_failure_falls_back_witness :
  (updateArticle (VNum 41)
     (PublishDevto.articleDataOf (js "https://example.org")
        (fun body _ => body)
        (FrontmatterCodec.parseFrontmatter Examples.helloPost).1
        (FrontmatterCodec.parseFrontmatter Examples.helloPost).2
        (js "hello") false)
     Examples.brokenRemote).1
  = Throw (Error (js "API request failed: 500"))
  /\ (PublishDevto.processPost (js "https://example.org")
        (fun body _ => body)
        (mkPost (js "hello") (js "blog/hello/index.mdx")) ∅ false
        Examples.brokenRemote).1
     = Ok (mkSyncResult (js "hello") (VNum 100)
             (VStr (js "https://dev.to/created")) (VBool false),
           <[js "hello" :=
               mkPostMetadata (VNum 100) (VStr (js "https://dev.to/created"))
                 (js "https://example.org/blog/hello")
                 (js "2024-01-01T00:00:00.000Z")]> ∅).
Proof.
  split; [vm_compute; reflexivity|].
  rewrite (update_failure_falls_back (js "https://example.org")
             (fun body _ => body)
             (mkPost (js "hello") (js "blog/hello/index.mdx")) ∅ false
             Examples.brokenRemote Examples.brokenRemote
             Examples.brokenRemote Examples.brokenRemote
             Examples.helloPost
             (FrontmatterCodec.parseFrontmatter Examples.helloPost).2
             (FrontmatterCodec.parseFrontmatter Examples.helloPost).1
             (Some (mkArticle (VNum 41) (VStr (js "https://dev.to/hello"))
                      (VBool true)
                      (VStr (js "https://example.org/blog/hello"))))
             (Error (js "API request failed: 500")));
    vm_compute; reflexivity.
Defined.

(** ** The frontmatter codec: trimming *)

Lemma noChar_Forall (c : ascii) (s : jsstring) :
  Spec.noChar c s = true <-> Forall (fun x => x <> c) s.
Proof.
  unfold Spec.noChar. rewrite forallb_forall, List.Forall_forall.
  split; intros Hs x Hx; specialize (Hs x Hx).
  - intros ->. rewrite eqc_refl in Hs. discriminate.
  - destruct (eqc x c) eqn:E; [|reflexivity].
    apply eqc_true in E. contradiction.
Qed.

Lemma dropWhile_solid (s : jsstring) :
  startsSolid s -> dropWhile isSpace s = s.
Proof. destruct s as [|c s]; simpl; [reflexivity|]. now intros ->. Qed.

Lemma dropWhile_same_length (p : ascii -> bool) (s : jsstring) :
  length (dropWhile p s) = length s -> dropWhile p s = s.
Proof.
  destruct s as [|c s]; simpl; [reflexivity|].
  destruct (p c); [|reflexivity].
  intros E. pose proof (dropWhile_length p s). lia.
Qed.

Lemma dropWhile_fixed_solid (s : jsstring) :
  dropWhile isSpace s = s -> startsSolid s.
Proof.
  destruct s as [|c s]; simpl; [trivial|].
  destruct (isSpace c) eqn:E; [|reflexivity].
  intros Hd. pose proof (dropWhile_length isSpace s) as Hl.
  rewrite Hd in Hl. simpl in Hl. lia.
Qed.

Lemma trim_fixed_iff (s : jsstring) :
  trim s = s <-> startsSolid s /\ startsSolid (rev s).
Proof.
  unfold trim, trimEnd, trimStart. split.
  - intros E.
    assert (Hl : length (dropWhile isSpace s) = length s).
    { pose proof (dropWhile_length isSpace s).
      pose proof (dropWhile_length isSpace (rev (dropWhile isSpace s))) as H2.
      rewrite length_rev in H2.
      apply (f_equal (@length _)) in E. rewrite length_rev in E. lia. }
    apply dropWhile_same_length in Hl. rewrite Hl in E.
    split; [now apply dropWhile_fixed_solid|].
    apply dropWhile_fixed_solid.
    rewrite <- E at 2. now rewrite rev_involutive.
  - intros [H1 H2]. rewrite (dropWhile_solid s H1), (dropWhile_solid _ H2).
    apply rev_involutive.
Qed.

Lemma trim_wrapped (a b : ascii) (s : jsstring) :
  isSpace a = false -> isSpace b = false ->
  trim (a :: s ++ [b]) = a :: s ++ [b].
Proof.
  intros Ha Hb. apply trim_fixed_iff. split; [exact Ha|].
  change (a :: s ++ [b]) with ((a :: s) ++ [b]).
  rewrite rev_app_distr. exact Hb.
Qed.

Lemma dropWhile_app_solid (p : ascii -> bool) (a b : jsstring) (c : ascii) :
  p c = false -> dropWhile p (a ++ c :: b) = dropWhile p a ++ c :: b.
Proof.
  intros Hc. induction a as [|x a IH]; simpl; [now rewrite Hc|].
  destruct (p x); [exact IH | reflexivity].
Qed.

(** Trimming the end of a text stops at the last solid character. *)
Lemma trimEnd_after_solid (a t : jsstring) (c : ascii) :
  isSpace c = false -> trimEnd (a ++ c :: t) = a ++ c :: trimEnd t.
Proof.
  intros Hc. unfold trimEnd.
  rewrite rev_app_distr. simpl rev. rewrite <- app_assoc. simpl app.
  rewrite dropWhile_app_solid by exact Hc.
  rewrite rev_app_distr. simpl rev. rewrite rev_involutive.
  now rewrite <- app_assoc.
Qed.

(** What [trim] makes of the text after the colon of a line, when the
    value written there is trimmed. *)
Lemma trim_after_colon (r : jsstring) :
  trim r = r -> trim (trimEnd (" " :: r)) = r.
Proof.
  intros Hr. destruct r as [|c r]; [reflexivity|].
  apply trim_fixed_iff in Hr as Hs. destruct Hs as [H1 H2].
  assert (He : trimEnd (" " :: c :: r) = " " :: c :: r).
  { unfold trimEnd. rewrite (dropWhile_solid (rev (" " :: c :: r))).
    - apply rev_involutive.
    - change (" " :: c :: r) with ([" "] ++ c :: r).
      rewrite rev_app_distr.
      destruct (rev (c :: r)) as [|x y] eqn:E; [|exact H2].
      apply (f_equal (@length _)) in E. rewrite length_rev in E.
      discriminate. }
  rewrite He. exact Hr.
Qed.

(** ** The frontmatter codec: splitting and joining *)

Lemma splitOn_free (c : ascii) (s : jsstring) :
  Spec.noChar c s = true -> splitOn c s = [s].
Proof.
  induction s as [|x s IH]; simpl; [reflexivity|].
  intros [Hx Hs]%andb_prop. apply negb_true_iff in Hx.
  now rewrite Hx, (IH Hs).
Qed.

Lemma splitOn_app (c : ascii) (a b : jsstring) :
  Spec.noChar c a = true -> splitOn c (a ++ c :: b) = a :: splitOn c b.
Proof.
  induction a as [|x a IH]; simpl.
  - intros _. now rewrite eqc_refl.
  - intros [Hx Ha]%andb_prop. apply negb_true_iff in Hx.
    now rewrite Hx, (IH Ha).
Qed.

Lemma join_cons_cons (sep p : jsstring) (q : jsstring) (ps : list jsstring) :
  join sep (p :: q :: ps) = p ++ sep ++ join sep (q :: ps).
Proof. reflexivity. Qed.

Lemma join_head_cons (sep : jsstring) (x : ascii) (p : jsstring)
  (ps : list jsstring) :
  join sep ((x :: p) :: ps) = x :: join sep (p :: ps).
Proof. destruct ps; reflexivity. Qed.

Lemma splitOn_join_lines (lines : list jsstring) :
  lines <> [] -> forallb (Spec.noChar LF) lines = true ->
  splitOn LF (join [LF] lines) = lines.
Proof.
  induction lines as [|l ls IH]; [contradiction|]. intros _.
  simpl forallb. intros [Hl Hls]%andb_prop.
  destruct ls as [|l2 ls].
  - now apply splitOn_free.
  - rewrite join_cons_cons. simpl app.
    rewrite splitOn_app by exact Hl. f_equal. now apply IH.
Qed.

Lemma splitOn_join_commas (q : jsstring) (qs : list jsstring) :
  forallb (Spec.noChar ",") (q :: qs) = true ->
  splitOn "," (join (js ", ") (q :: qs)) = q :: map (cons " ") qs.
Proof.
  revert q. induction qs as [|q2 qs IH]; intros q.
  - simpl. rewrite andb_true_r. apply splitOn_free.
  - simpl forallb. intros [Hq Hqs]%andb_prop.
    rewrite join_cons_cons.
    replace (q ++ js ", " ++ join (js ", ") (q2 :: qs))
      with (q ++ "," :: join (js ", ") ((" " :: q2) :: qs))
      by (now rewrite join_head_cons).
    rewrite splitOn_app by exact Hq. rewrite IH; [reflexivity|].
    simpl forallb. simpl in Hqs. exact Hqs.
Qed.

Lemma join_lines_cons (l : jsstring) (ls : list jsstring) :
  ls <> [] -> join [LF] (l :: ls) = l ++ LF :: join [LF] ls.
Proof. destruct ls; [contradiction|reflexivity]. Qed.

(** ** The frontmatter codec: one line *)

Lemma splitAtFirst_colon (k r : jsstring) :
  Spec.noChar ":" k = true ->
  splitAtFirst (js ":") (k ++ ":" :: r) = Some (k, r).
Proof.
  change (js ":") with [":"].
  induction k as [|x k IH]; simpl.
  - intros _. now rewrite drop_0.
  - intros [Hx Hk]%andb_prop. apply negb_true_iff in Hx.
    rewrite (eqc_sym ":" x), Hx. simpl. now rewrite (IH Hk).
Qed.

Lemma goodKey_parts (k : jsstring) :
  Spec.goodKey k = true ->
  Spec.noChar ":" k = true /\ Spec.noChar LF k = true /\ trim k = k
  /\ startsWith (js "#") k = false /\ startsWith (js "-") k = false.
Proof.
  unfold Spec.goodKey. rewrite !andb_true_iff, !negb_true_iff.
  intros [[[[[H1 H2] H3] H4] H5] _]. apply eqs_true in H3. auto.
Qed.

(** The line written for a key starts with the key or, when the key is
    empty, with the colon: it is not blank, no comment and no list item. *)
Lemma line_head (k t : jsstring) :
  Spec.goodKey k = true ->
  startsSolid (k ++ ":" :: t)
  /\ eqs (k ++ ":" :: t) [] = false
  /\ startsWith (js "#") (k ++ ":" :: t) = false
  /\ startsWith (js "-") (k ++ ":" :: t) = false.
Proof.
  intros (_ & _ & Ht & Hh & Hd)%goodKey_parts.
  apply trim_fixed_iff in Ht. destruct Ht as [Hs _].
  destruct k as [|c k]; simpl in *; auto.
Qed.

Lemma line_trim (k rhs : jsstring) :
  Spec.goodKey k = true ->
  trim (k ++ js ": " ++ rhs) = k ++ ":" :: trimEnd (" " :: rhs).
Proof.
  intros Hk. change (k ++ js ": " ++ rhs) with (k ++ ":" :: " " :: rhs).
  destruct (line_head k (" " :: rhs) Hk) as (Hs & _).
  unfold trim, trimStart. rewrite (dropWhile_solid _ Hs).
  now apply trimEnd_after_solid.
Qed.

Lemma stripQuoteEnds_quoted (s : jsstring) :
  FrontmatterCodec.stripQuoteEnds (squote :: s ++ [squote]) = s.
Proof.
  unfold FrontmatterCodec.stripQuoteEnds. simpl.
  rewrite rev_app_distr. simpl. apply rev_involutive.
Qed.

Lemma slice1m1_wrapped (a b : ascii) (s : jsstring) :
  slice1m1 (a :: s ++ [b]) = s.
Proof. simpl. apply removelast_last. Qed.

Lemma endsWith_last (b : ascii) (s : jsstring) : endsWith [b] (s ++ [b]) = true.
Proof. apply endsWith_app. Qed.

Section CodecValues.
Context `{Host}.

Lemma formatEntry_text (k : jsstring) (v : value) :
  FrontmatterCodec.formatEntry (k, v) = k ++ js ": " ++ Spec.valueText v.
Proof.
  destruct v; try reflexivity.
  unfold FrontmatterCodec.formatEntry, Spec.valueText.
  destruct (includes (js ":") s); reflexivity.
Qed.

Lemma unquote_single_quoted (s : jsstring) :
  FrontmatterCodec.unquote (squote :: s ++ [squote]) = s.
Proof.
  unfold FrontmatterCodec.unquote.
  change (squote :: s ++ [squote]) with ((squote :: s) ++ [squote]).
  rewrite (endsWith_last squote).
  replace (startsWith [squote] ((squote :: s) ++ [squote])) with true
    by reflexivity.
  rewrite orb_true_r. apply (slice1m1_wrapped squote squote s).
Qed.

Lemma quoted_items_text (items : list value) :
  forallb Spec.goodItem items = true ->
  exists texts,
    items = map VStr texts
    /\ map (fun v => [squote] ++ toStr v ++ [squote]) items
       = map (fun s => squote :: s ++ [squote]) texts
    /\ forallb (Spec.noChar ",") texts = true
    /\ forallb (Spec.noChar LF) texts = true.
Proof.
  induction items as [|v items IH]; simpl.
  - intros _. now exists [].
  - intros [Hv Hi]%andb_prop. destruct (IH Hi) as (texts & Et & E & Hc & Hl).
    destruct v; try discriminate. apply andb_prop in Hv as [Hv1 Hv2].
    exists (s :: texts). split; [|split; [|split]].
    + simpl. now rewrite Et.
    + change (([squote] ++ s ++ [squote])
              :: map (fun v => [squote] ++ toStr v ++ [squote]) items
              = (squote :: s ++ [squote])
                :: map (fun s => squote :: s ++ [squote]) texts).
      now rewrite E.
    + simpl. now rewrite Hv1, Hc.
    + simpl. now rewrite Hv2, Hl.
Qed.

Lemma noChar_app (c : ascii) (a b : jsstring) :
  Spec.noChar c (a ++ b) = Spec.noChar c a && Spec.noChar c b.
Proof. apply forallb_app. Qed.

Lemma parse_quoted_items (texts : list jsstring) :
  texts <> [] -> forallb (Spec.noChar ",") texts = true ->
  map (fun item => VStr (FrontmatterCodec.stripQuoteEnds (trim item)))
    (splitOn ","
       (join (js ", ") (map (fun s => squote :: s ++ [squote]) texts)))
  = map VStr texts.
Proof.
  intros Hne Hc. destruct texts as [|t ts]; [contradiction|].
  simpl map at 2. rewrite splitOn_join_commas.
  - simpl map. rewrite !map_map. f_equal.
    + now rewrite trim_wrapped, stripQuoteEnds_quoted.
    + apply map_ext. intros s.
      change (trim (" " :: squote :: s ++ [squote]))
        with (trim (squote :: s ++ [squote])).
      now rewrite trim_wrapped, stripQuoteEnds_quoted.
  - change (forallb (Spec.noChar ",")
              (map (fun s => squote :: s ++ [squote]) (t :: ts)) = true).
    rewrite forallb_forall in *. intros q Hq.
    apply in_map_iff in Hq as (s & <- & Hs).
    change (squote :: s ++ [squote]) with ([squote] ++ s ++ [squote]).
    rewrite !noChar_app, (Hc s Hs). reflexivity.
Qed.

Lemma join_quoted_wrapped (t : jsstring) (ts : list jsstring) :
  exists mid,
    join (js ", ") (map (fun s => squote :: s ++ [squote]) (t :: ts))
    = squote :: mid ++ [squote].
Proof.
  revert t. induction ts as [|t2 ts IH]; intros t.
  - now exists t.
  - destruct (IH t2) as [mid Hmid]. simpl map in *.
    rewrite join_cons_cons, Hmid.
    exists (t ++ [squote] ++ js ", " ++ squote :: mid).
    simpl. rewrite <- !app_assoc. reflexivity.
Qed.

(** The value text of a good value is trimmed, and is read back as the
    value. *)
Lemma valueText_read (v : value) :
  Spec.goodValue v = true ->
  trim (Spec.valueText v) = Spec.valueText v
  /\ Spec.noChar LF (Spec.valueText v) = true
  /\ FrontmatterCodec.scalarOrInlineArray (Spec.valueText v) = v.
Proof.
  destruct v; try discriminate; simpl Spec.goodValue.
  - (* a string *)
    unfold Spec.goodScalar. rewrite !andb_true_iff, negb_true_iff.
    intros [[Hlf Hb] Hq]. unfold Spec.valueText.
    destruct (includes (js ":") s) eqn:Ec.
    + split; [apply trim_wrapped; reflexivity|]. split.
      * change ([squote] ++ s ++ [squote]) with ([squote] ++ s ++ [squote]).
        rewrite !noChar_app, Hlf. reflexivity.
      * unfold FrontmatterCodec.scalarOrInlineArray.
        change ([squote] ++ s ++ [squote]) with (squote :: s ++ [squote]).
        rewrite unquote_single_quoted.
        unfold Spec.bracketed in Hb. now rewrite Hb.
    + simpl in Hq. apply andb_prop in Hq as [Ht Hnq].
      apply eqs_true in Ht. apply negb_true_iff in Hnq.
      split; [exact Ht|]. split; [exact Hlf|].
      unfold FrontmatterCodec.scalarOrInlineArray, FrontmatterCodec.unquote.
      unfold Spec.quoted in Hnq. rewrite Hnq.
      unfold Spec.bracketed in Hb. now rewrite Hb.
  - (* an array *)
    intros Hitems.
    destruct (quoted_items_text items Hitems) as (texts & -> & E & Hc & Hl).
    unfold Spec.valueText. rewrite E.
    set (inner := join (js ", ") (map (fun s => squote :: s ++ [squote]) texts)).
    change (js "[" ++ inner ++ js "]") with ("[" :: inner ++ ["]"]).
    split; [apply trim_wrapped; reflexivity|]. split.
    + change ("[" :: inner ++ ["]"]) with (["["] ++ inner ++ ["]"]).
      rewrite !noChar_app. simpl. rewrite andb_true_r.
      unfold inner. clear -Hl.
      induction texts as [|t ts IH]; [reflexivity|].
      simpl in Hl. apply andb_prop in Hl as [Ht Hts].
      destruct ts as [|t2 ts].
      * simpl. change (squote :: t ++ [squote]) with ([squote] ++ t ++ [squote]).
        rewrite !noChar_app, Ht. reflexivity.
      * simpl map in *. rewrite join_cons_cons.
        change (squote :: t ++ [squote]) with ([squote] ++ t ++ [squote]).
        rewrite !noChar_app, Ht, (IH Hts). reflexivity.
    + unfold FrontmatterCodec.scalarOrInlineArray.
      replace (FrontmatterCodec.unquote ("[" :: inner ++ ["]"]))
        with ("[" :: inner ++ ["]"]) by reflexivity.
      change ("[" :: inner ++ ["]"]) with (("[" :: inner) ++ ["]"]) at 2.
      rewrite (endsWith_last "]").
      replace (startsWith (js "[") ("[" :: inner ++ ["]"])) with true
        by reflexivity.
      simpl andb. cbv iota. rewrite slice1m1_wrapped.
      destruct texts as [|t ts]; [reflexivity|].
      destruct (join_quoted_wrapped t ts) as [mid Hmid].
      fold inner in Hmid.
      assert (Ht : trim inner = inner)
        by (rewrite Hmid; apply trim_wrapped; reflexivity).
      rewrite Ht.
      assert (Hne : eqs inner [] = false) by (now rewrite Hmid).
      rewrite Hne. simpl negb. cbv iota. unfold inner.
      now rewrite parse_quoted_items.
Qed.

End CodecValues.

(** ** The frontmatter codec: the lines of a block *)

Lemma parseLines_unfold (fuel : nat) (line : jsstring)
  (rest : list jsstring) (fm : frontmatter) :
  FrontmatterCodec.parseLines (S fuel) (line :: rest) fm
  = if eqs (trim line) [] || startsWith (js "#") (trim line)
    then FrontmatterCodec.parseLines fuel rest fm
    else
      match splitAtFirst (js ":") (trim line) with
      | None => FrontmatterCodec.parseLines fuel rest fm
      | Some (before, after) =>
          if match rest with
             | next :: _ => startsWith (js "-") (trim next)
             | [] => false
             end
          then
            let '(arrayItems, rest') := FrontmatterCodec.listItems rest in
            FrontmatterCodec.parseLines fuel rest'
              (<[trim before := VArr arrayItems]> fm)
          else
            FrontmatterCodec.parseLines fuel rest
              (<[trim before :=
                   FrontmatterCodec.scalarOrInlineArray (trim after)]> fm)
      end.
Proof. reflexivity. Qed.

Section CodecLines.
Context `{Host}.

Lemma formatted_line_start (entry : jsstring * value) :
  Spec.goodEntry entry = true ->
  startsWith (js "-") (trim (FrontmatterCodec.formatEntry entry)) = false
  /\ startsWith (js "-") (FrontmatterCodec.formatEntry entry) = false
  /\ Spec.noChar LF (FrontmatterCodec.formatEntry entry) = true.
Proof.
  destruct entry as [k v]. unfold Spec.goodEntry. simpl fst. simpl snd.
  intros [Hk Hv]%andb_prop. rewrite formatEntry_text.
  rewrite (line_trim k _ Hk).
  destruct (line_head k (trimEnd (" " :: Spec.valueText v)) Hk)
    as (_ & _ & _ & Hd).
  destruct (line_head k (" " :: Spec.valueText v) Hk) as (_ & _ & _ & Hd').
  split; [exact Hd|]. split; [exact Hd'|].
  destruct (valueText_read v Hv) as (_ & Hlf & _).
  apply goodKey_parts in Hk as (_ & Hklf & _).
  change (js ": " ++ Spec.valueText v) with ([":"; " "] ++ Spec.valueText v).
  rewrite !noChar_app, Hklf, Hlf. reflexivity.
Qed.

Lemma parseLines_entry (fuel : nat) (k : jsstring) (v : value)
  (rest : list jsstring) (fm : frontmatter) :
  Spec.goodEntry (k, v) = true ->
  match rest with
  | next :: _ => startsWith (js "-") (trim next) = false
  | [] => True
  end ->
  FrontmatterCodec.parseLines (S fuel)
    (FrontmatterCodec.formatEntry (k, v) :: rest) fm
  = FrontmatterCodec.parseLines fuel rest (<[k := v]> fm).
Proof.
  unfold Spec.goodEntry. simpl fst. simpl snd.
  intros [Hk Hv]%andb_prop Hnext.
  rewrite parseLines_unfold, formatEntry_text, (line_trim k _ Hk).
  destruct (line_head k (trimEnd (" " :: Spec.valueText v)) Hk)
    as (_ & He & Hh & _).
  rewrite He, Hh. simpl orb. cbv iota.
  pose proof (goodKey_parts k Hk) as (Hc & _ & Ht & _).
  rewrite (splitAtFirst_colon k _ Hc), Ht.
  destruct (valueText_read v Hv) as (Htrim & _ & Hread).
  rewrite (trim_after_colon _ Htrim), Hread.
  destruct rest as [|next rest]; [reflexivity|]. now rewrite Hnext.
Qed.

Lemma parseLines_entries (entries : list (jsstring * value)) :
  forallb Spec.goodEntry entries = true ->
  forall fuel fm,
    length entries <= fuel ->
    FrontmatterCodec.parseLines fuel
      (map FrontmatterCodec.formatEntry entries) fm
    = foldl (fun m e => <[e.1 := e.2]> m) fm entries.
Proof.
  induction entries as [|[k v] es IH]; intros Hgood fuel fm Hfuel.
  - now destruct fuel.
  - simpl in Hgood. apply andb_prop in Hgood as [Hkv Hes].
    destruct fuel as [|fuel]; [simpl in Hfuel; lia|].
    change (map FrontmatterCodec.formatEntry ((k, v) :: es))
      with (FrontmatterCodec.formatEntry (k, v)
            :: map FrontmatterCodec.formatEntry es).
    rewrite parseLines_entry; [|exact Hkv|].
    + simpl foldl. apply IH; [exact Hes|simpl in Hfuel; lia].
    + destruct es as [|e es]; [exact I|].
      change (map FrontmatterCodec.formatEntry (e :: es))
        with (FrontmatterCodec.formatEntry e
              :: map FrontmatterCodec.formatEntry es).
      simpl in Hes. apply andb_prop in Hes as [He _].
      now apply formatted_line_start.
Qed.

Lemma formatted_lines_noLF (entries : list (jsstring * value)) :
  forallb Spec.goodEntry entries = true ->
  forallb (Spec.noChar LF) (map FrontmatterCodec.formatEntry entries) = true.
Proof.
  induction entries as [|e es IH]; [reflexivity|]. simpl.
  intros [He Hes]%andb_prop. rewrite (IH Hes), andb_true_r.
  now apply formatted_line_start.
Qed.

End CodecLines.

Lemma foldl_insert_list_to_map (entries : list (jsstring * value))
  (fm : frontmatter) :
  NoDup entries.*1 ->
  foldl (fun m e => <[e.1 := e.2]> m) fm entries
  = (list_to_map entries : frontmatter) ∪ fm.
Proof.
  revert fm. induction entries as [|[k v] es IH]; intros fm Hnd.
  - simpl. now rewrite (left_id_L ∅ (∪)).
  - simpl in *. apply NoDup_cons in Hnd as [Hk Hnd].
    rewrite (IH _ Hnd). symmetry.
    change (list_to_map ((k, v) :: es) : frontmatter)
      with (<[k := v]> (list_to_map es : frontmatter)).
    rewrite <- insert_union_l.
    apply insert_union_r. now apply not_elem_of_list_to_map_1.
Qed.

(** ** The frontmatter codec: the markers of a block *)

Lemma afterSpacesNewline_solid (c : ascii) (t : jsstring) :
  isSpace c = false -> FrontmatterCodec.afterSpacesNewline (c :: t) = [].
Proof. intros Hc. simpl. now rewrite Hc. Qed.

Lemma afterSpacesNewline_body (body : jsstring) :
  Spec.goodBody body = true -> FrontmatterCodec.afterSpacesNewline body = [].
Proof.
  unfold Spec.goodBody. induction body as [|c body IH]; [reflexivity|].
  simpl. destruct (isSpace c) eqn:Ec; [|reflexivity].
  simpl. intros [Hc Hb]%andb_prop. apply negb_true_iff in Hc.
  rewrite (IH Hb). change (eqc c "010") with (eqc c LF).
  now rewrite Hc.
Qed.

Lemma afterSpacesNewline_LF (t : jsstring) :
  FrontmatterCodec.afterSpacesNewline (LF :: t)
  = FrontmatterCodec.afterSpacesNewline t ++ [t].
Proof. reflexivity. Qed.

Lemma afterSpacesNewline_space (c : ascii) (t : jsstring) :
  isSpace c = true ->
  FrontmatterCodec.afterSpacesNewline (c :: t)
  = FrontmatterCodec.afterSpacesNewline t ++ (if eqc c LF then [t] else []).
Proof. intros Hc. simpl. now rewrite Hc. Qed.

Lemma afterSpacesNewline_glue (glue body : jsstring) :
  Spec.goodGlue glue = true -> Spec.goodBody body = true ->
  exists rest,
    FrontmatterCodec.afterSpacesNewline (glue ++ body) = body :: rest.
Proof.
  unfold Spec.goodGlue. intros [Hs He]%andb_prop Hb.
  apply endsWith_true in He as [g ->].
  rewrite forallb_app in Hs. apply andb_prop in Hs as [Hs _].
  rewrite <- app_assoc. simpl app.
  induction g as [|c g IH].
  - exists []. rewrite app_nil_l, afterSpacesNewline_LF.
    now rewrite (afterSpacesNewline_body body Hb).
  - simpl in Hs. apply andb_prop in Hs as [Hc Hs].
    destruct (IH Hs) as [rest Hrest].
    rewrite <- app_comm_cons.
    rewrite (afterSpacesNewline_space c _ Hc), Hrest.
    eexists. reflexivity.
Qed.

Lemma closingMarker_unfold (t : jsstring) :
  FrontmatterCodec.closingMarker t
  = match (if startsWith (LF :: js "---") t
           then FrontmatterCodec.afterSpacesNewline (drop 4 t) else []) with
    | body :: _ => Some ([], body)
    | [] =>
        match t with
        | [] => None
        | c :: t' =>
            match FrontmatterCodec.closingMarker t' with
            | Some (g, body) => Some (c :: g, body)
            | None => None
            end
        end
    end.
Proof. destruct t; reflexivity. Qed.

(** The closing marker is not looked for inside a line. *)
Lemma closingMarker_line (l x : jsstring) :
  Spec.noChar LF l = true ->
  FrontmatterCodec.closingMarker (l ++ x)
  = match FrontmatterCodec.closingMarker x with
    | Some (g, body) => Some (l ++ g, body)
    | None => None
    end.
Proof.
  induction l as [|c l IH].
  - intros _. rewrite app_nil_l.
    now destruct (FrontmatterCodec.closingMarker x) as [[g b]|].
  - intros Hcl.
    change (negb (eqc c LF) && Spec.noChar LF l = true) in Hcl.
    apply andb_prop in Hcl as [Hc Hl]. apply negb_true_iff in Hc.
    rewrite <- app_comm_cons, closingMarker_unfold.
    change (startsWith (LF :: js "---") (c :: l ++ x))
      with (eqc LF c && startsWith (js "---") (l ++ x)).
    rewrite (eqc_sym LF c), Hc. simpl andb. cbv iota.
    rewrite (IH Hl).
    now destruct (FrontmatterCodec.closingMarker x) as [[g b]|].
Qed.

(** A line feed before a line that does not start with a hyphen is no
    closing marker. *)
Lemma closingMarker_newline (c : ascii) (l x : jsstring) :
  startsWith (js "-") (c :: l) = false ->
  FrontmatterCodec.closingMarker (LF :: (c :: l) ++ x)
  = match FrontmatterCodec.closingMarker ((c :: l) ++ x) with
    | Some (g, body) => Some (LF :: g, body)
    | None => None
    end.
Proof.
  intros Hd. rewrite closingMarker_unfold.
  change (startsWith (js "-") (c :: l)) with (eqc "-" c && true) in Hd.
  rewrite andb_true_r in Hd.
  change (startsWith (LF :: js "---") (LF :: (c :: l) ++ x))
    with (eqc LF LF && (eqc "-" c && startsWith (js "--") (l ++ x))).
  rewrite Hd, andb_false_r. reflexivity.
Qed.

Lemma closingMarker_end (glue body : jsstring) :
  Spec.goodGlue glue = true -> Spec.goodBody body = true ->
  FrontmatterCodec.closingMarker (LF :: js "---" ++ glue ++ body)
  = Some ([], body).
Proof.
  intros Hg Hb. rewrite closingMarker_unfold.
  replace (startsWith (LF :: js "---") (LF :: js "---" ++ glue ++ body))
    with true by (symmetry; apply (startsWith_app (LF :: js "---"))).
  change (drop 4 (LF :: js "---" ++ glue ++ body)) with (glue ++ body).
  destruct (afterSpacesNewline_glue glue body Hg Hb) as [rest ->].
  reflexivity.
Qed.

Lemma closingMarker_lines (lines : list jsstring) (glue body : jsstring) :
  lines <> [] -> Forall blockLine lines ->
  Spec.goodGlue glue = true -> Spec.goodBody body = true ->
  FrontmatterCodec.closingMarker
    (join [LF] lines ++ LF :: js "---" ++ glue ++ body)
  = Some (join [LF] lines, body).
Proof.
  intros Hne Hall Hg Hb.
  induction Hall as [|l ls (Hl0 & Hlf & Hd & _) Hls IH]; [contradiction|].
  destruct ls as [|l2 ls].
  - change (join [LF] [l]) with l. rewrite (closingMarker_line l _ Hlf).
    rewrite (closingMarker_end glue body Hg Hb). now rewrite app_nil_r.
  - rewrite join_cons_cons. rewrite <- !app_assoc.
    rewrite (closingMarker_line l _ Hlf).
    specialize (IH ltac:(discriminate)).
    inversion Hls as [|? ? (Hl2 & _ & Hd2 & _) _]; subst.
    destruct l2 as [|c l2]; [contradiction|].
    rewrite join_head_cons in *.
    set (t := join [LF] (l2 :: ls)) in *.
    change ([LF] ++ (c :: t) ++ LF :: js "---" ++ glue ++ body)
      with (LF :: (c :: t) ++ LF :: js "---" ++ glue ++ body).
    rewrite (closingMarker_newline c t).
    + rewrite IH. reflexivity.
    + change (startsWith (js "-") (c :: l2)) with (eqc "-" c && true) in Hd2.
      exact Hd2.
Qed.

Lemma join_snoc (sep x : jsstring) (ls : list jsstring) :
  ls <> [] -> join sep (ls ++ [x]) = join sep ls ++ sep ++ x.
Proof.
  induction ls as [|l ls IH]; [contradiction|]. intros _.
  destruct ls as [|l2 ls]; [reflexivity|].
  change ((l :: l2 :: ls) ++ [x]) with (l :: (l2 :: ls) ++ [x]).
  change ((l2 :: ls) ++ [x]) with (l2 :: ls ++ [x]) at 1.
  rewrite join_cons_cons.
  change (l2 :: ls ++ [x]) with ((l2 :: ls) ++ [x]).
  rewrite IH by discriminate.
  rewrite join_cons_cons. now rewrite <- !app_assoc.
Qed.

Lemma block_shape (lines : list jsstring) :
  lines <> [] ->
  join [LF] ([js "---"] ++ lines ++ [js "---"])
  = js "---" ++ LF :: join [LF] lines ++ LF :: js "---".
Proof.
  intros Hne. destruct lines as [|l ls]; [contradiction|].
  change ([js "---"] ++ (l :: ls) ++ [js "---"])
    with (js "---" :: l :: ls ++ [js "---"]).
  rewrite join_cons_cons.
  change (l :: ls ++ [js "---"]) with ((l :: ls) ++ [js "---"]).
  rewrite join_snoc by discriminate. reflexivity.
Qed.

Section CodecRoundTrip.
Context `{Host}.

Lemma formatted_blockLine (entry : jsstring * value) :
  Spec.goodEntry entry = true ->
  blockLine (FrontmatterCodec.formatEntry entry).
Proof.
  intros Hgood.
  destruct (formatted_line_start entry Hgood) as (_ & Hd & Hlf).
  destruct entry as [k v]. unfold Spec.goodEntry in Hgood.
  apply andb_prop in Hgood as [Hk _]. simpl in Hk.
  rewrite formatEntry_text in *.
  destruct (line_head k (" " :: Spec.valueText v) Hk) as (Hs & He & _).
  change (k ++ js ": " ++ Spec.valueText v)
    with (k ++ ":" :: " " :: Spec.valueText v) in *.
  repeat split; try assumption. now apply eqs_false.
Qed.

(** C5, amended.  Parsing what [formatFrontmatter] writes for a field
    list, followed by whitespace that ends with a line feed and by a body,
    gives back the mapping of the fields and the body, when: there is at
    least one field and the keys are distinct; each key is trimmed, on one
    line, without colon, and starts with neither [#] nor [-]; each scalar is
    a string on one line that is not shaped like an inline array and that,
    when it has no colon, is trimmed and not wrapped in quotes; each array
    holds strings on one line without comma; and the leading whitespace of
    the body has no line feed. *)
Theorem frontmatter_round_trip (entries : list (jsstring * value))
  (glue body : jsstring) :
  entries <> [] -> NoDup entries.*1 ->
  forallb Spec.goodEntry entries = true ->
  Spec.goodGlue glue = true -> Spec.goodBody body = true ->
  FrontmatterCodec.parseFrontmatter (Spec.serialize entries glue body)
  = (list_to_map entries, body).
Proof.
  intros Hne Hnd Hgood Hg Hb.
  set (lines := map FrontmatterCodec.formatEntry entries).
  assert (Hlines : lines <> []).
  { unfold lines. destruct entries; [contradiction|discriminate]. }
  assert (Hblock : Forall blockLine lines).
  { unfold lines. apply Forall_map, List.Forall_forall. intros e He.
    apply formatted_blockLine.
    rewrite forallb_forall in Hgood. now apply Hgood. }
  unfold Spec.serialize, FrontmatterCodec.formatFrontmatter. fold lines.
  rewrite (block_shape lines Hlines).
  set (T := join [LF] lines ++ LF :: js "---" ++ glue ++ body).
  assert (Hcontent :
            (js "---" ++ LF :: join [LF] lines ++ LF :: js "---")
              ++ glue ++ body
            = js "---" ++ LF :: T).
  { unfold T. rewrite <- !app_assoc. simpl. now rewrite <- !app_assoc. }
  rewrite Hcontent.
  assert (Hsolid : exists c t, T = c :: t /\ isSpace c = false).
  { destruct lines as [|l ls]; [contradiction|].
    inversion Hblock as [|? ? (Hl0 & _ & _ & Hs) _]; subst.
    destruct l as [|c l]; [contradiction|].
    unfold T. rewrite join_head_cons. eauto. }
  destruct Hsolid as (c & t & HT & Hc).
  unfold FrontmatterCodec.parseFrontmatter, FrontmatterCodec.frontmatterRegex.
  rewrite (startsWith_app (js "---")).
  change (drop 3 (js "---" ++ LF :: T)) with (LF :: T).
  rewrite afterSpacesNewline_LF.
  rewrite HT at 1. rewrite (afterSpacesNewline_solid c t Hc).
  simpl app. unfold FrontmatterCodec.firstMatch.
  unfold T at 1. rewrite (closingMarker_lines lines glue body Hlines Hblock Hg Hb).
  rewrite splitOn_join_lines; [|exact Hlines|].
  - unfold lines. rewrite length_map.
    rewrite (parseLines_entries entries Hgood) by lia.
    rewrite (foldl_insert_list_to_map entries ∅ Hnd).
    now rewrite (right_id_L ∅ (∪)).
  - apply formatted_lines_noLF, Hgood.
Qed.

End CodecRoundTrip.

Lemma frontmatter_round_trip_witness :
  forallb Spec.goodEntry Examples.plainFields = true
  /\ FrontmatterCodec.parseFrontmatter
       (Spec.serialize Examples.plainFields [LF] (js "Hello."))
     = (list_to_map Examples.plainFields, js "Hello.").
Proof.
  split; [vm_compute; reflexivity|].
  apply (frontmatter_round_trip Examples.plainFields [LF] (js "Hello.")).
  - discriminate.
  - apply (bool_decide_unpack _). vm_compute. exact I.
  - vm_compute. reflexivity.
  - vm_compute. reflexivity.
  - vm_compute. reflexivity.
Defined.

(** C5, as the claim states it, fails on field mappings of the restricted
    shape: an array item with a comma comes back as two items, a scalar
    shaped like an inline array comes back as an array, a scalar in quotes
    comes back without them, and a body that starts with a blank line
    comes back without that line; with no field at all the block is not
    recognised and the whole text comes back as the body. *)
Lemma round_trip_counterexamples :
  (FrontmatterCodec.parseFrontmatter
     (Spec.serialize [(js "tags", VArr [VStr (js "a,b")])] [LF]
        (js "text"))).1 !! js "tags"
  = Some (VArr [VStr (js "a"); VStr (js "b")])
  /\ (FrontmatterCodec.parseFrontmatter
        (Spec.serialize [(js "note", VStr (js "[x]"))] [LF]
           (js "text"))).1 !! js "note"
     = Some (VArr [VStr (js "x")])
  /\ (FrontmatterCodec.parseFrontmatter
        (Spec.serialize [(js "note", VStr (js "'x'"))] [LF]
           (js "text"))).1 !! js "note"
     = Some (VStr (js "x"))
  /\ (FrontmatterCodec.parseFrontmatter
        (Spec.serialize [(js "note", VStr (js "x"))] [LF]
           (LF :: js "text"))).2
     = js "text"
  /\ FrontmatterCodec.parseFrontmatter (Spec.serialize [] [LF] (js "text"))
     = (∅, js "---" ++ LF :: js "---" ++ LF :: js "text").
Proof. vm_compute. repeat split; reflexivity. Qed.

(** The outer loop of [parseFrontmatter] never runs out of fuel: with one
    unit per line, more fuel changes nothing. *)
Lemma listItems_shorter (lines : list jsstring) :
  length (FrontmatterCodec.listItems lines).2 <= length lines.
Proof.
  induction lines as [|l ls IH]; [reflexivity|].
  change (FrontmatterCodec.listItems (l :: ls))
    with (if negb (startsWith (js "-") (trim l)) then ([], l :: ls)
          else let '(items, rest') := FrontmatterCodec.listItems ls in
               (VStr (FrontmatterCodec.unquote (trim (slice1 (trim l))))
                  :: items, rest')).
  destruct (negb (startsWith (js "-") (trim l))); [reflexivity|].
  destruct (FrontmatterCodec.listItems ls) as [items rest].
  cbn [snd length] in *. lia.
Qed.

Lemma parseLines_enough_fuel (lines : list jsstring) :
  forall fuel fm,
    length lines <= fuel ->
    FrontmatterCodec.parseLines fuel lines fm
    = FrontmatterCodec.parseLines (length lines) lines fm.
Proof.
  remember (length lines) as n eqn:En. revert lines En.
  induction n as [n IH] using lt_wf_ind. intros lines En fuel fm Hfuel.
  destruct lines as [|line rest].
  - subst n. now destruct fuel.
  - destruct fuel as [|fuel]; [simpl in *; lia|].
    destruct n as [|n]; [discriminate|]. injection En as En.
    rewrite !parseLines_unfold.
    assert (Hrest : forall fm',
               FrontmatterCodec.parseLines fuel rest fm'
               = FrontmatterCodec.parseLines n rest fm').
    { intros fm'. subst n.
      apply (IH (length rest)); [lia|reflexivity|simpl in Hfuel; lia]. }
    destruct (eqs (trim line) [] || startsWith (js "#") (trim line));
      [apply Hrest|].
    destruct (splitAtFirst (js ":") (trim line)) as [[before after]|];
      [|apply Hrest].
    destruct (match rest with
              | next :: _ => startsWith (js "-") (trim next)
              | [] => false
              end); [|apply Hrest].
    pose proof (listItems_shorter rest) as Hshort.
    destruct (FrontmatterCodec.listItems rest) as [items rest'].
    simpl in Hshort.
    rewrite (IH (length rest') ltac:(lia) rest' eq_refl fuel)
      by (simpl in Hfuel; lia).
    symmetry. apply (IH (length rest') ltac:(lia) rest' eq_refl n). lia.
Qed.

(** ** The references the relocator writes *)

(** [String.prototype.replace] reads [$$] in the replacement text as one
    dollar sign. *)
Lemma replaceFirst_dollars :
  replaceFirst (js "b") (js "$$") (js "abc") = js "a$c"
  /\ replaceFirst (js "b") (js "[$&]") (js "abc") = js "a[b]c".
Proof. split; reflexivity. Qed.

(** C6.  The token [![[My Photo.PNG]]] is normalized to [my-photo.PNG] and
    rewritten to [![my-photo.PNG](./assets/my-photo.PNG)].  For the token
    [![[Price in $$.png]]] the image is copied to
    [assets/price-in-$$.png], but the reference both versions of
    [processImages] write in the body is
    [![price-in-$.png](./assets/price-in-$.png)]: the replacement text goes
    through [String.prototype.replace], which turns [$$] into [$], so the
    token is not replaced by the reference to the normalized name. *)
Theorem dollar_name_reference :
  ImageUtils.normalizeImageName (js "My Photo.PNG") = js "my-photo.PNG"
  /\ (ImportUtils.processImages (js "![[My Photo.PNG]]") (js "att")
        (js "blog/x") Examples.vault).1
     = Ok (mkImagesResult (js "![my-photo.PNG](./assets/my-photo.PNG)")
             [mkCopyResult true (js "My Photo.PNG")
                (Some (js "my-photo.PNG")) VUndefined])
  /\ ImageUtils.normalizeImageName (js "Price in $$.png")
     = js "price-in-$$.png"
  /\ (ImportUtils.processImages Examples.priceBody (js "att") (js "blog/x")
        Examples.priceVault).1
     = Ok (mkImagesResult (js "![price-in-$.png](./assets/price-in-$.png)")
             [mkCopyResult true (js "Price in $$.png")
                (Some (js "price-in-$$.png")) VUndefined])
  /\ (ImageUtils.processImages Examples.priceBody (js "att") (js "blog/x")
        Examples.priceVault).1
     = Ok (mkImagesResult (js "![price-in-$.png](./assets/price-in-$.png)")
             [mkCopyResult true (js "Price in $$.png")
                (Some (js "price-in-$$.png")) VUndefined])
  /\ MemoryWorld.files
       (ImportUtils.processImages Examples.priceBody (js "att")
          (js "blog/x") Examples.priceVault).2
     !! js "blog/x/assets/price-in-$$.png" = Some (js "PNG")
  /\ js "![price-in-$.png](./assets/price-in-$.png)"
     <> markdownRef (js "price-in-$$.png").
Proof. vm_compute. repeat split; try reflexivity. discriminate. Qed.

(** In import-obsidian-utils.mjs, unlike in obsidian-image-utils.mjs,
    [copyImage] catches every error of the copy and never rejects. *)
Lemma import_copyImage_never_rejects `{Host} {W : Type} `{FileSystem W}
  (src dst o n : jsstring) (w : W) :
  exists r w', ImportUtils.copyImage src dst o n w = (Ok r, w').
Proof.
  unfold ImportUtils.copyImage, tryCatch, bind, ret.
  destruct (pathExists src w); simpl; [|eauto].
  destruct (copy src dst w) as [[u|e] w']; eauto.
Qed.

(** In the example vault the first image of the note is copied and the
    second is missing: both results are returned; with the destination
    locked the copy itself fails and [processImages] rejects. *)
Lemma copy_failures_example :
  map success
    match (ImageUtils.processImages (js "![[My Photo.PNG]] and ![[Lost.png]]")
             (js "att") (js "blog/photos") Examples.vault).1 with
    | Ok r => results r
    | Throw _ => []
    end
  = [true; false]
  /\ (ImageUtils.processImages (js "![[My Photo.PNG]] and ![[Lost.png]]")
        (js "att") (js "blog/photos")
        (MemoryWorld.mkWorld (MemoryWorld.files Examples.vault)
           [js "blog/photos/assets/my-photo.PNG"])).1
     = Throw (MemoryWorld.EACCES (js "blog/photos/assets/my-photo.PNG")).
Proof. vm_compute. split; reflexivity. Qed.

(** ** Further properties of the import *)

Section NoteBoundary.
Context `{Host} {W : Type} `{FileSystem W}.

(** Whatever is thrown while a note is processed is caught at the note
    boundary: [processNote] always fulfils with an entry for the note, and
    when reading the note fails the entry is an [error] with the message of
    the thrown value. *)
Theorem processNote_catches (filePath : jsstring) (cfg : config) (w : W) :
  (exists r w',
     ImportObsidian.processNote filePath cfg w = (Ok r, w')
     /\ noteFilename r = NodePath.basename1 filePath)
  /\ (forall e w',
        ImportObsidian.readNoteFile filePath w = (Throw e, w') ->
        ImportObsidian.processNote filePath cfg w
        = (Ok (mkNoteResult error_ (NodePath.basename1 filePath)
                 (exnMessage e) None), w')).
Proof.
  split.
  - unfold ImportObsidian.processNote, tryCatch.
    match goal with |- context [match ?m w with _ => _ end] =>
      destruct (m w) as [[r|e] w'] eqn:E end.
    + exists r, w'. split; [reflexivity|].
      unfold bind in E.
      destruct (ImportObsidian.readNoteFile filePath w) as [[[fm body]|e] w1];
        [|discriminate].
      destruct (ImportUtils.getSkipReason fm);
        [injection E as <- _; reflexivity|].
      destruct (ImportUtils.validateFrontmatter fm);
        [injection E as <- _; reflexivity|].
      repeat match type of E with
             | context [match ?m ?x with _ => _ end] =>
                 destruct (m x) as [[?|?] ?]; try discriminate
             | context [lift ?r ?x] =>
                 unfold lift in E; destruct r; try discriminate
             end.
      unfold ret in E. injection E as <- _. reflexivity.
    + eexists _, _. split; reflexivity.
  - intros e w' Hread.
    unfold ImportObsidian.processNote, tryCatch, bind. now rewrite Hread.
Qed.

End NoteBoundary.

(** Slugifying "Hello, World! 2024" gives "hello-world-2024", and every
    slug is made of [a-z], [0-9] and hyphens only. *)
Theorem slugify_example (s : jsstring) :
  FileUtils.slugify (js "Hello, World! 2024") = js "hello-world-2024"
  /\ Forall (fun c => (isLower c || isDigit c || eqc c "-") = true)
       (FileUtils.slugify s).
Proof. split; [reflexivity|apply slugify_chars]. Qed.

(** A note with neither description nor date is rejected with a message
    that names both fields. *)
Theorem validateFrontmatter_lists_both `{Host} (fm : frontmatter) :
  truthy (getField fm "description") = false ->
  truthy (getField fm "date") = false ->
  ImportUtils.validateFrontmatter fm
  = Some (js "frontmatter validation failed: description (missing), date (missing)").
Proof.
  intros Hd Ht. unfold ImportUtils.validateFrontmatter.
  rewrite Hd, Ht. reflexivity.
Qed.

Lemma validateFrontmatter_lists_both_witness :
  ImportUtils.validateFrontmatter (<[js "title" := VStr (js "Untitled")]> ∅)
  = Some (js "frontmatter validation failed: description (missing), date (missing)").
Proof.
  apply (validateFrontmatter_lists_both
           (<[js "title" := VStr (js "Untitled")]> ∅));
    vm_compute; reflexivity.
Defined.

(** ** Notes with several image tokens *)

Lemma includes_suffix (p a b : jsstring) :
  includes p (a ++ b) = false -> includes p b = false.
Proof.
  induction a as [|c a IH]; [auto|]. simpl. intros E.
  apply orb_false_iff in E as [_ E]. auto.
Qed.

Lemma includes_start (p s : jsstring) :
  includes p s = false -> startsWith p s = false.
Proof. destruct s; simpl; intros E; apply orb_false_iff in E as [E _]; exact E. Qed.

Lemma startsWith_longer (p q s : jsstring) :
  startsWith p s = false -> startsWith (p ++ q) s = false.
Proof.
  revert s. induction p as [|x p IH]; intros s; [discriminate|].
  destruct s as [|y s]; [reflexivity|]. simpl.
  destruct (eqc x y); [apply IH | reflexivity].
Qed.

Lemma opens_token_three (b y : jsstring) (c0 c1 c2 : ascii) :
  startsWith (js "![[") ((c0 :: c1 :: c2 :: b) ++ y)
  = startsWith (js "![[") (c0 :: c1 :: c2 :: b).
Proof. simpl. now rewrite !andb_true_r. Qed.

Lemma opens_before_bang (b y : jsstring) :
  b <> [] -> startsWith (js "![[") b = false ->
  startsWith (js "![[") (b ++ "!" :: y) = false.
Proof.
  intros Hb E. destruct b as [|c0 [|c1 [|c2 b]]]; [done| | |].
  - simpl. change (eqc "[" "!") with false. now rewrite andb_false_r.
  - simpl. change (eqc "[" "!") with false.
    now rewrite !andb_false_r.
  - now rewrite opens_token_three.
Qed.

Lemma opensNoToken_nil (y : jsstring) : opensNoToken [] y.
Proof. intros a b E Hb. symmetry in E. apply app_eq_nil in E as [_ ->]. done. Qed.

Lemma tokenFree_includes (g : jsstring) :
  tokenFree g = true -> includes (js "![[") g = false.
Proof. unfold tokenFree. now intros E%negb_true_iff. Qed.

Lemma opensNoToken_gap (g y : jsstring) :
  tokenFree g = true -> opensNoToken g ("!" :: y).
Proof.
  intros Hg%tokenFree_includes a b -> Hb. apply opens_before_bang; [exact Hb|].
  apply includes_start. eapply includes_suffix, Hg.
Qed.

Lemma opensNoToken_end (g : jsstring) :
  tokenFree g = true -> opensNoToken g [].
Proof.
  intros Hg%tokenFree_includes a b -> Hb. rewrite app_nil_r.
  apply includes_start. eapply includes_suffix, Hg.
Qed.

Lemma opensNoToken_bang (x y y' : jsstring) :
  opensNoToken x ("!" :: y) -> opensNoToken x ("!" :: y').
Proof.
  intros Hx a b E Hb. specialize (Hx a b E Hb).
  destruct b as [|c0 [|c1 [|c2 b]]]; [done| | |].
  - exact Hx.
  - exact Hx.
  - rewrite opens_token_three in *. exact Hx.
Qed.

Lemma opensNoToken_app (x y z : jsstring) :
  opensNoToken x (y ++ z) -> opensNoToken y z -> opensNoToken (x ++ y) z.
Proof.
  intros Hx Hy a b E Hb.
  apply app_eq_inv in E as [(k & -> & ->)|(k & -> & ->)].
  - destruct k as [|c k].
    + apply (Hy [] y eq_refl Hb).
    + rewrite <- app_assoc. apply (Hx a (c :: k) eq_refl). done.
  - apply (Hy k b eq_refl Hb).
Qed.

Lemma suffix_before_last {A} (P : A -> Prop) (c : A) (x : list A) :
  Forall P x ->
  forall a b, a ++ b = x ++ [c] -> b <> [] ->
  exists b0, b = b0 ++ [c] /\ Forall P b0.
Proof.
  intros Hx a. revert x Hx.
  induction a as [|d a IH]; intros x Hx b E Hb.
  - exists x. split; [exact E | exact Hx].
  - destruct x as [|e x].
    + simpl in E. injection E as _ E. apply app_eq_nil in E as [_ ->]. done.
    + simpl in E. injection E as _ E. inversion Hx; subst.
      eapply IH; eauto.
Qed.

Lemma markdownRef_shape (n : jsstring) :
  markdownRef n = "!" :: "[" :: (n ++ js "](./assets/" ++ n) ++ [")"].
Proof. unfold markdownRef. rewrite <- !app_assoc. reflexivity. Qed.

Lemma opensNoToken_ref (n y : jsstring) :
  Forall (fun c => c <> "[") n -> opensNoToken (markdownRef n) y.
Proof.
  intros Hn a b E Hb.
  assert (Hinner : Forall (fun c => c <> "[") (n ++ js "](./assets/" ++ n)).
  { apply Forall_app. split; [exact Hn|].
    apply Forall_app. split; [|exact Hn].
    repeat constructor; discriminate. }
  rewrite markdownRef_shape in E.
  remember (n ++ js "](./assets/" ++ n) as inner eqn:Hi.
  destruct a as [|a0 [|a1 a]].
  - simpl in E. subst b. simpl.
    destruct inner as [|c inner]; simpl.
    + reflexivity.
    + inversion Hinner as [|? ? Hc _]; subst.
      destruct (eqc "[" c) eqn:Ec; [|reflexivity].
      apply eqc_true in Ec. congruence.
  - simpl in E. injection E as _ <-. reflexivity.
  - simpl in E. injection E as _ _ E. symmetry in E.
    destruct (suffix_before_last _ _ _ Hinner _ _ E Hb) as (b0 & -> & Hb0).
    rewrite <- app_assoc. simpl.
    destruct b0 as [|c0 [|c1 b0]]; simpl.
    + reflexivity.
    + change (eqc "[" ")") with false. now rewrite andb_false_r.
    + inversion Hb0 as [|? ? _ Hb1]; subst.
      inversion Hb1 as [|? ? Hc _]; subst.
      destruct (eqc "[" c1) eqn:Ec; [|now rewrite andb_false_r].
      apply eqc_true in Ec. congruence.
Qed.

Lemma matchAll_gap (f : jsstring -> option (jsstring * jsstring))
  (g y : jsstring) :
  (forall s, startsWith (js "![[") s = false -> f s = None) ->
  opensNoToken g y ->
  matchAll f 0 (g ++ y) = matchAll f 0 y.
Proof.
  intros Hf. induction g as [|c g IH]; intros Hg; [reflexivity|].
  change (matchAll f 0 ((c :: g) ++ y))
    with (match f ((c :: g) ++ y) with
          | Some (whole, group) =>
              (whole, group) :: matchAll f (length whole - 1) (g ++ y)
          | None => matchAll f 0 (g ++ y)
          end).
  rewrite Hf by (apply (Hg [] (c :: g) eq_refl); done).
  apply IH. intros a b -> Hb. apply (Hg (c :: a) b eq_refl Hb).
Qed.

Lemma import_token_opens (s : jsstring) :
  startsWith (js "![[") s = false -> ImportUtils.imageTokenAt s = None.
Proof. intros E. unfold ImportUtils.imageTokenAt. now rewrite E. Qed.

Lemma image_token_opens (s : jsstring) :
  startsWith (js "![[") s = false -> ImageUtils.imageTokenAt s = None.
Proof. intros E. unfold ImageUtils.imageTokenAt. now rewrite E. Qed.

Lemma matchAll_skip (f : jsstring -> option (jsstring * jsstring))
  (x y : jsstring) :
  matchAll f (length x) (x ++ y) = matchAll f 0 y.
Proof.
  induction x as [|c x IH]; [|exact IH].
  destruct y; reflexivity.
Qed.

Lemma imageTokenAt_token (n y : jsstring) :
  n <> [] -> Forall (fun c => notBracket c = true) n ->
  ImportUtils.imageTokenAt (js "![[" ++ n ++ js "]]" ++ y)
  = Some (js "![[" ++ n ++ js "]]", n).
Proof.
  intros Hne Hn. unfold ImportUtils.imageTokenAt.
  rewrite startsWith_app.
  change (drop 3 (js "![[" ++ n ++ js "]]" ++ y)) with (n ++ "]" :: "]" :: y).
  rewrite takeWhile_stop, dropWhile_stop by (auto; reflexivity).
  apply eqs_false in Hne. rewrite Hne. reflexivity.
Qed.

Lemma matchAll_token (n y : jsstring) :
  n <> [] -> Forall (fun c => notBracket c = true) n ->
  matchAll ImportUtils.imageTokenAt 0 (js "![[" ++ n ++ js "]]" ++ y)
  = (js "![[" ++ n ++ js "]]", n)
      :: matchAll ImportUtils.imageTokenAt 0 y.
Proof.
  intros Hne Hn.
  change (matchAll ImportUtils.imageTokenAt 0 (js "![[" ++ n ++ js "]]" ++ y))
    with (match ImportUtils.imageTokenAt (js "![[" ++ n ++ js "]]" ++ y) with
          | Some (whole, group) =>
              (whole, group)
                :: matchAll ImportUtils.imageTokenAt (length whole - 1)
                     (js "[[" ++ n ++ js "]]" ++ y)
          | None => matchAll ImportUtils.imageTokenAt 0
                      (js "[[" ++ n ++ js "]]" ++ y)
          end).
  rewrite imageTokenAt_token by assumption. f_equal.
  replace (length (js "![[" ++ n ++ js "]]") - 1)
    with (length (js "[[" ++ n ++ js "]]")) by (simpl; lia).
  replace (js "[[" ++ n ++ js "]]" ++ y)
    with ((js "[[" ++ n ++ js "]]") ++ y) by now rewrite <- !app_assoc.
  apply matchAll_skip.
Qed.

Lemma splitAtFirst_here (p d rest : jsstring) :
  (forall a b, d = a ++ b -> b <> [] -> startsWith p (b ++ p ++ rest) = false) ->
  splitAtFirst p (d ++ p ++ rest) = Some (d, rest).
Proof.
  induction d as [|c d IH]; intros Hd.
  - change ([] ++ p ++ rest) with (p ++ rest).
    destruct p as [|x p]; [destruct rest; reflexivity|].
    change (splitAtFirst (x :: p) ((x :: p) ++ rest))
      with (if startsWith (x :: p) ((x :: p) ++ rest)
            then Some ([], drop (length (x :: p)) ((x :: p) ++ rest))
            else match splitAtFirst (x :: p) (p ++ rest) with
                 | Some (b, a) => Some (x :: b, a)
                 | None => None
                 end).
    rewrite startsWith_app. now rewrite drop_app_length.
  - change (splitAtFirst p ((c :: d) ++ p ++ rest))
      with (if startsWith p ((c :: d) ++ p ++ rest)
            then Some ([], drop (length p) ((c :: d) ++ p ++ rest))
            else match splitAtFirst p (d ++ p ++ rest) with
                 | Some (b, a) => Some (c :: b, a)
                 | None => None
                 end).
    rewrite (Hd [] (c :: d) eq_refl) by done.
    rewrite IH; [reflexivity|].
    intros a b -> Hb. apply (Hd (c :: a) b eq_refl Hb).
Qed.

Lemma getSubstitution_plain (matched before after template : jsstring) :
  Forall (fun c => c <> "$") template ->
  getSubstitution matched before after template = template.
Proof.
  induction 1 as [|c t Hc _ IH]; [reflexivity|]. simpl.
  destruct (eqc c "$") eqn:E; [apply eqc_true in E; done|].
  now rewrite IH.
Qed.

Lemma replaceFirst_token (d n rest r : jsstring) :
  opensNoToken d (js "![[" ++ n ++ js "]]" ++ rest) ->
  Forall (fun c => c <> "$") r ->
  replaceFirst (js "![[" ++ n ++ js "]]") r
    (d ++ js "![[" ++ n ++ js "]]" ++ rest)
  = d ++ r ++ rest.
Proof.
  intros Hd Hr. unfold replaceFirst.
  replace (d ++ js "![[" ++ n ++ js "]]" ++ rest)
    with (d ++ (js "![[" ++ n ++ js "]]") ++ rest)
    by now rewrite <- !app_assoc.
  rewrite splitAtFirst_here.
  - now rewrite getSubstitution_plain.
  - intros a b E Hb. apply (startsWith_longer (js "![[")).
    rewrite <- !app_assoc. apply (Hd a b E Hb).
Qed.

Lemma takeWhile_keeps (P : ascii -> Prop) (p : ascii -> bool) (s : jsstring) :
  Forall P s -> Forall P (takeWhile p s).
Proof.
  induction 1 as [|c s Hc _ IH]; simpl; [constructor|].
  destruct (p c); [constructor; assumption | constructor].
Qed.

Lemma lastSegment_Forall (P : ascii -> Prop) (p : jsstring) :
  Forall P p -> Forall P (NodePath.lastSegment p).
Proof.
  intros Hp. unfold NodePath.lastSegment.
  apply List.Forall_rev, takeWhile_keeps, dropWhile_Forall.
  now apply List.Forall_rev.
Qed.

Lemma normalizeImageName_Forall (Q : ascii -> Prop) (p : jsstring) :
  Q "-" -> Forall (fun c => Q c /\ Q (lowerChar c)) p ->
  Forall Q (ImportUtils.normalizeImageName p).
Proof.
  intros Hh Hp.
  change (ImportUtils.normalizeImageName p)
    with (Spec.lowerHyphen (NodePath.basename p (NodePath.extname p))
            ++ NodePath.extname p).
  pose proof (lastSegment_Forall _ _ Hp) as Hseg.
  destruct (extname_cases p) as [[-> ->]|(b & e & Hs & _ & _ & _ & -> & ->)].
  - rewrite app_nil_r. apply lowerHyphen_Forall; [exact Hh|].
    eapply Forall_impl; [exact Hseg|]. intros c [_ Hc] _. exact Hc.
  - rewrite Hs in Hseg. apply Forall_app in Hseg as [Hb He].
    apply Forall_app. split.
    + apply lowerHyphen_Forall; [exact Hh|].
      eapply Forall_impl; [exact Hb|]. intros c [_ Hc] _. exact Hc.
    + eapply Forall_impl; [exact He|]. intros c [Hc _]. exact Hc.
Qed.

Lemma lowerChar_plain (c : ascii) :
  c <> "[" /\ c <> "]" /\ c <> "$" ->
  (c <> "[" /\ c <> "$") /\ (lowerChar c <> "[" /\ lowerChar c <> "$").
Proof.
  intros (H1 & H2 & H3). repeat split; try assumption.
  - intros E. apply H1. revert E. clear. each_char c.
  - intros E. apply H3. revert E. clear. each_char c.
Qed.

Lemma plainName_chars (n : jsstring) :
  plainName n = true ->
  n <> [] /\ Forall (fun c => c <> "[" /\ c <> "]" /\ c <> "$") n.
Proof.
  unfold plainName. intros [Hne Hn]%andb_true_iff. split.
  - apply eqs_false. now apply negb_true_iff.
  - apply List.Forall_forall. intros c Hc.
    rewrite forallb_forall in Hn. specialize (Hn c Hc).
    apply negb_true_iff in Hn.
    apply orb_false_iff in Hn as [Hn H3].
    apply orb_false_iff in Hn as [H1 H2].
    repeat split; intros ->; rewrite eqc_refl in *; discriminate.
Qed.

Lemma plainName_normalized (n : jsstring) :
  plainName n = true ->
  Forall (fun c => c <> "[" /\ c <> "$")
    (ImportUtils.normalizeImageName (trim n)).
Proof.
  intros [_ Hn]%plainName_chars. apply normalizeImageName_Forall; [split; discriminate|].
  apply trim_Forall. eapply Forall_impl; [exact Hn|].
  intros c Hc. apply lowerChar_plain, Hc.
Qed.

Lemma plainName_ref (n : jsstring) :
  plainName n = true ->
  Forall (fun c => c <> "$")
    (markdownRef (ImportUtils.normalizeImageName (trim n))).
Proof.
  intros Hn. pose proof (plainName_normalized n Hn) as HN.
  assert (HN' : Forall (fun c => c <> "$")
                  (ImportUtils.normalizeImageName (trim n))).
  { eapply Forall_impl; [exact HN|]. now intros c [_ Hc]. }
  rewrite markdownRef_shape.
  constructor; [discriminate|]. constructor; [discriminate|].
  apply Forall_app. split; [|repeat constructor; discriminate].
  apply Forall_app. split; [exact HN'|].
  apply Forall_app. split; [|exact HN'].
  repeat constructor; discriminate.
Qed.

Lemma plainName_notBracket (n : jsstring) :
  plainName n = true -> n <> [] /\ Forall (fun c => notBracket c = true) n.
Proof.
  intros [Hne Hn]%plainName_chars. split; [exact Hne|].
  eapply Forall_impl; [exact Hn|]. intros c (_ & Hc & _).
  unfold notBracket. destruct (eqc c "]") eqn:E; [|reflexivity].
  apply eqc_true in E. done.
Qed.

Lemma withTokens_cons (g n : jsstring) (segs : list (jsstring * jsstring))
  (last : jsstring) :
  withTokens ((g, n) :: segs) last
  = g ++ js "![[" ++ n ++ js "]]" ++ withTokens segs last.
Proof. reflexivity. Qed.

Lemma withRefs_cons (g n : jsstring) (segs : list (jsstring * jsstring))
  (last : jsstring) :
  withRefs ((g, n) :: segs) last
  = g ++ markdownRef (ImportUtils.normalizeImageName (trim n))
      ++ withRefs segs last.
Proof. reflexivity. Qed.

(** The matches of a text given by its tokens are its tokens, in order. *)
Lemma matchAll_withTokens (segs : list (jsstring * jsstring))
  (last : jsstring) :
  forallb plainSegment segs = true ->
  tokenFree last = true ->
  ImportUtils.OBSIDIAN_IMAGE_REGEX (withTokens segs last)
  = map (fun seg => (js "![[" ++ seg.2 ++ js "]]", seg.2)) segs.
Proof.
  intros Hsegs Hlast. unfold ImportUtils.OBSIDIAN_IMAGE_REGEX.
  induction segs as [|[g n] segs IH].
  - simpl. rewrite <- (app_nil_r last).
    rewrite matchAll_gap;
      [reflexivity | exact import_token_opens | now apply opensNoToken_end].
  - rewrite withTokens_cons.
    simpl in Hsegs. apply andb_true_iff in Hsegs as [Hseg Hsegs].
    apply andb_true_iff in Hseg as [Hg Hn]. cbn [fst snd] in *.
    specialize (IH Hsegs).
    apply plainName_notBracket in Hn as [Hne Hn].
    rewrite matchAll_gap;
      [| exact import_token_opens | now apply opensNoToken_gap].
    rewrite matchAll_token by assumption.
    rewrite map_cons. f_equal. exact IH.
Qed.

Lemma replaceAllRefs_cons (whole group : jsstring) (r : copyResult)
  (rest : list ((jsstring * jsstring) * copyResult)) (c : jsstring) :
  ImportUtils.replaceAllRefs (((whole, group), r) :: rest) c
  = ImportUtils.replaceAllRefs rest
      (replaceFirst whole (ImportUtils.resultRef r) c).
Proof. reflexivity. Qed.

(** Replacing the tokens one after the other, from the left, each by a
    reference without dollar sign or opening bracket. *)
Lemma replaceAllRefs_withTokens (segs : list (jsstring * jsstring))
  (last : jsstring) :
  forallb plainSegment segs = true ->
  forall (d : jsstring) (rs : list copyResult),
    opensNoToken d (withTokens segs last) ->
    map normalizedName rs
    = map (fun seg => Some (ImportUtils.normalizeImageName (trim seg.2)))
        segs ->
    ImportUtils.replaceAllRefs
      (combine (map (fun seg => (js "![[" ++ seg.2 ++ js "]]", seg.2)) segs)
         rs)
      (d ++ withTokens segs last)
    = d ++ withRefs segs last.
Proof.
  induction segs as [|[g n] segs IH]; intros Hsegs d rs Hd Hrs.
  - reflexivity.
  - simpl in Hsegs. apply andb_true_iff in Hsegs as [Hseg Hsegs].
    apply andb_true_iff in Hseg as [Hg Hn]. specialize (IH Hsegs).
    destruct rs as [|r rs]; [discriminate|].
    simpl in Hrs. injection Hrs as Hr Hrs. cbn [fst snd] in *.
    rewrite withTokens_cons in *. rewrite withRefs_cons.
    rewrite map_cons. cbn [combine fst snd].
    rewrite replaceAllRefs_cons.
    unfold ImportUtils.resultRef. rewrite Hr.
    set (ref := markdownRef (ImportUtils.normalizeImageName (trim n))).
    set (rest := withTokens segs last) in *.
    assert (Hdg : opensNoToken (d ++ g) (js "![[" ++ n ++ js "]]" ++ rest)).
    { apply opensNoToken_app; [exact Hd|]. now apply opensNoToken_gap. }
    rewrite (app_assoc d g).
    rewrite replaceFirst_token; [|exact Hdg|now apply plainName_ref].
    rewrite (app_assoc (d ++ g) ref rest).
    rewrite IH; [now rewrite <- !app_assoc| |exact Hrs].
    apply opensNoToken_app.
    + unfold ref. rewrite markdownRef_shape.
      eapply opensNoToken_bang. exact Hdg.
    + apply opensNoToken_ref.
      eapply Forall_impl; [apply (plainName_normalized n Hn)|].
      now intros c [Hc _].
Qed.

Section ImportImages.
Context `{Host} {W : Type} `{FileSystem W}.

(** What one copy of import-obsidian-utils.mjs gives. *)
Lemma import_copyImage_cases (src dst o n : jsstring) (w : W) :
  ImportUtils.copyImage src dst o n w
  = if pathExists src w then
      match copy src dst w with
      | (Ok _, w') => (Ok (mkCopyResult true o (Some n) VUndefined), w')
      | (Throw e, w') =>
          (Ok (mkCopyResult false o (Some n) (exnMessage e)), w')
      end
    else (Ok (mkCopyResult false o (Some n) VUndefined), w).
Proof.
  unfold ImportUtils.copyImage, tryCatch, bind, ret.
  destruct (pathExists src w); simpl; [|reflexivity].
  destruct (copy src dst w) as [[u|e] w']; reflexivity.
Qed.

Lemma import_imageTask_fulfils (sourceDir assetsDir : jsstring)
  (m : jsstring * jsstring) (w : W) :
  exists r w',
    ImportUtils.imageTask sourceDir assetsDir m w = (Ok r, w')
    /\ originalName r = trim m.2
    /\ normalizedName r = Some (ImportUtils.normalizeImageName (trim m.2)).
Proof.
  unfold ImportUtils.imageTask. rewrite import_copyImage_cases.
  destruct (pathExists _ w); [|eauto].
  destruct (copy _ _ w) as [[u|e] w']; eauto.
Qed.

Lemma import_tasks_settle (sourceDir assetsDir : jsstring)
  (matches : list (jsstring * jsstring)) (w : W) :
  exists rs,
    (settleAll (map (ImportUtils.imageTask sourceDir assetsDir) matches) w).1
    = map Ok rs
    /\ map originalName rs = map (fun m => trim m.2) matches
    /\ map normalizedName rs
       = map (fun m => Some (ImportUtils.normalizeImageName (trim m.2)))
           matches.
Proof.
  revert w. induction matches as [|m matches IH]; intros w.
  - exists []. repeat split.
  - destruct (import_imageTask_fulfils sourceDir assetsDir m w)
      as (r & w1 & Et & Ho & Hn).
    destruct (IH w1) as (rs & E & Hos & Hns).
    exists (r :: rs). rewrite map_cons. simpl settleAll. rewrite Et.
    destruct (settleAll _ w1) as [rs0 w2]. cbn [fst] in *.
    rewrite E, !map_cons, Ho, Hn, Hos, Hns. repeat split.
Qed.

(** A text without [![[] goes through both versions of [processImages]
    unchanged: no result, and the world is left as it was (the assets
    directory is not even created). *)
Theorem processImages_without_token (content sourceDir destDir : jsstring)
  (w : W) :
  tokenFree content = true ->
  ImportUtils.processImages content sourceDir destDir w
  = (Ok (mkImagesResult content []), w)
  /\ ImageUtils.processImages content sourceDir destDir w
     = (Ok (mkImagesResult content []), w).
Proof.
  intros Hfree.
  unfold ImportUtils.processImages, ImportUtils.OBSIDIAN_IMAGE_REGEX,
    ImageUtils.processImages, ImageUtils.OBSIDIAN_IMAGE_REGEX.
  rewrite <- (app_nil_r content).
  rewrite !matchAll_gap;
    [ split; reflexivity
    | exact image_token_opens | now apply opensNoToken_end
    | exact import_token_opens | now apply opensNoToken_end ].
Qed.

(** Those of import-obsidian-utils.mjs all fulfil, with the results of the
    copies in which no error propagates. *)
Lemma import_tasks_copies (sourceDir assetsDir : jsstring)
  (matches : list (jsstring * jsstring)) (w : W) :
  settleAll (map (ImportUtils.imageTask sourceDir assetsDir) matches) w
  = (map Ok (Spec.lenientCopies sourceDir assetsDir (map snd matches) w).1,
     (Spec.lenientCopies sourceDir assetsDir (map snd matches) w).2).
Proof.
  revert w. induction matches as [|m ms IH]; intros w; [reflexivity|].
  rewrite !map_cons. cbn [settleAll Spec.lenientCopies].
  unfold ImportUtils.imageTask at 1. rewrite import_copyImage_cases.
  destruct (pathExists _ w).
  - destruct (copy _ _ w) as [[u|e] w1]; rewrite IH;
      destruct (Spec.lenientCopies _ _ _ w1); reflexivity.
  - rewrite IH. destruct (Spec.lenientCopies _ _ _ w); reflexivity.
Qed.

Lemma import_processImages_copies (content sourceDir destDir : jsstring)
  (w w1 : W) :
  let matches := ImportUtils.OBSIDIAN_IMAGE_REGEX content in
  let assetsDir := pathJoin destDir (js "assets") in
  let copies :=
    Spec.lenientCopies sourceDir assetsDir (map snd matches) w1 in
  matches <> [] ->
  ensureDir assetsDir w = (Ok tt, w1) ->
  ImportUtils.processImages content sourceDir destDir w
  = (Ok (mkImagesResult
           (ImportUtils.replaceAllRefs (combine matches copies.1) content)
           copies.1),
     copies.2).
Proof.
  intros matches assetsDir copies Hne Hdir. subst copies.
  unfold ImportUtils.processImages. fold matches. fold assetsDir.
  destruct matches as [|m ms] eqn:Em; [done|]. rewrite <- Em in *.
  unfold bind, promiseAll, ret. rewrite Hdir.
  rewrite import_tasks_copies. now rewrite allFulfilled_all.
Qed.

Lemma lenientCopies_length (sourceDir assetsDir : jsstring)
  (names : list jsstring) (w : W) :
  length (Spec.lenientCopies sourceDir assetsDir names w).1 = length names.
Proof.
  revert w. induction names as [|n ns IH]; intros w; [reflexivity|].
  cbn [Spec.lenientCopies].
  destruct (pathExists _ w).
  - destruct (copy _ _ w) as [[u|e] w1]; specialize (IH w1);
      destruct (Spec.lenientCopies _ _ ns w1); simpl in *; now rewrite IH.
  - specialize (IH w).
    destruct (Spec.lenientCopies _ _ ns w); simpl in *; now rewrite IH.
Qed.

Lemma lenientCopies_names (sourceDir assetsDir : jsstring)
  (names : list jsstring) (w : W) :
  map originalName (Spec.lenientCopies sourceDir assetsDir names w).1
  = map trim names
  /\ map normalizedName (Spec.lenientCopies sourceDir assetsDir names w).1
     = map (fun n => Some (ImportUtils.normalizeImageName (trim n))) names.
Proof.
  revert w. induction names as [|n ns IH]; intros w; [split; reflexivity|].
  cbn [Spec.lenientCopies].
  destruct (pathExists _ w).
  - destruct (copy _ _ w) as [[u|e] w1]; destruct (IH w1) as [Ho Hn];
      destruct (Spec.lenientCopies _ _ ns w1); simpl in *;
      now rewrite Ho, Hn.
  - destruct (IH w) as [Ho Hn].
    destruct (Spec.lenientCopies _ _ ns w); simpl in *; now rewrite Ho, Hn.
Qed.

(** [processImages] of import-obsidian-utils.mjs rejects only when the
    assets directory cannot be made.  Once it is there it fulfils, and its
    results are the copies of the matched names in which no error
    propagates, one per token and in the order of the tokens, each with the
    trimmed name and its normalized name: a copy that throws gives a result
    with [success: false] and the message of the error, a missing source
    gives [success: false] without error, and a copy that works gives
    [success: true]. *)
Theorem import_processImages_results (content sourceDir destDir : jsstring)
  (w : W) :
  let matches := ImportUtils.OBSIDIAN_IMAGE_REGEX content in
  let assetsDir := pathJoin destDir (js "assets") in
  (matches <> [] ->
   forall e w1,
     ensureDir assetsDir w = (Throw e, w1) ->
     ImportUtils.processImages content sourceDir destDir w = (Throw e, w1))
  /\ (matches <> [] ->
      forall w1,
        ensureDir assetsDir w = (Ok tt, w1) ->
        let copies :=
          Spec.lenientCopies sourceDir assetsDir (map snd matches) w1 in
        ImportUtils.processImages content sourceDir destDir w
        = (Ok (mkImagesResult
                 (ImportUtils.replaceAllRefs (combine matches copies.1)
                    content)
                 copies.1),
           copies.2)
        /\ map originalName copies.1 = map (fun m => trim m.2) matches
        /\ map normalizedName copies.1
           = map (fun m =>
                    Some (ImportUtils.normalizeImageName (trim m.2)))
               matches)
  /\ (forall src dst o n (w0 w' : W) e,
        pathExists src w0 = true -> copy src dst w0 = (Throw e, w') ->
        ImportUtils.copyImage src dst o n w0
        = (Ok (mkCopyResult false o (Some n) (exnMessage e)), w'))
  /\ (forall src dst o n (w0 : W),
        pathExists src w0 = false ->
        ImportUtils.copyImage src dst o n w0
        = (Ok (mkCopyResult false o (Some n) VUndefined), w0))
  /\ (forall src dst o n (w0 w' : W),
        pathExists src w0 = true -> copy src dst w0 = (Ok tt, w') ->
        ImportUtils.copyImage src dst o n w0
        = (Ok (mkCopyResult true o (Some n) VUndefined), w')).
Proof.
  intros matches assetsDir. repeat split.
  - intros Hne e w1 Hdir. unfold ImportUtils.processImages.
    fold matches. destruct matches; [done|].
    unfold bind. fold assetsDir. now rewrite Hdir.
  - now apply import_processImages_copies.
  - destruct (lenientCopies_names sourceDir assetsDir (map snd matches) w1)
      as [Ho _].
    rewrite Ho. now rewrite map_map.
  - destruct (lenientCopies_names sourceDir assetsDir (map snd matches) w1)
      as [_ Hn].
    rewrite Hn. now rewrite map_map.
  - intros src dst o n w0 w' e Hex Hcopy.
    rewrite import_copyImage_cases, Hex, Hcopy. reflexivity.
  - intros src dst o n w0 Hex.
    rewrite import_copyImage_cases, Hex. reflexivity.
  - intros src dst o n w0 w' Hex Hcopy.
    rewrite import_copyImage_cases, Hex, Hcopy. reflexivity.
Qed.

(** In a note whose image names have no bracket and no dollar sign,
    [processImages] replaces every token [![[name]]] by the Markdown
    reference to the normalized name, and leaves the text around the tokens
    as it is. *)
Theorem import_processImages_rewrites (segs : list (jsstring * jsstring))
  (last sourceDir destDir : jsstring) (w w1 : W) :
  segs <> [] ->
  forallb plainSegment segs = true ->
  tokenFree last = true ->
  ensureDir (pathJoin destDir (js "assets")) w = (Ok tt, w1) ->
  exists rs w2,
    ImportUtils.processImages (withTokens segs last) sourceDir destDir w
    = (Ok (mkImagesResult (withRefs segs last) rs), w2)
    /\ map originalName rs = map (fun seg => trim seg.2) segs.
Proof.
  intros Hne Hsegs Hlast Hdir. unfold ImportUtils.processImages.
  rewrite (matchAll_withTokens segs last Hsegs Hlast).
  set (matches := map (fun seg => (js "![[" ++ seg.2 ++ js "]]", seg.2)) segs).
  destruct (import_tasks_settle sourceDir (pathJoin destDir (js "assets"))
              matches w1) as (rs & E & Ho & Hn).
  assert (Hm : matches <> []) by (subst matches; now destruct segs).
  destruct matches as [|m ms] eqn:Em; [done|]. rewrite <- Em in *.
  unfold bind, promiseAll, ret. rewrite Hdir.
  destruct (settleAll _ w1) as [rs0 w2]. cbn [fst] in E. subst rs0.
  rewrite allFulfilled_all. exists rs, w2. split.
  - do 3 f_equal.
    apply (replaceAllRefs_withTokens segs last Hsegs [] rs).
    + apply opensNoToken_nil.
    + rewrite Hn. subst matches. now rewrite map_map.
  - rewrite Ho. subst matches. now rewrite map_map.
Qed.

End ImportImages.

Lemma processImages_without_token_witness :
  ImportUtils.processImages (js "Only ![a](b.png) and [[a link]] here.")
    (js "att") (js "blog/x") Examples.vault
  = (Ok (mkImagesResult (js "Only ![a](b.png) and [[a link]] here.") []),
     Examples.vault)
  /\ ImageUtils.processImages (js "Only ![a](b.png) and [[a link]] here.")
       (js "att") (js "blog/x") Examples.vault
     = (Ok (mkImagesResult (js "Only ![a](b.png) and [[a link]] here.") []),
        Examples.vault).
Proof.
  apply (processImages_without_token
           (js "Only ![a](b.png) and [[a link]] here.") (js "att")
           (js "blog/x") Examples.vault).
  reflexivity.
Defined.

Lemma import_processImages_rewrites_witness :
  exists rs w2,
    ImportUtils.processImages
      (withTokens Examples.twoPhotos (js "."))
      (js "att") (js "blog/photos") Examples.vault
    = (Ok (mkImagesResult (withRefs Examples.twoPhotos (js ".")) rs), w2)
    /\ map originalName rs = map (fun seg => trim seg.2) Examples.twoPhotos.
Proof.
  apply (import_processImages_rewrites Examples.twoPhotos (js ".")
           (js "att") (js "blog/photos") Examples.vault Examples.vault);
    [discriminate | reflexivity | reflexivity | reflexivity].
Defined.

(** ** The gate of the older utilities and the gate of the import *)

Section Gates.
Context `{Host}.

Lemma validateFrontmatter_accepts (fm : frontmatter) :
  ImportUtils.validateFrontmatter fm = None
  <-> (exists s, getField fm "description" = VStr s /\ s <> [])
      /\ truthy (getField fm "date") = true
      /\ validDate (getField fm "date") = true.
Proof.
  unfold ImportUtils.validateFrontmatter.
  destruct (getField fm "description") as [| |b|n| |s|items|t|] eqn:Ed;
    cbn [truthy isString negb];
    try (split; [discriminate | intros [(s0 & E & _) _]; discriminate]).
  - destruct b; cbn [negb];
      (split; [discriminate | intros [(s0 & E & _) _]; discriminate]).
  - destruct (n =? 0)%Z; cbn [negb];
      (split; [discriminate | intros [(s0 & E & _) _]; discriminate]).
  - destruct (eqs s []) eqn:Es; cbn [negb].
    + apply eqs_true in Es. subst s.
      split; [discriminate | intros [(s0 & E & Hne) _]; congruence].
    + apply eqs_false in Es.
      destruct (truthy (getField fm "date")); cbn [negb];
        [|split; [discriminate | intros (_ & E & _); discriminate]].
      destruct (validDate (getField fm "date")); cbn [negb].
      * split; [eauto|reflexivity].
      * split; [discriminate | intros (_ & _ & E); discriminate].
Qed.

(** The older gate [shouldSkipFile] lets a note through exactly when the
    import neither skips it ([getSkipReason]) nor rejects it
    ([validateFrontmatter]), that is when neither flag is set, the
    description is a non-empty string and the date is present and valid;
    and whenever it holds a note back it gives a reason. *)
Theorem shouldSkipFile_agrees (fm : frontmatter) :
  (shouldSkip (FrontmatterUtils.shouldSkipFile fm) = false
   <-> ImportUtils.getSkipReason fm = None
       /\ ImportUtils.validateFrontmatter fm = None)
  /\ (shouldSkip (FrontmatterUtils.shouldSkipFile fm) = false
      <-> isTrueOrTrueString (getField fm "can_skip") = false
          /\ isTrueOrTrueString (getField fm "is_draft") = false
          /\ (exists s, getField fm "description" = VStr s /\ s <> [])
          /\ truthy (getField fm "date") = true
          /\ validDate (getField fm "date") = true)
  /\ (shouldSkip (FrontmatterUtils.shouldSkipFile fm) = true
      -> reason (FrontmatterUtils.shouldSkipFile fm) <> None).
Proof.
  assert (Hgate :
            shouldSkip (FrontmatterUtils.shouldSkipFile fm) = false
            <-> ImportUtils.getSkipReason fm = None
                /\ ImportUtils.validateFrontmatter fm = None).
  { unfold FrontmatterUtils.shouldSkipFile, ImportUtils.getSkipReason,
      ImportUtils.validateFrontmatter.
    destruct (isTrueOrTrueString (getField fm "can_skip"));
      [split; [discriminate | intros [E _]; discriminate]|].
    destruct (isTrueOrTrueString (getField fm "is_draft"));
      [split; [discriminate | intros [E _]; discriminate]|].
    destruct (truthy (getField fm "description")),
      (isString (getField fm "description")),
      (truthy (getField fm "date")), (validDate (getField fm "date"));
      cbn; split; try discriminate; try (intros [_ E]; discriminate);
      auto. }
  split; [exact Hgate|]. split.
  - rewrite Hgate, validateFrontmatter_accepts.
    unfold ImportUtils.getSkipReason.
    destruct (isTrueOrTrueString (getField fm "can_skip"));
      [split; [intros [E _]; discriminate | intros [E _]; discriminate]|].
    destruct (isTrueOrTrueString (getField fm "is_draft"));
      [split; [intros [E _]; discriminate | intros (_ & E & _); discriminate]|].
    tauto.
  - unfold FrontmatterUtils.shouldSkipFile.
    destruct (isTrueOrTrueString (getField fm "can_skip")); [discriminate|].
    destruct (isTrueOrTrueString (getField fm "is_draft")); [discriminate|].
    match goal with
    | |- context [match ?l with [] => _ | _ :: _ => _ end] => destruct l
    end; discriminate.
Qed.

End Gates.

(** ** Normalizing a frontmatter twice *)

Lemma insert_getField (fm : frontmatter) (k : string) (v : value) :
  fm !! js k = Some v -> setField fm k v = fm.
Proof. intros E. unfold setField. now apply insert_id. Qed.

Lemma lookup_setField_eq (fm : frontmatter) (k : string) (v : value) :
  setField fm k v !! js k = Some v.
Proof. unfold setField. apply lookup_insert_eq. Qed.

Lemma lookup_setField_ne (fm : frontmatter) (k : string) (k' : jsstring)
  (v : value) :
  js k <> k' -> setField fm k v !! k' = fm !! k'.
Proof. intros E. unfold setField. now apply lookup_insert_ne. Qed.

Lemma normalizeArray_of_array (items : list value) :
  FrontmatterCodec.normalizeArray (VArr items) = VArr items.
Proof. reflexivity. Qed.

Lemma codec_normalizeArray_asArray (v : value) :
  FrontmatterCodec.normalizeArray v = VArr (Spec.asArray v).
Proof. apply normalizeArray_asArray. Qed.

Lemma getField_lookup (fm : frontmatter) (k : string) (v : value) :
  fm !! js k = Some v -> getField fm k = v.
Proof. unfold getField. now intros ->. Qed.

(** The three fields [processFrontmatter] of part_004 writes, and the rest
    of the mapping. *)
Lemma codec_processFrontmatter_lookups (fm : frontmatter)
  (filename : jsstring) (getBasename : jsstring -> jsstring) :
  let out := FrontmatterCodec.processFrontmatter fm filename getBasename in
  (if ImportUtils.keepsTitle (getField fm "title")
   then out !! js "title" = fm !! js "title"
   else out !! js "title" = Some (VStr (getBasename filename)))
  /\ out !! js "tags" = Some (VArr (Spec.asArray (getField fm "tags")))
  /\ out !! js "authors" = Some (VArr (Spec.asArray (getField fm "authors")))
  /\ (forall k, k <> js "title" -> k <> js "tags" -> k <> js "authors" ->
      out !! k = fm !! k).
Proof.
  intros out. subst out. unfold FrontmatterCodec.processFrontmatter.
  rewrite !codec_normalizeArray_asArray.
  set (fm1 := if ImportUtils.keepsTitle (getField fm "title") then fm
              else setField fm "title" (VStr (getBasename filename))).
  assert (Htags : getField fm1 "tags" = getField fm "tags").
  { unfold fm1. destruct (ImportUtils.keepsTitle _); [reflexivity|].
    apply getField_setField_ne. distinct_keys. }
  assert (Hauthors : getField (setField fm1 "tags"
                                 (VArr (Spec.asArray (getField fm1 "tags"))))
                       "authors" = getField fm "authors").
  { rewrite getField_setField_ne by distinct_keys.
    unfold fm1. destruct (ImportUtils.keepsTitle _); [reflexivity|].
    apply getField_setField_ne. distinct_keys. }
  rewrite Hauthors, Htags. repeat split.
  - rewrite !lookup_setField_ne by distinct_keys. unfold fm1.
    destruct (ImportUtils.keepsTitle _); [reflexivity|].
    apply lookup_setField_eq.
  - rewrite lookup_setField_ne by distinct_keys. apply lookup_setField_eq.
  - apply lookup_setField_eq.
  - intros k Ht Hg Ha.
    rewrite !lookup_setField_ne by (intros E; congruence).
    unfold fm1. destruct (ImportUtils.keepsTitle _); [reflexivity|].
    apply lookup_setField_ne. intros E; congruence.
Qed.

Lemma keepsTitle_fixed (fm out : frontmatter) (b : jsstring) :
  (if ImportUtils.keepsTitle (getField fm "title")
   then out !! js "title" = fm !! js "title"
   else out !! js "title" = Some (VStr b)) ->
  (if ImportUtils.keepsTitle (getField out "title") then out
   else setField out "title" (VStr b)) = out.
Proof.
  intros Ht. destruct (ImportUtils.keepsTitle (getField fm "title")) eqn:Ek.
  - assert (E : getField out "title" = getField fm "title")
      by (unfold getField; now rewrite Ht).
    now rewrite E, Ek.
  - destruct (ImportUtils.keepsTitle (getField out "title")); [reflexivity|].
    now apply insert_getField.
Qed.

Lemma codec_processFrontmatter_fixed (fm x : frontmatter)
  (filename : jsstring) (getBasename : jsstring -> jsstring)
  (tags authors : list value) :
  (if ImportUtils.keepsTitle (getField fm "title")
   then x !! js "title" = fm !! js "title"
   else x !! js "title" = Some (VStr (getBasename filename))) ->
  x !! js "tags" = Some (VArr tags) ->
  x !! js "authors" = Some (VArr authors) ->
  FrontmatterCodec.processFrontmatter x filename getBasename = x.
Proof.
  intros Ht Hg Ha. unfold FrontmatterCodec.processFrontmatter.
  rewrite (keepsTitle_fixed fm x _ Ht).
  rewrite (getField_lookup _ _ _ Hg), normalizeArray_of_array.
  rewrite (insert_getField _ _ _ Hg).
  rewrite (getField_lookup _ _ _ Ha), normalizeArray_of_array.
  now rewrite (insert_getField _ _ _ Ha).
Qed.

Lemma codec_processFrontmatter_idem (fm : frontmatter) (filename : jsstring)
  (getBasename : jsstring -> jsstring) :
  FrontmatterCodec.processFrontmatter
    (FrontmatterCodec.processFrontmatter fm filename getBasename)
    filename getBasename
  = FrontmatterCodec.processFrontmatter fm filename getBasename.
Proof.
  destruct (codec_processFrontmatter_lookups fm filename getBasename)
    as (Ht & Hg & Ha & _).
  now apply (codec_processFrontmatter_fixed fm _ _ _ _ _ Ht Hg Ha).
Qed.

(** [processFrontmatter] of part_005 is the one of part_004 followed by
    the removal of the leading [#] of the tags. *)
Lemma utils_processFrontmatter_codec (fm : frontmatter) (filename : jsstring)
  (getBasename : jsstring -> jsstring) :
  FrontmatterUtils.processFrontmatter fm filename getBasename
  = setField (FrontmatterCodec.processFrontmatter fm filename getBasename)
      "tags"
      (VArr (map ImportUtils.stripHash (Spec.asArray (getField fm "tags")))).
Proof.
  destruct (codec_processFrontmatter_lookups fm filename getBasename)
    as (_ & Hg & _).
  unfold FrontmatterUtils.processFrontmatter.
  change (setField
            (setField
               (if ImportUtils.keepsTitle (getField fm "title") then fm
                else setField fm "title" (VStr (getBasename filename)))
               "tags" ?t) "authors" ?a)
    with (FrontmatterCodec.processFrontmatter fm filename getBasename).
  now rewrite (getField_lookup _ _ _ Hg).
Qed.

Lemma setField_twice (fm : frontmatter) (k : string) (v v' : value) :
  setField (setField fm k v) k v' = setField fm k v'.
Proof. unfold setField. apply insert_insert_eq. Qed.

Lemma utils_processFrontmatter_again (fm : frontmatter) (filename : jsstring)
  (getBasename : jsstring -> jsstring) :
  FrontmatterUtils.processFrontmatter
    (FrontmatterUtils.processFrontmatter fm filename getBasename)
    filename getBasename
  = setField (FrontmatterCodec.processFrontmatter fm filename getBasename)
      "tags"
      (VArr (map ImportUtils.stripHash
               (map ImportUtils.stripHash
                  (Spec.asArray (getField fm "tags"))))).
Proof.
  rewrite (utils_processFrontmatter_codec fm).
  destruct (codec_processFrontmatter_lookups fm filename getBasename)
    as (Ht & Hg & Ha & _).
  remember (FrontmatterCodec.processFrontmatter fm filename getBasename)
    as out eqn:Hout.
  remember (map ImportUtils.stripHash (Spec.asArray (getField fm "tags")))
    as once eqn:Honce.
  remember (setField out "tags" (VArr once)) as x eqn:Hx.
  assert (Ht' : if ImportUtils.keepsTitle (getField fm "title")
                then x !! js "title" = fm !! js "title"
                else x !! js "title" = Some (VStr (getBasename filename))).
  { subst x. rewrite lookup_setField_ne by distinct_keys. exact Ht. }
  assert (Hg' : x !! js "tags" = Some (VArr once))
    by (subst x; apply lookup_setField_eq).
  assert (Ha' : x !! js "authors"
                = Some (VArr (Spec.asArray (getField fm "authors")))).
  { subst x. rewrite lookup_setField_ne by distinct_keys. exact Ha. }
  rewrite (utils_processFrontmatter_codec x).
  rewrite (codec_processFrontmatter_fixed fm x _ _ _ _ Ht' Hg' Ha').
  rewrite (getField_lookup _ _ _ Hg'). cbn [Spec.asArray].
  subst x. apply setField_twice.
Qed.

Lemma stripHash_string (s : jsstring) :
  ImportUtils.stripHash (VStr s)
  = if startsWith (js "#") s then VStr (slice1 s) else VStr s.
Proof. reflexivity. Qed.

Lemma stripHash_twice (tags : list value) :
  (forall s, In (VStr s) tags -> startsWith (js "##") s = false) ->
  map ImportUtils.stripHash (map ImportUtils.stripHash tags)
  = map ImportUtils.stripHash tags.
Proof.
  intros Hno. rewrite map_map. apply map_ext_in. intros v Hv.
  destruct v as [| |b|n| |s|items|t|]; try reflexivity.
  specialize (Hno s Hv). rewrite (stripHash_string s).
  destruct (startsWith (js "#") s) eqn:E1;
    [|now rewrite stripHash_string, E1].
  destruct s as [|c s]; [discriminate|].
  unfold slice1. cbn [tail]. rewrite stripHash_string.
  destruct (startsWith (js "#") s) eqn:E2; [|reflexivity].
  exfalso. revert E1 E2 Hno. clear.
  change (startsWith (js "#") (c :: s)) with (eqc "#" c && true).
  change (startsWith (js "##") (c :: s))
    with (eqc "#" c && startsWith (js "#") s).
  intros E1 E2. rewrite andb_true_r in E1. now rewrite E1, E2.
Qed.

(** Normalizing a frontmatter a second time changes nothing in part_004;
    in part_005, where the leading [#] of each tag is removed, it changes
    nothing exactly when removing the [#] twice from the tags gives the
    same as removing it once, which is so when no string tag starts with
    [##]. *)
Theorem processFrontmatter_twice (fm : frontmatter) (filename : jsstring)
  (getBasename : jsstring -> jsstring) :
  let tags := Spec.asArray (getField fm "tags") in
  FrontmatterCodec.processFrontmatter
    (FrontmatterCodec.processFrontmatter fm filename getBasename)
    filename getBasename
  = FrontmatterCodec.processFrontmatter fm filename getBasename
  /\ (FrontmatterUtils.processFrontmatter
        (FrontmatterUtils.processFrontmatter fm filename getBasename)
        filename getBasename
      = FrontmatterUtils.processFrontmatter fm filename getBasename
      <-> map ImportUtils.stripHash (map ImportUtils.stripHash tags)
          = map ImportUtils.stripHash tags)
  /\ ((forall s, In (VStr s) tags -> startsWith (js "##") s = false) ->
      FrontmatterUtils.processFrontmatter
        (FrontmatterUtils.processFrontmatter fm filename getBasename)
        filename getBasename
      = FrontmatterUtils.processFrontmatter fm filename getBasename).
Proof.
  intros tags.
  assert (Hiff :
            FrontmatterUtils.processFrontmatter
              (FrontmatterUtils.processFrontmatter fm filename getBasename)
              filename getBasename
            = FrontmatterUtils.processFrontmatter fm filename getBasename
            <-> map ImportUtils.stripHash (map ImportUtils.stripHash tags)
                = map ImportUtils.stripHash tags).
  { rewrite utils_processFrontmatter_again, utils_processFrontmatter_codec.
    fold tags. split.
    - intros E.
      assert (E' : getField
                     (setField
                        (FrontmatterCodec.processFrontmatter fm filename
                           getBasename) "tags"
                        (VArr (map ImportUtils.stripHash
                                 (map ImportUtils.stripHash tags)))) "tags"
                   = VArr (map ImportUtils.stripHash tags)).
      { rewrite E. apply getField_setField_eq. }
      rewrite getField_setField_eq in E'. now injection E'.
    - now intros ->. }
  split; [apply codec_processFrontmatter_idem|]. split; [exact Hiff|].
  intros Hno. apply Hiff. now apply stripHash_twice.
Qed.


(** ** The frontmatter block the codec recognizes *)

Lemma afterSpacesNewline_sound (s c : jsstring) :
  In c (FrontmatterCodec.afterSpacesNewline s) ->
  exists ws, s = ws ++ LF :: c /\ forallb isSpace ws = true.
Proof.
  revert c. induction s as [|x t IH]; intros c Hin; [destruct Hin|].
  simpl in Hin. destruct (isSpace x) eqn:Hx; [|destruct Hin].
  apply in_app_or in Hin as [Hin|Hin].
  - destruct (IH c Hin) as (ws & -> & Hws). exists (x :: ws).
    split; [reflexivity|]. simpl. now rewrite Hx.
  - destruct (eqc x LF) eqn:E; [|destruct Hin].
    apply eqc_true in E. subst x. destruct Hin as [<-|[]].
    exists []. split; reflexivity.
Qed.

Lemma afterSpacesNewline_complete (ws c : jsstring) :
  forallb isSpace ws = true ->
  In c (FrontmatterCodec.afterSpacesNewline (ws ++ LF :: c)).
Proof.
  induction ws as [|x ws IH]; intros Hws.
  - rewrite app_nil_l, afterSpacesNewline_LF. apply in_or_app. right.
    now left.
  - simpl in Hws. apply andb_prop in Hws as [Hx Hws].
    rewrite <- app_comm_cons, (afterSpacesNewline_space x _ Hx).
    apply in_or_app. left. now apply IH.
Qed.

Lemma closingMarker_sound (t g body : jsstring) :
  FrontmatterCodec.closingMarker t = Some (g, body) ->
  exists ws,
    t = g ++ LF :: js "---" ++ ws ++ LF :: body
    /\ forallb isSpace ws = true.
Proof.
  revert g. induction t as [|c t IH]; intros g; rewrite closingMarker_unfold.
  - discriminate.
  - assert (Hrec :
              match FrontmatterCodec.closingMarker t with
              | Some (g0, body0) => Some (c :: g0, body0)
              | None => None
              end = Some (g, body) ->
              exists ws,
                c :: t = g ++ LF :: js "---" ++ ws ++ LF :: body
                /\ forallb isSpace ws = true).
    { destruct (FrontmatterCodec.closingMarker t) as [[g' b']|];
        [|discriminate].
      intros [= <- <-]. destruct (IH g' eq_refl) as (ws & -> & Hws).
      exists ws. split; [reflexivity | exact Hws]. }
    destruct (startsWith (LF :: js "---") (c :: t)) eqn:Es; [|exact Hrec].
    destruct (FrontmatterCodec.afterSpacesNewline (drop 4 (c :: t)))
      as [|b rest] eqn:Ea; [exact Hrec|].
    intros [= <- <-]. apply startsWith_true in Es as [r Er].
    rewrite Er in Ea. change (drop 4 ((LF :: js "---") ++ r)) with r in Ea.
    destruct (afterSpacesNewline_sound r b) as (ws & -> & Hws).
    { rewrite Ea. now left. }
    exists ws. rewrite Er. split; [reflexivity | exact Hws].
Qed.

Lemma closingMarker_complete (g ws body : jsstring) :
  forallb isSpace ws = true ->
  FrontmatterCodec.closingMarker (g ++ LF :: js "---" ++ ws ++ LF :: body)
  <> None.
Proof.
  intros Hws. induction g as [|c g IH]; rewrite closingMarker_unfold.
  - rewrite app_nil_l.
    replace (startsWith (LF :: js "---") (LF :: js "---" ++ ws ++ LF :: body))
      with true by (symmetry; apply (startsWith_app (LF :: js "---"))).
    change (drop 4 (LF :: js "---" ++ ws ++ LF :: body))
      with (ws ++ LF :: body).
    pose proof (afterSpacesNewline_complete ws body Hws) as Hin.
    destruct (FrontmatterCodec.afterSpacesNewline (ws ++ LF :: body));
      [destruct Hin | discriminate].
  - rewrite <- app_comm_cons.
    destruct (if startsWith (LF :: js "---")
                   (c :: g ++ LF :: js "---" ++ ws ++ LF :: body)
              then _ else _); [|discriminate].
    destruct (FrontmatterCodec.closingMarker
                (g ++ LF :: js "---" ++ ws ++ LF :: body)) as [[g' b']|];
      [discriminate | contradiction].
Qed.

Lemma firstMatch_sound (cs : list jsstring) (g body : jsstring) :
  FrontmatterCodec.firstMatch cs = Some (g, body) ->
  exists c, In c cs /\ FrontmatterCodec.closingMarker c = Some (g, body).
Proof.
  induction cs as [|c cs IH]; [discriminate|]. simpl.
  destruct (FrontmatterCodec.closingMarker c) as [m|] eqn:Ec.
  - intros [= ->]. exists c. split; [now left | exact Ec].
  - intros E. destruct (IH E) as (c' & Hin & Hc'). exists c'.
    split; [now right | exact Hc'].
Qed.

Lemma firstMatch_complete (cs : list jsstring) (c : jsstring) :
  In c cs -> FrontmatterCodec.closingMarker c <> None ->
  FrontmatterCodec.firstMatch cs <> None.
Proof.
  induction cs as [|c0 cs IH]; [intros []|]. intros [->|Hin] Hc; simpl.
  - destruct (FrontmatterCodec.closingMarker c); [discriminate|contradiction].
  - destruct (FrontmatterCodec.closingMarker c0); [discriminate|].
    now apply IH.
Qed.

Lemma frontmatterRegex_sound (content text body : jsstring) :
  FrontmatterCodec.frontmatterRegex content = Some (text, body) ->
  hasBlock content text body.
Proof.
  unfold FrontmatterCodec.frontmatterRegex.
  destruct (startsWith (js "---") content) eqn:Es; [|discriminate].
  apply startsWith_true in Es as [r ->].
  change (drop 3 (js "---" ++ r)) with r.
  intros (c & Hin & Hc)%firstMatch_sound.
  destruct (afterSpacesNewline_sound r c Hin) as (ws1 & -> & Hws1).
  destruct (closingMarker_sound c text body Hc) as (ws2 & -> & Hws2).
  exists ws1, ws2. split; [exact Hws1|]. split; [exact Hws2|]. reflexivity.
Qed.

Lemma frontmatterRegex_complete (content text body : jsstring) :
  hasBlock content text body ->
  FrontmatterCodec.frontmatterRegex content <> None.
Proof.
  intros (ws1 & ws2 & Hws1 & Hws2 & ->).
  unfold FrontmatterCodec.frontmatterRegex.
  rewrite (startsWith_app (js "---")).
  change (drop 3 (js "---" ++ ?r)) with r.
  eapply firstMatch_complete.
  - apply (afterSpacesNewline_complete ws1 _ Hws1).
  - now apply closingMarker_complete.
Qed.

(** [parseFrontmatter] finds a frontmatter exactly in a text that has a
    block: then the body it returns is what follows a block of the text
    and the fields are read from the lines of that block; in every other
    text it finds no field and returns the whole text as the body. *)
Theorem parseFrontmatter_block (content : jsstring) :
  ((forall text body, ~ hasBlock content text body) ->
   FrontmatterCodec.parseFrontmatter content = (∅, content))
  /\ ((exists text body, hasBlock content text body) ->
      exists text body,
        hasBlock content text body
        /\ FrontmatterCodec.parseFrontmatter content
           = (FrontmatterCodec.parseLines (length (splitOn LF text))
                (splitOn LF text) ∅, body)).
Proof.
  unfold FrontmatterCodec.parseFrontmatter. split.
  - intros Hno.
    destruct (FrontmatterCodec.frontmatterRegex content) as [[text body]|]
      eqn:E; [|reflexivity].
    destruct (Hno text body). now apply frontmatterRegex_sound.
  - intros (text & body & Hb).
    pose proof (frontmatterRegex_complete content text body Hb) as Hsome.
    destruct (FrontmatterCodec.frontmatterRegex content) as [[text' body']|]
      eqn:E; [|contradiction].
    exists text', body'. split; [|reflexivity].
    now apply frontmatterRegex_sound.
Qed.

Lemma includes_unfold (p s : jsstring) :
  includes p s
  = startsWith p s || match s with
                      | [] => false
                      | _ :: t => includes p t
                      end.
Proof. destruct s; reflexivity. Qed.

Lemma includes_intro (p a b : jsstring) : includes p (a ++ p ++ b) = true.
Proof.
  induction a as [|c a IH].
  - rewrite app_nil_l, includes_unfold. now rewrite startsWith_app.
  - rewrite <- app_comm_cons, includes_unfold, IH. apply orb_true_r.
Qed.

Lemma hasBlock_marker (content text body : jsstring) :
  hasBlock content text body ->
  startsWith (js "---") content = true
  /\ includes (LF :: js "---") content = true.
Proof.
  intros (ws1 & ws2 & _ & _ & ->). split; [apply startsWith_app|].
  replace (js "---" ++ ws1 ++ LF :: text ++ LF :: js "---" ++ ws2 ++ LF :: body)
    with ((js "---" ++ ws1 ++ LF :: text) ++ (LF :: js "---")
            ++ ws2 ++ LF :: body)
    by (rewrite <- !app_assoc; reflexivity).
  apply includes_intro.
Qed.

(** In a text that ends with its closing marker, nothing follows the
    marker. *)
Lemma marker_at_end (text x y : jsstring) :
  includes (LF :: js "---") text = false ->
  text ++ LF :: js "---" = x ++ (LF :: js "---") ++ y ->
  y = [].
Proof.
  intros Hno E. apply app_eq_inv in E as [(k & -> & E)|(k & -> & E)].
  - apply includes_suffix, includes_start in Hno.
    destruct k as [|k0 [|k1 [|k2 [|k3 k]]]].
    + simpl in E. injection E as E. now destruct y.
    + exfalso. injection E as E0 E1 _. subst k0. discriminate E1.
    + exfalso. injection E as E0 E1 E2 _. subst. discriminate E2.
    + exfalso. injection E as E0 E1 E2 E3 _. subst. discriminate E3.
    + exfalso. injection E as E0 E1 E2 E3 _. subst.
      vm_compute in Hno. discriminate Hno.
  - assert (Hlen : length (LF :: js "---")
                   = length (k ++ (LF :: js "---") ++ y)) by now rewrite <- E.
    rewrite !length_app in Hlen. simpl in Hlen.
    destruct y; [reflexivity | simpl in Hlen; lia].
Qed.

(** A text without a complete frontmatter block is returned as it is,
    without fields: when it does not start with the marker [---], when no
    later line starts with the marker, and when the closing marker is the
    very end of the text (no line feed after it). *)
Theorem parseFrontmatter_unclosed :
  (forall content,
     startsWith (js "---") content = false ->
     FrontmatterCodec.parseFrontmatter content = (∅, content))
  /\ (forall content,
        includes (LF :: js "---") content = false ->
        FrontmatterCodec.parseFrontmatter content = (∅, content))
  /\ (forall text,
        includes (LF :: js "---") text = false ->
        FrontmatterCodec.parseFrontmatter
          (js "---" ++ LF :: text ++ LF :: js "---")
        = (∅, js "---" ++ LF :: text ++ LF :: js "---")).
Proof.
  assert (Hnone : forall content,
            (forall text body, ~ hasBlock content text body) ->
            FrontmatterCodec.parseFrontmatter content = (∅, content)).
  { intros content Hno. unfold FrontmatterCodec.parseFrontmatter.
    destruct (FrontmatterCodec.frontmatterRegex content) as [[text body]|]
      eqn:E; [|reflexivity].
    destruct (Hno text body). now apply frontmatterRegex_sound. }
  repeat split.
  - intros content Hs. apply Hnone. intros text body Hb.
    apply hasBlock_marker in Hb as [Hb _]. congruence.
  - intros content Hi. apply Hnone. intros text body Hb.
    apply hasBlock_marker in Hb as [_ Hb]. congruence.
  - intros text Hno. apply Hnone.
    intros g body (ws1 & ws2 & Hws1 & _ & E).
    apply (app_inv_head (js "---")) in E.
    assert (Hy : ws2 ++ LF :: body = []); [|now destruct ws2].
    destruct ws1 as [|x ws1].
    + rewrite app_nil_l in E. injection E as E.
      apply (marker_at_end text g _ Hno). exact E.
    + injection E as _ E.
      apply (marker_at_end text (ws1 ++ LF :: g) _ Hno).
      rewrite <- app_assoc. exact E.
Qed.
(** ** YAML lists in a frontmatter block *)

Lemma trim_cons_space (c : ascii) (s : jsstring) :
  isSpace c = true -> trim (c :: s) = trim s.
Proof. intros Hc. unfold trim, trimStart. simpl. now rewrite Hc. Qed.

Lemma itemLine_trim (s : jsstring) :
  trim s = s -> trim (js "  - " ++ s) = "-" :: trimEnd (" " :: s).
Proof.
  intros Hs.
  change (js "  - " ++ s) with (" " :: " " :: "-" :: " " :: s).
  rewrite !trim_cons_space by reflexivity.
  unfold trim. change (trimStart ("-" :: " " :: s)) with ("-" :: " " :: s).
  apply (trimEnd_after_solid [] (" " :: s) "-"). reflexivity.
Qed.

Lemma itemLine_item (v : value) :
  plainItem v = true ->
  startsWith (js "-") (trim (js "  - " ++ itemText v)) = true
  /\ VStr (FrontmatterCodec.unquote
             (trim (slice1 (trim (js "  - " ++ itemText v))))) = v
  /\ innerLine (js "  - " ++ itemText v).
Proof.
  destruct v as [| |b|n| |s|items|t|]; try discriminate.
  cbn [plainItem itemText]. intros Hv.
  apply andb_prop in Hv as [Hv Hq]. apply andb_prop in Hv as [Hlf Ht].
  apply eqs_true in Ht. apply negb_true_iff in Hq.
  rewrite (itemLine_trim s Ht). split; [reflexivity|]. split.
  - unfold slice1. cbn [tail]. rewrite (trim_after_colon s Ht).
    unfold FrontmatterCodec.unquote.
    change ((startsWith [dquote] s && endsWith [dquote] s)
            || (startsWith [squote] s && endsWith [squote] s))
      with (Spec.quoted s).
    now rewrite Hq.
  - split; [discriminate|]. split; [|reflexivity].
    change (js "  - " ++ s) with (" " :: " " :: "-" :: " " :: s).
    exact Hlf.
Qed.

Lemma listItems_unfold (l : jsstring) (ls : list jsstring) :
  FrontmatterCodec.listItems (l :: ls)
  = if negb (startsWith (js "-") (trim l)) then ([], l :: ls)
    else let '(items, rest') := FrontmatterCodec.listItems ls in
         (VStr (FrontmatterCodec.unquote (trim (slice1 (trim l)))) :: items,
          rest').
Proof. reflexivity. Qed.

Lemma listItems_items (items : list value) (rest : list jsstring) :
  forallb plainItem items = true ->
  match rest with
  | next :: _ => startsWith (js "-") (trim next) = false
  | [] => True
  end ->
  FrontmatterCodec.listItems
    (map (fun v => js "  - " ++ itemText v) items ++ rest)
  = (items, rest).
Proof.
  intros Hitems Hrest. induction items as [|v items IH].
  - rewrite app_nil_l. destruct rest as [|next rest]; [reflexivity|].
    now rewrite listItems_unfold, Hrest.
  - simpl in Hitems. apply andb_prop in Hitems as [Hv Hitems].
    destruct (itemLine_item v Hv) as (Hs & Hitem & _).
    rewrite map_cons, <- app_comm_cons, listItems_unfold.
    rewrite Hs. cbn [negb]. rewrite (IH Hitems), Hitem. reflexivity.
Qed.

Lemma keyLine_trim (k : jsstring) :
  Spec.goodKey k = true -> trim (k ++ js ":") = k ++ js ":".
Proof.
  intros Hk. destruct (goodKey_parts k Hk) as (_ & _ & Ht & _).
  apply trim_fixed_iff in Ht as [Hs He]. apply trim_fixed_iff. split.
  - destruct k; [reflexivity | exact Hs].
  - rewrite rev_app_distr. reflexivity.
Qed.

Section YamlLists.
Context `{Host}.

Lemma parseLines_yaml_list (fuel : nat) (k : jsstring) (v : value)
  (items : list value) (rest : list jsstring) (fm : frontmatter) :
  Spec.goodKey k = true -> forallb plainItem (v :: items) = true ->
  match rest with
  | next :: _ => startsWith (js "-") (trim next) = false
  | [] => True
  end ->
  FrontmatterCodec.parseLines (S fuel)
    ((k ++ js ":")
       :: map (fun v => js "  - " ++ itemText v) (v :: items) ++ rest) fm
  = FrontmatterCodec.parseLines fuel rest (<[k := VArr (v :: items)]> fm).
Proof.
  intros Hk Hitems Hrest.
  destruct (goodKey_parts k Hk) as (Hcolon & _ & Ht & _).
  destruct (line_head k [] Hk) as (_ & He & Hh & _).
  rewrite parseLines_unfold, (keyLine_trim k Hk).
  change (k ++ js ":") with (k ++ ":" :: []).
  rewrite He, Hh. cbn [orb]. rewrite (splitAtFirst_colon k [] Hcolon).
  rewrite (listItems_items (v :: items) rest Hitems Hrest).
  rewrite map_cons, <- app_comm_cons.
  assert (Hv : plainItem v = true)
    by (simpl in Hitems; now apply andb_prop in Hitems as [Hv _]).
  destruct (itemLine_item v Hv) as (-> & _). now rewrite Ht.
Qed.

Lemma yamlLines_cases (entry : jsstring * value) :
  goodYamlEntry entry = true ->
  (exists v items,
     entry.2 = VArr (v :: items) /\ Spec.goodKey entry.1 = true
     /\ forallb plainItem (v :: items) = true
     /\ yamlLines entry
        = (entry.1 ++ js ":")
            :: map (fun v => js "  - " ++ itemText v) (v :: items))
  \/ (Spec.goodEntry entry = true
      /\ yamlLines entry = [FrontmatterCodec.formatEntry entry]).
Proof.
  destruct entry as [k v]. unfold goodYamlEntry, yamlLines, Spec.goodEntry.
  cbn [fst snd]. intros [Hk Hv]%andb_prop.
  destruct v as [| |b|n| |s|[|v items]|t|];
    try (right; split; [now rewrite Hk | reflexivity]).
  left. exists v, items. repeat split; assumption.
Qed.

Lemma yamlLines_head (entry : jsstring * value) :
  goodYamlEntry entry = true ->
  exists l ls,
    yamlLines entry = l :: ls
    /\ startsWith (js "-") (trim l) = false /\ startsSolid l.
Proof.
  intros Hgood.
  destruct (yamlLines_cases entry Hgood)
    as [(v & items & _ & Hk & _ & ->)|[Hentry ->]].
  - eexists _, _. split; [reflexivity|].
    rewrite (keyLine_trim _ Hk).
    destruct (line_head entry.1 [] Hk) as (Hs & _ & _ & Hd).
    split; [exact Hd | exact Hs].
  - eexists _, _. split; [reflexivity|].
    destruct (formatted_line_start entry Hentry) as (Hd & _).
    split; [exact Hd|].
    destruct (formatted_blockLine entry Hentry) as (_ & _ & _ & Hs).
    exact Hs.
Qed.

Lemma yamlLines_inner (entry : jsstring * value) :
  goodYamlEntry entry = true -> Forall innerLine (yamlLines entry).
Proof.
  intros Hgood.
  destruct (yamlLines_cases entry Hgood)
    as [(v & items & _ & Hk & Hitems & ->)|[Hentry ->]].
  - constructor.
    + destruct (goodKey_parts _ Hk) as (_ & Hlf & _).
      destruct (line_head entry.1 [] Hk) as (_ & He & _ & Hd).
      split; [now apply eqs_false|]. split; [|exact Hd].
      unfold Spec.noChar. rewrite forallb_app.
      change (forallb _ entry.1) with (Spec.noChar LF entry.1).
      now rewrite Hlf.
    + apply Forall_map, List.Forall_forall. intros i Hi.
      rewrite forallb_forall in Hitems.
      now destruct (itemLine_item i (Hitems i Hi)) as (_ & _ & Hin).
  - constructor; [|constructor].
    destruct (formatted_blockLine entry Hentry) as (H1 & H2 & H3 & _).
    now repeat split.
Qed.

Lemma next_line_of (entries : list (jsstring * value)) :
  forallb goodYamlEntry entries = true ->
  match concat (map yamlLines entries) with
  | next :: _ => startsWith (js "-") (trim next) = false
  | [] => True
  end.
Proof.
  destruct entries as [|e es]; [intros _; exact I|].
  rewrite map_cons, concat_cons. simpl forallb.
  intros [He _]%andb_prop.
  destruct (yamlLines_head e He) as (l & ls & -> & Hd & _). exact Hd.
Qed.

Lemma parseLines_yaml (entries : list (jsstring * value)) :
  forallb goodYamlEntry entries = true ->
  forall fuel fm,
    length (concat (map yamlLines entries)) <= fuel ->
    FrontmatterCodec.parseLines fuel (concat (map yamlLines entries)) fm
    = foldl (fun m e => <[e.1 := e.2]> m) fm entries.
Proof.
  induction entries as [|e es IH]; intros Hgood fuel fm Hfuel.
  - now destruct fuel.
  - simpl in Hgood. apply andb_prop in Hgood as [He Hes].
    pose proof (next_line_of es Hes) as Hnext.
    rewrite map_cons, concat_cons in *. rewrite length_app in Hfuel.
    cbn [foldl].
    destruct (yamlLines_cases e He)
      as [(v & items & Hv & Hk & Hitems & Hl)|[Hentry Hl]];
      rewrite Hl in *.
    + destruct fuel as [|fuel]; [simpl in Hfuel; lia|].
      rewrite <- app_comm_cons.
      rewrite (parseLines_yaml_list fuel _ v items _ fm Hk Hitems Hnext).
      rewrite <- Hv. destruct e as [k x]. cbn [fst snd].
      apply IH; [exact Hes|]. simpl in Hfuel. lia.
    + destruct fuel as [|fuel]; [simpl in Hfuel; lia|].
      destruct e as [k x].
      change ([FrontmatterCodec.formatEntry (k, x)] ++ ?r)
        with (FrontmatterCodec.formatEntry (k, x) :: r).
      rewrite (parseLines_entry fuel k x _ fm Hentry Hnext).
      apply IH; [exact Hes|]. simpl in Hfuel. lia.
Qed.

Lemma closingMarker_inner (lines : list jsstring) (glue body : jsstring) :
  lines <> [] -> Forall innerLine lines ->
  Spec.goodGlue glue = true -> Spec.goodBody body = true ->
  FrontmatterCodec.closingMarker
    (join [LF] lines ++ LF :: js "---" ++ glue ++ body)
  = Some (join [LF] lines, body).
Proof.
  intros Hne Hall Hg Hb.
  induction Hall as [|l ls (Hl0 & Hlf & Hd) Hls IH]; [contradiction|].
  destruct ls as [|l2 ls].
  - change (join [LF] [l]) with l. rewrite (closingMarker_line l _ Hlf).
    rewrite (closingMarker_end glue body Hg Hb). now rewrite app_nil_r.
  - rewrite join_cons_cons. rewrite <- !app_assoc.
    rewrite (closingMarker_line l _ Hlf).
    specialize (IH ltac:(discriminate)).
    inversion Hls as [|? ? (Hl2 & _ & Hd2) _]; subst.
    destruct l2 as [|c l2]; [contradiction|].
    rewrite join_head_cons in *.
    set (t := join [LF] (l2 :: ls)) in *.
    change ([LF] ++ (c :: t) ++ LF :: js "---" ++ glue ++ body)
      with (LF :: (c :: t) ++ LF :: js "---" ++ glue ++ body).
    rewrite (closingMarker_newline c t).
    + rewrite IH. reflexivity.
    + change (startsWith (js "-") (c :: l2)) with (eqc "-" c && true) in Hd2.
      exact Hd2.
Qed.

(** A block whose array fields are written as YAML lists, one
    [  - item] line per item, is read back as the mapping of its fields:
    each list becomes the array of its items.  The keys are distinct and
    as in the round trip of the codec; the items are strings on one line,
    trimmed and not wrapped in quotes (commas and colons are allowed here);
    the other values are as in the round trip. *)
Theorem parseFrontmatter_yaml_lists (entries : list (jsstring * value))
  (glue body : jsstring) :
  entries <> [] -> NoDup entries.*1 ->
  forallb goodYamlEntry entries = true ->
  Spec.goodGlue glue = true -> Spec.goodBody body = true ->
  FrontmatterCodec.parseFrontmatter (yamlNote entries glue body)
  = (list_to_map entries, body).
Proof.
  intros Hne Hnd Hgood Hg Hb.
  set (lines := concat (map yamlLines entries)).
  assert (Hinner : Forall innerLine lines).
  { unfold lines. apply Forall_concat, Forall_map, List.Forall_forall.
    intros e He. apply yamlLines_inner.
    rewrite forallb_forall in Hgood. now apply Hgood. }
  assert (Hsolid : exists c l ls, lines = (c :: l) :: ls /\ isSpace c = false).
  { unfold lines. destruct entries as [|e es]; [contradiction|].
    simpl in Hgood. apply andb_prop in Hgood as [He _].
    pose proof (yamlLines_inner e He) as Hin.
    destruct (yamlLines_head e He) as (l & ls & Hl & _ & Hs).
    rewrite map_cons, concat_cons, Hl in *.
    inversion Hin as [|? ? (Hl0 & _) _]; subst.
    destruct l as [|c l]; [contradiction|].
    exists c, l, (ls ++ concat (map yamlLines es)). split; [reflexivity|].
    exact Hs. }
  destruct Hsolid as (c & l & ls & Hlines & Hc).
  assert (Hlines0 : lines <> []) by (rewrite Hlines; discriminate).
  unfold yamlNote. fold lines.
  set (T := join [LF] lines ++ LF :: js "---" ++ glue ++ body).
  unfold FrontmatterCodec.parseFrontmatter, FrontmatterCodec.frontmatterRegex.
  rewrite (startsWith_app (js "---")).
  change (drop 3 (js "---" ++ LF :: T)) with (LF :: T).
  rewrite afterSpacesNewline_LF.
  assert (HT : exists t, T = c :: t).
  { unfold T. rewrite Hlines, join_head_cons. eauto. }
  destruct HT as (t & HT).
  rewrite HT at 1. rewrite (afterSpacesNewline_solid c t Hc).
  simpl app. unfold FrontmatterCodec.firstMatch.
  unfold T at 1.
  rewrite (closingMarker_inner lines glue body Hlines0 Hinner Hg Hb).
  rewrite splitOn_join_lines; [|exact Hlines0|].
  - unfold lines. rewrite (parseLines_yaml entries Hgood) by lia.
    rewrite (foldl_insert_list_to_map entries ∅ Hnd).
    now rewrite (right_id_L ∅ (∪)).
  - apply forallb_forall. intros x Hx.
    rewrite List.Forall_forall in Hinner.
    now destruct (Hinner x Hx) as (_ & Hlf & _).
Qed.

End YamlLists.

Lemma parseFrontmatter_yaml_lists_witness :
  FrontmatterCodec.parseFrontmatter
    (yamlNote Examples.listFields [LF] (js "Hello."))
  = (list_to_map Examples.listFields, js "Hello.").
Proof.
  apply (parseFrontmatter_yaml_lists Examples.listFields [LF] (js "Hello."));
    [ discriminate
    | apply (bool_decide_unpack _); vm_compute; exact I
    | reflexivity | reflexivity | reflexivity ].
Defined.

(** ** Base names and slugs *)

Lemma lastSegment_in_dir (dir seg : jsstring) :
  dir = [] \/ endsWith (js "/") dir = true ->
  seg <> [] -> noSlash seg ->
  NodePath.lastSegment (dir ++ seg) = seg.
Proof.
  intros Hdir Hne Hseg. unfold NodePath.lastSegment.
  rewrite rev_app_distr.
  assert (Hr : noSlash (rev seg)) by now apply List.Forall_rev.
  destruct (rev seg) as [|c r] eqn:Er.
  { apply (f_equal (@rev _)) in Er. rewrite rev_involutive in Er. done. }
  inversion Hr as [|? ? Hc Hr']; subst.
  rewrite <- app_comm_cons.
  change (dropWhile NodePath.isSlash (c :: r ++ rev dir))
    with (if NodePath.isSlash c then dropWhile NodePath.isSlash (r ++ rev dir)
          else c :: r ++ rev dir).
  apply negb_true_iff in Hc. rewrite Hc.
  rewrite app_comm_cons.
  replace (takeWhile (fun c0 => negb (NodePath.isSlash c0))
             ((c :: r) ++ rev dir)) with (c :: r).
  - rewrite <- Er. apply rev_involutive.
  - destruct Hdir as [->|Hd].
    + rewrite app_nil_r. symmetry. apply takeWhile_all.
      constructor; [now rewrite Hc | exact Hr'].
    + apply endsWith_true in Hd as [d ->]. rewrite rev_app_distr.
      change (rev (js "/")) with ["/"]. simpl app at 2.
      symmetry. apply takeWhile_stop; [|reflexivity].
      constructor; [now rewrite Hc | exact Hr'].
Qed.

Lemma noSlash_app (a b : jsstring) : noSlash a -> noSlash b -> noSlash (a ++ b).
Proof. intros Ha Hb. apply Forall_app. now split. Qed.

(** For a file [name.ext] in a directory, [getBasename] is the name
    without the extension, dots inside the name included; the file name the
    result entries carry is the name with the extension.  A file whose name
    is only an extension, like [.md], keeps it: its base name is the whole
    name. *)
Theorem getBasename_of_file (dir name ext : jsstring) :
  dir = [] \/ endsWith (js "/") dir = true ->
  noSlash name -> ext <> [] -> noSlash ext -> noDot ext ->
  (name <> [] ->
   FileUtils.getBasename (dir ++ name ++ "." :: ext) = name
   /\ NodePath.basename1 (dir ++ name ++ "." :: ext) = name ++ "." :: ext)
  /\ FileUtils.getBasename (dir ++ "." :: ext) = "." :: ext.
Proof.
  intros Hdir Hname Hext Hslash Hdot.
  assert (Hseg : forall n, noSlash n ->
            NodePath.lastSegment (dir ++ n ++ "." :: ext) = n ++ "." :: ext).
  { intros n Hn. apply lastSegment_in_dir; [exact Hdir| |].
    - now destruct n.
    - apply noSlash_app; [exact Hn|]. constructor; [reflexivity|exact Hslash]. }
  split.
  - intros Hne. split; [|exact (Hseg name Hname)].
    unfold FileUtils.getBasename.
    assert (Hx : NodePath.extname (dir ++ name ++ "." :: ext) = "." :: ext).
    { unfold NodePath.extname. rewrite (Hseg name Hname).
      rewrite (segmentExt_split name ext Hdot).
      destruct name as [|c name]; [done|].
      destruct (eqs ((c :: name) ++ "." :: ext) (js "..")) eqn:E;
        [|reflexivity].
      apply eqs_true in E. exfalso.
      apply (f_equal (@length _)) in E. rewrite length_app in E.
      destruct ext; [done | simpl in E; lia]. }
    destruct (extname_cases (dir ++ name ++ "." :: ext))
      as [[E _]|(b & e & Hs & He & _ & _ & Hx' & ->)].
    + rewrite Hx in E. discriminate E.
    + rewrite Hx in Hx'. injection Hx' as <-.
      rewrite (Hseg name Hname) in Hs.
      now apply app_inv_tail in Hs.
  - specialize (Hseg [] ltac:(constructor)). rewrite app_nil_l in Hseg.
    unfold FileUtils.getBasename.
    destruct (extname_cases (dir ++ "." :: ext))
      as [[_ ->]|(b & e & _ & _ & _ & _ & Hx' & _)]; [exact Hseg|].
    exfalso. unfold NodePath.extname in Hx'. rewrite Hseg in Hx'.
    change ("." :: ext) with ([] ++ "." :: ext) in Hx' at 1.
    rewrite (segmentExt_split [] ext Hdot) in Hx'. discriminate Hx'.
Qed.

Lemma getBasename_of_file_witness :
  (js "My Note.v2" <> [] ->
   FileUtils.getBasename (js "vault/" ++ js "My Note.v2" ++ "." :: js "md")
   = js "My Note.v2"
   /\ NodePath.basename1 (js "vault/" ++ js "My Note.v2" ++ "." :: js "md")
      = js "My Note.v2" ++ "." :: js "md")
  /\ FileUtils.getBasename (js "vault/" ++ "." :: js "md") = "." :: js "md".
Proof.
  apply (getBasename_of_file (js "vault/") (js "My Note.v2") (js "md"));
    [ right; reflexivity
    | repeat constructor
    | discriminate
    | repeat constructor
    | repeat constructor ].
Defined.

(** The base name of a file [name.ext] in a directory, and of a file
    [name] without extension. *)
Lemma getBasename_named (dir name ext : jsstring) :
  dir = [] \/ endsWith (js "/") dir = true ->
  name <> [] -> noSlash name -> ext <> [] -> noSlash ext -> noDot ext ->
  FileUtils.getBasename (dir ++ name ++ "." :: ext) = name.
Proof.
  intros Hdir Hne Hname Hext Hslash Hdot.
  assert (Hseg : NodePath.lastSegment (dir ++ name ++ "." :: ext)
                 = name ++ "." :: ext).
  { apply lastSegment_in_dir; [exact Hdir| |].
    - now destruct name.
    - apply noSlash_app; [exact Hname|].
      constructor; [reflexivity|exact Hslash]. }
  unfold FileUtils.getBasename.
  assert (Hx : NodePath.extname (dir ++ name ++ "." :: ext) = "." :: ext).
  { unfold NodePath.extname. rewrite Hseg.
    rewrite (segmentExt_split name ext Hdot).
    destruct name as [|c name]; [done|].
    destruct (eqs ((c :: name) ++ "." :: ext) (js "..")) eqn:E;
      [|reflexivity].
    apply eqs_true in E. exfalso.
    apply (f_equal (@length _)) in E. rewrite length_app in E.
    destruct ext; [done | simpl in E; lia]. }
  destruct (extname_cases (dir ++ name ++ "." :: ext))
    as [[E _]|(b & e & Hs & He & _ & _ & Hx' & ->)].
  - rewrite Hx in E. discriminate E.
  - rewrite Hx in Hx'. injection Hx' as <-.
    rewrite Hseg in Hs. now apply app_inv_tail in Hs.
Qed.

Lemma getBasename_plain (dir name : jsstring) :
  dir = [] \/ endsWith (js "/") dir = true ->
  name <> [] -> noSlash name -> noDot name ->
  FileUtils.getBasename (dir ++ name) = name.
Proof.
  intros Hdir Hne Hname Hdot.
  assert (Hseg : NodePath.lastSegment (dir ++ name) = name)
    by now apply lastSegment_in_dir.
  unfold FileUtils.getBasename, NodePath.extname. rewrite Hseg.
  rewrite (segmentExt_noDot name Hdot). exact Hseg.
Qed.

Lemma getBasename_unnamed (p : jsstring) :
  ~ Spec.namesFile p -> FileUtils.getBasename p = [].
Proof.
  intros Hn.
  assert (Hall : Forall (fun c => NodePath.isSlash c = true) p).
  { apply List.Forall_forall. intros c Hc.
    destruct (NodePath.isSlash c) eqn:E; [reflexivity|].
    exfalso. apply Hn. apply List.Exists_exists. eauto. }
  assert (Hseg : NodePath.lastSegment p = []).
  { unfold NodePath.lastSegment.
    rewrite dropWhile_all; [reflexivity|]. now apply List.Forall_rev. }
  unfold FileUtils.getBasename, NodePath.extname. rewrite Hseg.
  unfold NodePath.basename. now rewrite Hseg.
Qed.

(** C10.  After [processFrontmatter] the title is a string: the title of
    the input when that is a string whose trim is not empty, and otherwise
    (title absent, not a string, empty or blank) the basename of the file
    without its extension: the name for a file [name.ext] or [name] in a
    directory.  The title is not empty when the filename names a file (it
    has a character other than a slash); for the filenames that do not, the
    basename and with it the title is empty. *)
Theorem processFrontmatter_title (fm : frontmatter) (filename : jsstring) :
  let out :=
    FrontmatterUtils.processFrontmatter fm filename FileUtils.getBasename in
  (Spec.usableTitle (getField fm "title") ->
   getField out "title" = getField fm "title")
  /\ (~ Spec.usableTitle (getField fm "title") ->
      getField out "title" = VStr (FileUtils.getBasename filename))
  /\ (Spec.namesFile filename ->
      exists s, getField out "title" = VStr s /\ s <> [])
  /\ (forall dir name ext,
        filename = dir ++ name ++ "." :: ext ->
        dir = [] \/ endsWith (js "/") dir = true ->
        name <> [] -> noSlash name ->
        ext <> [] -> noSlash ext -> noDot ext ->
        ~ Spec.usableTitle (getField fm "title") ->
        getField out "title" = VStr name)
  /\ (forall dir name,
        filename = dir ++ name ->
        dir = [] \/ endsWith (js "/") dir = true ->
        name <> [] -> noSlash name -> noDot name ->
        ~ Spec.usableTitle (getField fm "title") ->
        getField out "title" = VStr name)
  /\ (~ Spec.namesFile filename ->
      ~ Spec.usableTitle (getField fm "title") ->
      getField out "title" = VStr []).
Proof.
  intros out.
  destruct (processFrontmatter_fields fm filename FileUtils.getBasename)
    as (Ht & _ & _).
  fold out in Ht. rewrite Ht. clear Ht.
  destruct (ImportUtils.keepsTitle (getField fm "title")) eqn:Ek.
  - apply keepsTitle_usable in Ek as Hu. repeat split; auto.
    + intros Hn. contradiction.
    + intros _. destruct Hu as (s & Hs & Htrim). exists s.
      split; [exact Hs|]. intros ->. now apply Htrim.
    + intros; contradiction.
    + intros; contradiction.
    + intros; contradiction.
  - assert (Hn : ~ Spec.usableTitle (getField fm "title")).
    { intros Hu. apply keepsTitle_usable in Hu. congruence. }
    repeat split; auto.
    + intros Hu. contradiction.
    + intros Hf. eexists. split; [reflexivity|].
      now apply getBasename_nonempty.
    + intros dir name ext -> Hdir Hne Hname Hext Hslash Hdot _.
      now rewrite getBasename_named.
    + intros dir name -> Hdir Hne Hname Hdot _.
      now rewrite getBasename_plain.
    + intros Hf _. now rewrite getBasename_unnamed.
Qed.

(** C10, as the claim states it, fails: for the filename [/] and for the
    empty filename the basename is empty, and a frontmatter without title
    gets the empty title. *)
Lemma processFrontmatter_empty_title :
  getField
    (FrontmatterUtils.processFrontmatter ∅ (js "/") FileUtils.getBasename)
    "title"
  = VStr []
  /\ getField
       (FrontmatterUtils.processFrontmatter ∅ [] FileUtils.getBasename)
       "title"
     = VStr [].
Proof. split; reflexivity. Qed.

Lemma dropWhile_nil (p : ascii -> bool) (s : jsstring) :
  dropWhile p s = [] -> Forall (fun c => p c = true) s.
Proof.
  induction s as [|c s IH]; [constructor|]. simpl.
  destruct (p c) eqn:Hc; [|discriminate].
  intros E. constructor; [exact Hc | now apply IH].
Qed.

Lemma trim_nil_iff (s : jsstring) :
  trim s = [] <-> Forall (fun c => isSpace c = true) s.
Proof.
  unfold trim, trimEnd, trimStart. split.
  - intros E. apply (f_equal (@rev _)) in E. rewrite rev_involutive in E.
    apply dropWhile_nil, List.Forall_rev in E. rewrite rev_involutive in E.
    apply dropWhile_nil.
    destruct (dropWhile isSpace s) as [|c d] eqn:Ed; [reflexivity|].
    apply dropWhile_head in Ed. inversion E; congruence.
  - intros Hs. rewrite (dropWhile_all isSpace s Hs). reflexivity.
Qed.

Lemma replaceSpaceRuns_nil (by_ : jsstring) (inRun : bool) (s : jsstring) :
  by_ <> [] -> inRun = false \/ startsSolid s ->
  replaceSpaceRuns by_ inRun s = [] -> s = [].
Proof.
  intros Hby Hrun. destruct s as [|c s]; [reflexivity|]. simpl.
  destruct (isSpace c) eqn:Hc; [|discriminate].
  destruct Hrun as [->|Hs]; [|simpl in Hs; congruence].
  intros E. apply app_eq_nil in E as [E _]. done.
Qed.

Lemma lower_slug_char (c : ascii) :
  (Spec.isAlphanumeric c || eqc c "-") = true ->
  (isLower (lowerChar c) || isDigit (lowerChar c) || eqc (lowerChar c) "-")
  = true.
Proof. each_char c. Qed.

Lemma slug_char_kept (c : ascii) :
  (isLower c || isDigit c || eqc c "-") = true ->
  FileUtils.isSlugChar c = true /\ isSpace c = false.
Proof. each_char c. Qed.

Lemma slug_char_dropped (c : ascii) :
  (isLower c || isDigit c || eqc c "-") = false ->
  FileUtils.isSlugChar c = true -> isSpace c = true.
Proof. each_char c. Qed.

(** A slug is made of [a-z], [0-9] and hyphens, and it is empty exactly
    when the name in lower case has no character of these: all such names
    share the empty slug.  A name with an ASCII letter, a digit or a hyphen
    has a slug that is not empty. *)
Theorem slugify_empty (s : jsstring) :
  Forall (fun c => (isLower c || isDigit c || eqc c "-") = true)
    (FileUtils.slugify s)
  /\ (FileUtils.slugify s = []
      <-> Forall (fun c => (isLower c || isDigit c || eqc c "-") = false)
            (toLowerCase s))
  /\ (Exists (fun c => (Spec.isAlphanumeric c || eqc c "-") = true) s ->
      FileUtils.slugify s <> []).
Proof.
  assert (Hiff : FileUtils.slugify s = []
                 <-> Forall (fun c => (isLower c || isDigit c || eqc c "-")
                                      = false) (toLowerCase s)).
  { unfold FileUtils.slugify. split.
    - intros E. apply replaceSpaceRuns_nil in E; [|discriminate|now left].
      apply trim_nil_iff in E.
      apply List.Forall_forall. intros c Hc.
      destruct (isLower c || isDigit c || eqc c "-") eqn:Ec; [|reflexivity].
      destruct (slug_char_kept c Ec) as [Hk Hs]. exfalso.
      rewrite List.Forall_forall in E.
      assert (Hin : In c (keepOnly FileUtils.isSlugChar (toLowerCase s))).
      { unfold keepOnly. apply List.filter_In. now split. }
      specialize (E _ Hin). congruence.
    - intros Hs.
      assert (Hkept : Forall (fun c => isSpace c = true)
                        (keepOnly FileUtils.isSlugChar (toLowerCase s))).
      { apply List.Forall_forall. intros x Hx. unfold keepOnly in Hx.
        apply List.filter_In in Hx as [Hx Hk].
        rewrite List.Forall_forall in Hs.
        now apply (slug_char_dropped x (Hs x Hx)). }
      apply trim_nil_iff in Hkept. now rewrite Hkept. }
  split; [apply slugify_chars|]. split; [exact Hiff|].
  intros Hex Hnil. apply Hiff in Hnil.
  apply List.Exists_exists in Hex as (c & Hc & Hclass).
  rewrite List.Forall_forall in Hnil.
  assert (Hin : In (lowerChar c) (toLowerCase s))
    by (unfold toLowerCase; now apply List.in_map).
  specialize (Hnil _ Hin). rewrite (lower_slug_char c Hclass) in Hnil.
  discriminate Hnil.
Qed.

(** ** Further properties of the cross-poster *)

Lemma cleanTag_fixed (t : jsstring) :
  Forall (fun c => PublishDevto.isAlnum c = true) t -> Spec.cleanTag t = t.
Proof.
  intros Ht. unfold Spec.cleanTag.
  rewrite (keepOnly_all (fun c => negb (PublishDevto.isSeparator c))).
  - rewrite toLowerCase_fixed.
    + now apply keepOnly_all.
    + eapply Forall_impl; [exact Ht|]. apply alnum_lower_fixed.
  - eapply Forall_impl; [exact Ht|]. intros c Hc. revert Hc. clear.
    each_char c.
Qed.

Lemma cleanedTags_fixed (ts : list jsstring) :
  Forall (fun t => t <> []
                   /\ Forall (fun c => PublishDevto.isAlnum c = true) t) ts ->
  Spec.cleanedTags (map VStr ts) = ts.
Proof.
  induction 1 as [|t ts [Hne Ht] _ IH]; [reflexivity|].
  rewrite map_cons. cbn [Spec.cleanedTags].
  rewrite (cleanTag_fixed t Ht), IH.
  apply eqs_false in Hne. now rewrite Hne.
Qed.

(** The tags [sanitizeTags] returns are tags it leaves alone: sanitizing
    its own result gives the same list. *)
Theorem sanitizeTags_fixpoint (tags : value) :
  PublishDevto.sanitizeTags
    (VArr (map VStr (PublishDevto.sanitizeTags tags)))
  = PublishDevto.sanitizeTags tags.
Proof.
  destruct tags as [| |b|n| |s|items|t|]; try reflexivity.
  unfold PublishDevto.sanitizeTags.
  rewrite !sanitizeTags_cleanedTags.
  rewrite cleanedTags_fixed.
  - now rewrite take_take.
  - apply Forall_take, cleanedTags_Forall.
Qed.

Lemma absolute_raw_url (rest : jsstring) :
  startsWith (js "https://") (PublishDevto.GITHUB_RAW_BASE_URL ++ rest) = true.
Proof. reflexivity. Qed.

Lemma convert_absolute_fixed (u i : jsstring) :
  startsWith (js "http://") u || startsWith (js "https://") u = true ->
  PublishDevto.convertImagePathToUrl (VStr u) i = Some u.
Proof.
  intros Ha. unfold PublishDevto.convertImagePathToUrl.
  destruct u as [|c u]; [discriminate Ha|].
  change (truthy (VStr (c :: u))) with true. cbn [negb].
  now rewrite Ha.
Qed.

(** The banner the cross-poster sends is always an absolute URL: an
    [image] of the frontmatter that starts with [http://] or [https://] is
    sent as it is, another string that is not empty is sent as the file of
    that name in the directory of the post under the raw-content URL of the
    repository, and without an [image] (or with one that counts as false)
    the default banner of the repository is sent.  No banner is sent only
    when [image] is a value other than a string that counts as true.
    Converting a converted URL again changes nothing. *)
Theorem banner_is_absolute (site : jsstring)
  (convert : jsstring -> jsstring -> jsstring) (fm : frontmatter)
  (body id : jsstring) (publish : bool) :
  let absolute u :=
    startsWith (js "http://") u || startsWith (js "https://") u in
  let image := getField fm "image" in
  let sent :=
    main_image
      (PublishDevto.articleDataOf site convert fm body id publish) in
  match sent with
  | Some u => absolute u = true
  | None => truthy image = true /\ isString image = false
  end
  /\ (forall p,
        image = VStr p -> p <> [] -> absolute p = true -> sent = Some p)
  /\ (forall p,
        image = VStr p -> p <> [] -> absolute p = false ->
        sent
        = Some (js "https://raw.githubusercontent.com/theinfinull/portfolio/refs/heads/main/src/content/blog/"
                  ++ id ++ js "/" ++ p))
  /\ (truthy image = false ->
      sent
      = Some (js "https://raw.githubusercontent.com/theinfinull/portfolio/refs/heads/main/public/static/common/default-post-banner-1200x630.jpg"))
  /\ (truthy image = true -> isString image = false -> sent = None)
  /\ (forall p i u,
        PublishDevto.convertImagePathToUrl p i = Some u ->
        absolute u = true
        /\ forall i', PublishDevto.convertImagePathToUrl (VStr u) i' = Some u)
  /\ (forall p i,
        PublishDevto.convertImagePathToUrl p i = None
        <-> truthy p && isString p = false)
  /\ (forall p i,
        p <> [] ->
        PublishDevto.convertImagePathToUrl (VStr p) i
        = Some (if absolute p then p
                else js "https://raw.githubusercontent.com/theinfinull/portfolio/refs/heads/main/src/content/blog/"
                       ++ i ++ js "/" ++ p)).
Proof.
  intros absolute image sent.
  assert (Hconv : forall p i u,
            PublishDevto.convertImagePathToUrl p i = Some u ->
            absolute u = true
            /\ forall i', PublishDevto.convertImagePathToUrl (VStr u) i'
                          = Some u).
  { intros p i u. unfold PublishDevto.convertImagePathToUrl.
    destruct p as [| |b|n| |s|items|t|]; try discriminate.
    destruct (truthy (VStr s)) eqn:Hs; [|discriminate]. cbn [negb].
    destruct (startsWith (js "http://") s || startsWith (js "https://") s)
      eqn:Ha.
    - intros [= <-]. split; [exact Ha|]. intros i'.
      now apply convert_absolute_fixed.
    - intros [= <-].
      assert (Hu : absolute
                     (PublishDevto.GITHUB_RAW_BASE_URL
                        ++ js "/src/content/blog/" ++ i ++ js "/" ++ s)
                   = true).
      { unfold absolute. rewrite absolute_raw_url. apply orb_true_r. }
      split; [exact Hu|]. intros i'. now apply convert_absolute_fixed. }
  assert (Hnone : forall p i,
            PublishDevto.convertImagePathToUrl p i = None
            <-> truthy p && isString p = false).
  { intros p i. unfold PublishDevto.convertImagePathToUrl.
    destruct p as [| |b|n| |s|items|t|]; cbn [isString];
      rewrite ?andb_false_r; try tauto.
    rewrite andb_true_r.
    destruct (truthy (VStr s)); cbn [negb]; [|tauto].
    destruct (startsWith (js "http://") s || startsWith (js "https://") s);
      split; discriminate. }
  assert (Hstr : forall p i,
            p <> [] ->
            PublishDevto.convertImagePathToUrl (VStr p) i
            = Some (if absolute p then p
                    else js "https://raw.githubusercontent.com/theinfinull/portfolio/refs/heads/main/src/content/blog/"
                           ++ i ++ js "/" ++ p)).
  { intros p i Hp. unfold PublishDevto.convertImagePathToUrl.
    destruct p as [|c p]; [done|].
    change (truthy (VStr (c :: p))) with true. cbn [negb].
    fold (absolute (c :: p)). now destruct (absolute (c :: p)). }
  assert (Htruthy : forall p, p <> [] -> truthy (VStr p) = true)
    by (intros [|c p] Hp; [done|reflexivity]).
  assert (Esent : sent
                  = if truthy image
                    then PublishDevto.convertImagePathToUrl image id
                    else Some (PublishDevto.GITHUB_RAW_BASE_URL
                                 ++ PublishDevto.DEFAULT_BANNER_URL))
    by reflexivity.
  split; [|split; [|split; [|split; [|split; [|split;
    [exact Hconv | split; [exact Hnone | exact Hstr]]]]]]].
  - rewrite Esent. destruct (truthy image) eqn:Ht.
    + destruct (PublishDevto.convertImagePathToUrl image id) as [u|] eqn:Eu.
      * now destruct (Hconv _ _ _ Eu).
      * apply Hnone in Eu. rewrite Ht in Eu. now split.
    + unfold absolute. rewrite absolute_raw_url. apply orb_true_r.
  - intros p Hi Hp Ha. rewrite Esent, Hi, (Htruthy p Hp), (Hstr p id Hp).
    now rewrite Ha.
  - intros p Hi Hp Ha. rewrite Esent, Hi, (Htruthy p Hp), (Hstr p id Hp).
    now rewrite Ha.
  - intros Ht. rewrite Esent, Ht. reflexivity.
  - intros Ht Hs. rewrite Esent, Ht. apply Hnone. now rewrite Ht, Hs.
Qed.

(** With [ORIGINAL_SITE_URL] set, the post id that [recreateMetadataFile]
    reads off a canonical URL is the id [processPost] built the URL from,
    for every id that is not empty and has no slash. *)
Theorem canonical_url_round_trip (site id : jsstring) :
  id <> [] -> Forall (fun c => c <> "/") id ->
  PublishDevto.canonicalMatch site (PublishDevto.canonicalUrlOf site id)
  = Some id.
Proof.
  intros Hne Hid. unfold PublishDevto.canonicalUrlOf.
  assert (Hhere :
            forall url,
              url = (site ++ js "/blog/") ++ id ->
              PublishDevto.canonicalMatch site url = Some id).
  { intros url ->.
    assert (Hs : startsWith (site ++ js "/blog/")
                   ((site ++ js "/blog/") ++ id) = true)
      by apply startsWith_app.
    assert (Hd : takeWhile (fun c => negb (eqc c "/"))
                   (drop (length (site ++ js "/blog/"))
                      ((site ++ js "/blog/") ++ id)) = id).
    { rewrite drop_app_length. apply takeWhile_all.
      eapply Forall_impl; [exact Hid|]. intros c Hc.
      destruct (eqc c "/") eqn:E; [|reflexivity].
      apply eqc_true in E. done. }
    destruct ((site ++ js "/blog/") ++ id) as [|c t] eqn:Eu.
    - destruct site; discriminate Eu.
    - cbn [PublishDevto.canonicalMatch]. rewrite Hs, Hd.
      now destruct id. }
  apply Hhere. now rewrite <- app_assoc.
Qed.

Lemma canonical_url_round_trip_witness :
  PublishDevto.canonicalMatch (js "https://example.org")
    (PublishDevto.canonicalUrlOf (js "https://example.org") (js "hello"))
  = Some (js "hello").
Proof.
  apply (canonical_url_round_trip (js "https://example.org") (js "hello"));
    [discriminate | repeat constructor; discriminate].
Defined.

Section PostOutcome.
Context `{Host} {W : Type} `{DevTo W}.
Variable ORIGINAL_SITE_URL : jsstring.
Variable convertMdxToMarkdown : jsstring -> jsstring -> jsstring.

(** When [processPost] succeeds for a post whose id is not [__proto__],
    the result carries the id of the post, and the metadata differs from
    the one it was given in the entry of this post only, which now holds
    the id and the URL of the article that was posted and the canonical URL
    of the post.  (On a JavaScript object the name [__proto__] is the
    prototype and no entry: for that id nothing is recorded.) *)
Theorem processPost_records (p : post)
  (metadata metadata' : gmap jsstring postMetadata) (publish : bool)
  (w w' : W) (res : syncResult) :
  postId p <> js "__proto__" ->
  PublishDevto.processPost ORIGINAL_SITE_URL convertMdxToMarkdown p metadata
    publish w
  = (Ok (res, metadata'), w') ->
  syncId res = postId p
  /\ metadata'
     = <[postId p :=
           mkPostMetadata (syncDevtoId res) (syncDevtoUrl res)
             (PublishDevto.canonicalUrlOf ORIGINAL_SITE_URL (postId p))
             (nowISO w')]> metadata
  /\ (forall k, k <> postId p -> metadata' !! k = metadata !! k).
Proof.
  intros _.
  unfold PublishDevto.processPost, tryCatch, bind, lift, throw.
  destruct (readPost (postPath p) w) as [[text|e] w1]; [|discriminate].
  destruct (matter text) as [[fm body]|e]; [|discriminate].
  destruct (PublishDevto.getArticleByCanonicalUrl _ w1)
    as [[existing|e] w2]; [|discriminate].
  set (data := PublishDevto.articleDataOf _ _ fm body (postId p) publish).
  set (articleId := PublishDevto.knownArticleId existing _).
  assert (Hend : forall (r : article) (w3 : W),
            PublishDevto.recordPosted ORIGINAL_SITE_URL (postId p) metadata
              r w3 = (Ok (res, metadata'), w') ->
            syncId res = postId p
            /\ metadata'
               = <[postId p :=
                     mkPostMetadata (syncDevtoId res) (syncDevtoUrl res)
                       (PublishDevto.canonicalUrlOf ORIGINAL_SITE_URL
                          (postId p))
                       (nowISO w')]> metadata
            /\ (forall k, k <> postId p -> metadata' !! k = metadata !! k)).
  { intros r w3. unfold PublishDevto.recordPosted, ret.
    intros [= <- <- <-]. repeat split.
    intros k Hk. now apply lookup_insert_ne. }
  destruct (truthy articleId).
  - destruct (updateArticle articleId data w2) as [[r|e] w3].
    + apply Hend.
    + destruct (createArticle data w3) as [[r|e'] w4]; [|discriminate].
      apply Hend.
  - destruct (createArticle data w2) as [[r|e'] w3]; [|discriminate].
    apply Hend.
Qed.

(** When the post cannot be read or parsed, or the articles of the account
    cannot be listed, [processPost] fails with that error and stops there:
    nothing is created or updated. *)
Theorem processPost_stops_early (p : post)
  (metadata : gmap jsstring postMetadata) (publish : bool) (w : W) :
  (forall e w1,
     readPost (postPath p) w = (Throw e, w1) ->
     PublishDevto.processPost ORIGINAL_SITE_URL convertMdxToMarkdown p
       metadata publish w = (Throw e, w1))
  /\ (forall text e w1,
        readPost (postPath p) w = (Ok text, w1) -> matter text = Throw e ->
        PublishDevto.processPost ORIGINAL_SITE_URL convertMdxToMarkdown p
          metadata publish w = (Throw e, w1))
  /\ (forall text fm body e w1 w2,
        readPost (postPath p) w = (Ok text, w1) ->
        matter text = Ok (fm, body) ->
        getAllDevToArticles w1 = (Throw e, w2) ->
        PublishDevto.processPost ORIGINAL_SITE_URL convertMdxToMarkdown p
          metadata publish w = (Throw e, w2)).
Proof.
  unfold PublishDevto.processPost, PublishDevto.getArticleByCanonicalUrl,
    tryCatch, bind, lift, throw.
  repeat split.
  - intros e w1 ->. reflexivity.
  - intros text e w1 -> ->. reflexivity.
  - intros text fm body e w1 w2 -> -> ->. reflexivity.
Qed.

(** Once the post is read and the articles are listed, [processPost]
    either creates or updates, never both when the update succeeds: with no
    known article id the article is created; with a known id it is updated,
    and when the update succeeds its result is recorded and nothing is
    created. *)
Theorem processPost_update_or_create (p : post)
  (metadata : gmap jsstring postMetadata) (publish : bool)
  (w w1 w2 : W) (text body : jsstring) (fm : frontmatter)
  (existing : option article) :
  let id := postId p in
  let data :=
    PublishDevto.articleDataOf ORIGINAL_SITE_URL convertMdxToMarkdown fm body
      id publish in
  let articleId := PublishDevto.knownArticleId existing (metadata !! id) in
  let recorded (r : article) (w' : W) :=
    (Ok (mkSyncResult id (artId r) (artUrl r) (artPublished r),
         <[id := mkPostMetadata (artId r) (artUrl r)
                   (PublishDevto.canonicalUrlOf ORIGINAL_SITE_URL id)
                   (nowISO w')]> metadata), w') in
  readPost (postPath p) w = (Ok text, w1) ->
  matter text = Ok (fm, body) ->
  PublishDevto.getArticleByCanonicalUrl
    (PublishDevto.canonicalUrlOf ORIGINAL_SITE_URL id) w1
  = (Ok existing, w2) ->
  (truthy articleId = false ->
   PublishDevto.processPost ORIGINAL_SITE_URL convertMdxToMarkdown p metadata
     publish w
   = match createArticle data w2 with
     | (Ok created, w3) => recorded created w3
     | (Throw e, w3) => (Throw e, w3)
     end)
  /\ (truthy articleId = true ->
      forall updated w3,
        updateArticle articleId data w2 = (Ok updated, w3) ->
        PublishDevto.processPost ORIGINAL_SITE_URL convertMdxToMarkdown p
          metadata publish w
        = recorded updated w3).
Proof.
  intros id data articleId recorded Hread Hparse Hfind.
  unfold PublishDevto.processPost, tryCatch, bind, lift, throw.
  rewrite Hread, Hparse. fold id. rewrite Hfind. fold data articleId.
  split.
  - intros ->. destruct (createArticle data w2) as [[r|e] w3]; reflexivity.
  - intros -> updated w3 ->. reflexivity.
Qed.

End PostOutcome.

Lemma processPost_update_or_create_witness :
  PublishDevto.processPost (js "https://example.org") (fun body _ => body)
    (mkPost (js "hello") (js "blog/hello/index.mdx")) ∅ true
    Examples.workingRemote
  = (Ok (mkSyncResult (js "hello") (VNum 41)
           (VStr (js "https://dev.to/updated")) (VBool true),
         <[js "hello" :=
             mkPostMetadata (VNum 41) (VStr (js "https://dev.to/updated"))
               (js "https://example.org/blog/hello")
               (js "2024-01-01T00:00:00.000Z")]> ∅),
     Examples.workingRemote).
Proof.
  refine (proj2 (processPost_update_or_create (js "https://example.org")
                   (fun body _ => body)
                   (mkPost (js "hello") (js "blog/hello/index.mdx")) ∅ true
                   Examples.workingRemote Examples.workingRemote
                   Examples.workingRemote Examples.helloPost
                   (FrontmatterCodec.parseFrontmatter Examples.helloPost).2
                   (FrontmatterCodec.parseFrontmatter Examples.helloPost).1
                   (Some (mkArticle (VNum 41)
                            (VStr (js "https://dev.to/hello")) (VBool true)
                            (VStr (js "https://example.org/blog/hello"))))
                   _ _ _) _
            (mkArticle (VNum 41) (VStr (js "https://dev.to/updated"))
               (VBool true) (VStr (js "https://example.org/blog/hello")))
            Examples.workingRemote _);
    vm_compute; reflexivity.
Defined.

Lemma processPost_records_witness :
  PublishDevto.processPost (js "https://example.org") (fun body _ => body)
    (mkPost (js "hello") (js "blog/hello/index.mdx")) ∅ false
    Examples.brokenRemote
  = (Ok (mkSyncResult (js "hello") (VNum 100)
           (VStr (js "https://dev.to/created")) (VBool false),
         <[js "hello" :=
             mkPostMetadata (VNum 100) (VStr (js "https://dev.to/created"))
               (js "https://example.org/blog/hello")
               (js "2024-01-01T00:00:00.000Z")]> ∅),
     MemoryWorld.mkRemote
       (MemoryWorld.posts Examples.brokenRemote)
       (MemoryWorld.articles Examples.brokenRemote
          ++ [mkArticle (VNum 100) (VStr (js "https://dev.to/created"))
                (VBool false) (VStr (js "https://example.org/blog/hello"))])
       true 101)
  /\ (forall k,
        k <> js "hello" ->
        (<[js "hello" :=
             mkPostMetadata (VNum 100) (VStr (js "https://dev.to/created"))
               (js "https://example.org/blog/hello")
               (js "2024-01-01T00:00:00.000Z")]> ∅
         : gmap jsstring postMetadata) !! k
        = (∅ : gmap jsstring postMetadata) !! k).
Proof.
  assert (E : PublishDevto.processPost (js "https://example.org")
                (fun body _ => body)
                (mkPost (js "hello") (js "blog/hello/index.mdx")) ∅ false
                Examples.brokenRemote
              = (Ok (mkSyncResult (js "hello") (VNum 100)
                       (VStr (js "https://dev.to/created")) (VBool false),
                     <[js "hello" :=
                         mkPostMetadata (VNum 100)
                           (VStr (js "https://dev.to/created"))
                           (js "https://example.org/blog/hello")
                           (js "2024-01-01T00:00:00.000Z")]> ∅),
                 MemoryWorld.mkRemote
                   (MemoryWorld.posts Examples.brokenRemote)
                   (MemoryWorld.articles Examples.brokenRemote
                      ++ [mkArticle (VNum 100)
                            (VStr (js "https://dev.to/created")) (VBool false)
                            (VStr (js "https://example.org/blog/hello"))])
                   true 101))
    by (vm_compute; reflexivity).
  assert (Hid : postId (mkPost (js "hello") (js "blog/hello/index.mdx"))
                <> js "__proto__") by discriminate.
  split; [exact E|].
  exact (proj2 (proj2
           (processPost_records (js "https://example.org")
              (fun body _ => body)
              (mkPost (js "hello") (js "blog/hello/index.mdx")) ∅ _
              false Examples.brokenRemote _ _ Hid E))).
Defined.

(** ** What an entry of the import says about the note *)

Section NoteOutcome.
Context `{Host} {W : Type} `{FileSystem W}.

(** An entry says [imported] exactly when every step of the import
    succeeded, the writing of [index.mdx] under the slug of the note last;
    the entry then carries the file name and the slug, and no message. *)
Theorem processNote_imported (filePath : jsstring) (cfg : config) (w w' : W) :
  let entry :=
    mkNoteResult imported (NodePath.basename1 filePath) VUndefined
      (Some (ImportUtils.slugify (ImportUtils.getBasename filePath))) in
  (forall r,
     ImportObsidian.processNote filePath cfg w = (Ok r, w') ->
     noteStatus r = imported ->
     r = entry /\ importSteps filePath cfg w w')
  /\ (importSteps filePath cfg w w' ->
      ImportObsidian.processNote filePath cfg w = (Ok entry, w')).
Proof.
  intros entry. split.
  - intros r. unfold ImportObsidian.processNote, tryCatch, bind.
    destruct (ImportObsidian.readNoteFile filePath w)
      as [[[fm body]|e] w1] eqn:Eread;
      [|unfold ret; intros [= <- <-]; discriminate].
    destruct (ImportUtils.getSkipReason fm) eqn:Eskip;
      [unfold ret; intros [= <- <-]; discriminate|].
    destruct (ImportUtils.validateFrontmatter fm) eqn:Evalid;
      [unfold ret; intros [= <- <-]; discriminate|].
    destruct (ensureDir _ w1) as [[[]|e] w2] eqn:Edir;
      [|unfold ret; intros [= <- <-]; discriminate].
    destruct (ImportUtils.processImages body _ _ w2)
      as [[images|e] w3] eqn:Eimg;
      [|unfold ret; intros [= <- <-]; discriminate].
    unfold lift.
    destruct (ImportUtils.buildMdxContent _ _) as [text|e] eqn:Ebuild;
      [|unfold ret; intros [= <- <-]; discriminate].
    unfold ImportObsidian.writeMdxFile.
    destruct (writeFile _ text w3) as [[[]|e] w4] eqn:Ewrite;
      [|unfold ret; intros [= <- <-]; discriminate].
    unfold ret. intros [= <- <-] _. split; [reflexivity|].
    exists fm, body, w1, w2, w3, images, text. repeat split; assumption.
  - intros (fm & body & w1 & w2 & w3 & images & text
            & Eread & Eskip & Evalid & Edir & Eimg & Ebuild & Ewrite).
    unfold ImportObsidian.processNote, tryCatch, bind.
    rewrite Eread, Eskip, Evalid, Edir, Eimg. unfold lift.
    rewrite Ebuild. unfold ImportObsidian.writeMdxFile. rewrite Ewrite.
    reflexivity.
Qed.

(** A note that is not flagged and whose frontmatter is invalid gives an
    [error] entry with the validation message, and nothing is made for it:
    the world is as reading the note left it. *)
Theorem processNote_rejects (filePath : jsstring) (cfg : config) (w w1 : W)
  (fm : frontmatter) (body message : jsstring) :
  ImportObsidian.readNoteFile filePath w = (Ok (fm, body), w1) ->
  ImportUtils.getSkipReason fm = None ->
  ImportUtils.validateFrontmatter fm = Some message ->
  ImportObsidian.processNote filePath cfg w
  = (Ok (mkNoteResult error_ (NodePath.basename1 filePath) (VStr message)
           None), w1).
Proof.
  intros Eread Eskip Evalid.
  unfold ImportObsidian.processNote, tryCatch, bind.
  now rewrite Eread, Eskip, Evalid.
Qed.

End NoteOutcome.

Lemma processNote_imported_witness :
  ImportObsidian.processNote (js "vault/photos.md") Examples.vaultConfig
    Examples.vault
  = (Ok (mkNoteResult imported (js "photos.md") VUndefined
           (Some (js "photos"))),
     (ImportObsidian.processNote (js "vault/photos.md") Examples.vaultConfig
        Examples.vault).2)
  /\ importSteps (js "vault/photos.md") Examples.vaultConfig Examples.vault
       (ImportObsidian.processNote (js "vault/photos.md")
          Examples.vaultConfig Examples.vault).2.
Proof.
  assert (E : ImportObsidian.processNote (js "vault/photos.md")
                Examples.vaultConfig Examples.vault
              = (Ok (mkNoteResult imported (js "photos.md") VUndefined
                       (Some (js "photos"))),
                 (ImportObsidian.processNote (js "vault/photos.md")
                    Examples.vaultConfig Examples.vault).2))
    by (vm_compute; reflexivity).
  split; [exact E|].
  exact (proj2 (proj1 (processNote_imported (js "vault/photos.md")
                         Examples.vaultConfig Examples.vault _)
                  _ E eq_refl)).
Defined.

Lemma processNote_rejects_witness :
  ImportObsidian.processNote (js "vault/undated.md") Examples.vaultConfig
    Examples.undatedVault
  = (Ok (mkNoteResult error_ (js "undated.md")
           (VStr (js "frontmatter validation failed: description (missing), date (missing)"))
           None),
     Examples.undatedVault).
Proof.
  apply (processNote_rejects (js "vault/undated.md") Examples.vaultConfig
           Examples.undatedVault Examples.undatedVault
           (FrontmatterCodec.parseFrontmatter Examples.undatedNote).1
           (FrontmatterCodec.parseFrontmatter Examples.undatedNote).2);
    vm_compute; reflexivity.
Defined.

(** ** Copies that fail, and the note *)

Section FailingCopies.
Context `{Host} {W : Type} `{FileSystem W}.

(** C3.  In the relocator of obsidian-image-utils.mjs a copy whose source
    file does not exist gives a [success: false] result and leaves the
    world as it is, and an error of the copy itself is thrown by
    [copyImage].  Its [processImages] runs the copies of all the matched
    names as the specification words them: one outcome per image, whatever
    the images before it gave; when no copy throws it returns the results,
    the failed ones among them, and when one throws, the first thrown error
    is the outcome of [processImages], not a [success: false] result.
    The relocator the notes go through is the one of
    import-obsidian-utils.mjs, and there no error of a copy propagates:
    once the assets directory is made, [processImages] fulfils with the
    results of the copies, an error of a copy being a [success: false]
    result with its message; and the entry of a note with images does not
    depend on what the copies gave, it says [imported] or [error] as
    building and writing [index.mdx] go. *)
Theorem copy_failures (text sourceDir destDir : jsstring) :
  let assetsDir := pathJoin destDir (js "assets") in
  (forall src dst o n (w : W),
     pathExists src w = false ->
     ImageUtils.copyImage src dst o n w
     = (Ok (mkCopyResult false o None (VStr (js "missing"))), w))
  /\ (forall src dst o n (w w' : W) e,
        pathExists src w = true -> copy src dst w = (Throw e, w') ->
        ImageUtils.copyImage src dst o n w = (Throw e, w'))
  /\ (forall (w w1 : W),
        let matches := ImageUtils.OBSIDIAN_IMAGE_REGEX text in
        let copies :=
          Spec.strictCopies sourceDir assetsDir (map snd matches) w1 in
        matches <> [] -> ensureDir assetsDir w = (Ok tt, w1) ->
        length copies.1 = length matches
        /\ (forall vs,
              copies.1 = map Ok vs ->
              exists updated,
                ImageUtils.processImages text sourceDir destDir w
                = (Ok (mkImagesResult updated vs), copies.2))
        /\ (forall pre e post,
              copies.1 = map Ok pre ++ Throw e :: post ->
              ImageUtils.processImages text sourceDir destDir w
              = (Throw e, copies.2)))
  /\ (forall (w w1 : W),
        let matches := ImportUtils.OBSIDIAN_IMAGE_REGEX text in
        let copies :=
          Spec.lenientCopies sourceDir assetsDir (map snd matches) w1 in
        matches <> [] -> ensureDir assetsDir w = (Ok tt, w1) ->
        length copies.1 = length matches
        /\ ImportUtils.processImages text sourceDir destDir w
           = (Ok (mkImagesResult
                    (ImportUtils.replaceAllRefs (combine matches copies.1)
                       text)
                    copies.1),
              copies.2))
  /\ (forall filePath cfg fm body (w w1 w2 w3 : W),
        let filename := NodePath.basename1 filePath in
        let slug := ImportUtils.slugify (ImportUtils.getBasename filePath) in
        let dir := pathJoin (targetDir cfg) slug in
        let matches := ImportUtils.OBSIDIAN_IMAGE_REGEX body in
        let copies :=
          Spec.lenientCopies (sourceAttachmentDir cfg)
            (pathJoin dir (js "assets")) (map snd matches) w3 in
        let failed e := mkNoteResult error_ filename (exnMessage e) None in
        ImportObsidian.readNoteFile filePath w = (Ok (fm, body), w1) ->
        ImportUtils.getSkipReason fm = None ->
        ImportUtils.validateFrontmatter fm = None ->
        ensureDir dir w1 = (Ok tt, w2) ->
        matches <> [] ->
        ensureDir (pathJoin dir (js "assets")) w2 = (Ok tt, w3) ->
        ImportObsidian.processNote filePath cfg w
        = match
            ImportUtils.buildMdxContent
              (ImportUtils.replaceAllRefs (combine matches copies.1) body)
              (ImportUtils.parseObsidianFrontMatter fm filePath
                 ImportUtils.getBasename)
          with
          | Throw e => (Ok (failed e), copies.2)
          | Ok mdx =>
              match writeFile (pathJoin dir (js "index.mdx")) mdx copies.2
              with
              | (Ok _, w4) =>
                  (Ok (mkNoteResult imported filename VUndefined (Some slug)),
                   w4)
              | (Throw e, w4) => (Ok (failed e), w4)
              end
          end).
Proof.
  intros assetsDir.
  split; [intros; now apply copyImage_missing|].
  split; [intros; now apply copyImage_io_error|].
  split; [|split].
  - intros w w1 matches copies Hne Hdir.
    pose proof (first_processImages_copies text sourceDir destDir w w1
                  Hne Hdir) as E.
    cbv zeta in E. fold assetsDir in E. fold matches in E. fold copies in E.
    split; [|split].
    + unfold copies. now rewrite strictCopies_length, length_map.
    + intros vs Hvs. rewrite Hvs, allFulfilled_all in E. eauto.
    + intros pre e post Hrs.
      now rewrite Hrs, allFulfilled_first_throw in E.
  - intros w w1 matches copies Hne Hdir. split.
    + unfold copies. now rewrite lenientCopies_length, length_map.
    + now apply import_processImages_copies.
  - intros filePath cfg fm body w w1 w2 w3 filename slug dir matches copies
      failed Eread Eskip Evalid Edir Hne Eassets.
    unfold ImportObsidian.processNote, tryCatch, bind.
    rewrite Eread, Eskip, Evalid. fold slug. fold dir. rewrite Edir.
    rewrite (import_processImages_copies body (sourceAttachmentDir cfg)
               dir w2 w3 Hne Eassets).
    fold matches. fold copies. cbn [content]. unfold lift.
    destruct (ImportUtils.buildMdxContent _ _) as [mdx|e]; [|reflexivity].
    unfold ImportObsidian.writeMdxFile. fold dir.
    destruct (writeFile _ mdx copies.2) as [[[]|e] w4]; reflexivity.
Qed.

End FailingCopies.

(** C3, as the claim states it, fails for the notes: with the place of the
    first image locked, the copy fails with EACCES, the relocator of the
    import returns a [success: false] result with the message of the error
    next to the one of the missing image, and the note is imported. *)
Lemma copy_error_keeps_note :
  (ImportObsidian.processNote (js "vault/photos.md") Examples.vaultConfig
     Examples.lockedVault).1
  = Ok (mkNoteResult imported (js "photos.md") VUndefined
          (Some (js "photos")))
  /\ map (fun r => (success r, error r))
       match (ImportUtils.processImages
                (js "![[My Photo.PNG]] and ![[Lost.png]]")
                (js "att") (js "blog/photos") Examples.lockedVault).1 with
       | Ok r => results r
       | Throw _ => []
       end
     = [(false,
         VStr (js "EACCES: permission denied, blog/photos/assets/my-photo.PNG"));
        (false, VUndefined)].
Proof. vm_compute. split; reflexivity. Qed.

(** ** The same for the first version of the relocator *)

Lemma trimEnd_split (m : jsstring) :
  exists ws,
    m = trimEnd m ++ ws /\ Forall (fun c => isSpace c = true) ws
    /\ startsSolid (rev (trimEnd m)).
Proof.
  unfold trimEnd. exists (rev (takeWhile isSpace (rev m))). repeat split.
  - rewrite <- rev_app_distr, takeWhile_dropWhile. now rewrite rev_involutive.
  - apply List.Forall_rev, takeWhile_Forall.
  - rewrite rev_involutive.
    destruct (dropWhile isSpace (rev m)) as [|c d] eqn:E; [exact I|].
    simpl. now apply dropWhile_head in E.
Qed.

Lemma closes_after_solid (l z : jsstring) :
  Forall (fun c => c <> "]") l ->
  Exists (fun c => isSpace c = false) l ->
  startsWith (js "]]") (dropWhile isSpace (l ++ z)) = false.
Proof.
  intros Hl Hex. induction l as [|c l IH]; [inversion Hex|].
  inversion Hl as [|? ? Hc Hl']; subst. rewrite <- app_comm_cons.
  change (dropWhile isSpace (c :: l ++ z))
    with (if isSpace c then dropWhile isSpace (l ++ z) else c :: l ++ z).
  destruct (isSpace c) eqn:Es.
  - apply IH; [exact Hl'|]. inversion Hex; subst; [congruence|assumption].
  - change (startsWith (js "]]") (c :: l ++ z))
      with (eqc "]" c && startsWith (js "]") (l ++ z)).
    destruct (eqc "]" c) eqn:E; [|reflexivity].
    apply eqc_true in E. congruence.
Qed.

Lemma solid_end_exists (core : jsstring) :
  core <> [] -> startsSolid (rev core) ->
  Exists (fun c => isSpace c = false) core.
Proof.
  intros Hne Hs. destruct (rev core) as [|c r] eqn:E.
  - apply (f_equal (@rev _)) in E. rewrite rev_involutive in E. done.
  - apply (f_equal (@rev _)) in E. rewrite rev_involutive in E.
    rewrite E. simpl. apply Exists_app. right. now constructor.
Qed.

Lemma lazyGroup_unfold (s : jsstring) :
  ImageUtils.lazyGroup s
  = if startsWith (js "]]") (dropWhile isSpace s)
    then Some ([], drop 2 (dropWhile isSpace s))
    else match s with
         | [] => None
         | c :: t =>
             if isLineTerminator c then None
             else match ImageUtils.lazyGroup t with
                  | Some (g, rest) => Some (c :: g, rest)
                  | None => None
                  end
         end.
Proof. destruct s; reflexivity. Qed.

Lemma lazyGroup_core (core ws y : jsstring) :
  Forall (fun c => c <> "]" /\ isLineTerminator c = false) core ->
  startsSolid (rev core) ->
  Forall (fun c => isSpace c = true) ws ->
  ImageUtils.lazyGroup (core ++ ws ++ "]" :: "]" :: y) = Some (core, y).
Proof.
  intros Hcore Hend Hws. induction core as [|c core IH].
  - rewrite app_nil_l, lazyGroup_unfold.
    rewrite (dropWhile_app_all isSpace ws _ Hws).
    reflexivity.
  - inversion Hcore as [|? ? [Hc Hlt] Hcore']; subst.
    assert (Hclose :
              startsWith (js "]]")
                (dropWhile isSpace ((c :: core) ++ ws ++ "]" :: "]" :: y))
              = false).
    { apply closes_after_solid.
      - eapply Forall_impl; [exact Hcore|]. now intros x [Hx _].
      - apply solid_end_exists; [discriminate | exact Hend]. }
    rewrite lazyGroup_unfold, Hclose. rewrite <- app_comm_cons.
    rewrite Hlt, IH; [reflexivity|exact Hcore'|].
    destruct core as [|c2 core]; [exact I|].
    simpl in Hend. simpl.
    destruct (rev core ++ [c2]) as [|x r] eqn:E;
      [now destruct (rev core)|].
    exact Hend.
Qed.

Lemma lazyGroup_name (n y : jsstring) :
  Forall (fun c => c <> "]" /\ isLineTerminator c = false) n ->
  ImageUtils.lazyGroup (dropWhile isSpace (n ++ "]" :: "]" :: y))
  = Some (trim n, y).
Proof.
  intros Hn. rewrite (dropWhile_app_solid isSpace n ("]" :: y) "]") by reflexivity.
  change (trim n) with (trimEnd (dropWhile isSpace n)).
  assert (Hm : Forall (fun c => c <> "]" /\ isLineTerminator c = false)
                 (dropWhile isSpace n)) by now apply dropWhile_Forall.
  destruct (trimEnd_split (dropWhile isSpace n)) as (ws & Hsplit & Hws & Hend).
  set (core := trimEnd (dropWhile isSpace n)) in *.
  rewrite Hsplit, <- app_assoc.
  apply lazyGroup_core; [|exact Hend|exact Hws].
  rewrite Hsplit in Hm. now apply Forall_app in Hm as [Hm _].
Qed.

Lemma image_tokenAt_token (n y : jsstring) :
  Forall (fun c => c <> "]" /\ isLineTerminator c = false) n ->
  ImageUtils.imageTokenAt (js "![[" ++ n ++ js "]]" ++ y)
  = Some (js "![[" ++ n ++ js "]]", trim n).
Proof.
  intros Hn. unfold ImageUtils.imageTokenAt.
  rewrite startsWith_app.
  change (drop 3 (js "![[" ++ n ++ js "]]" ++ y)) with (n ++ "]" :: "]" :: y).
  rewrite (lazyGroup_name n y Hn). f_equal. f_equal.
  replace (js "![[" ++ n ++ js "]]" ++ y)
    with ((js "![[" ++ n ++ js "]]") ++ y) by now rewrite <- !app_assoc.
  rewrite length_app.
  replace (length (js "![[" ++ n ++ js "]]") + length y - length y)
    with (length (js "![[" ++ n ++ js "]]")) by lia.
  apply take_app_length.
Qed.

Lemma image_matchAll_token (n y : jsstring) :
  Forall (fun c => c <> "]" /\ isLineTerminator c = false) n ->
  matchAll ImageUtils.imageTokenAt 0 (js "![[" ++ n ++ js "]]" ++ y)
  = (js "![[" ++ n ++ js "]]", trim n)
      :: matchAll ImageUtils.imageTokenAt 0 y.
Proof.
  intros Hn.
  change (matchAll ImageUtils.imageTokenAt 0 (js "![[" ++ n ++ js "]]" ++ y))
    with (match ImageUtils.imageTokenAt (js "![[" ++ n ++ js "]]" ++ y) with
          | Some (whole, group) =>
              (whole, group)
                :: matchAll ImageUtils.imageTokenAt (length whole - 1)
                     (js "[[" ++ n ++ js "]]" ++ y)
          | None => matchAll ImageUtils.imageTokenAt 0
                      (js "[[" ++ n ++ js "]]" ++ y)
          end).
  rewrite image_tokenAt_token by assumption. f_equal.
  replace (length (js "![[" ++ n ++ js "]]") - 1)
    with (length (js "[[" ++ n ++ js "]]")) by (simpl; lia).
  replace (js "[[" ++ n ++ js "]]" ++ y)
    with ((js "[[" ++ n ++ js "]]") ++ y) by now rewrite <- !app_assoc.
  apply matchAll_skip.
Qed.

Lemma plain_oneLine_chars (n : jsstring) :
  plainName n = true -> oneLine n = true ->
  Forall (fun c => c <> "]" /\ isLineTerminator c = false) n.
Proof.
  intros [_ Hp]%plainName_chars Hl. apply List.Forall_forall. intros c Hc.
  rewrite List.Forall_forall in Hp. destruct (Hp c Hc) as (_ & Hb & _).
  split; [exact Hb|]. unfold oneLine in Hl. rewrite forallb_forall in Hl.
  now apply negb_true_iff, Hl.
Qed.

Lemma image_matchAll_withTokens (segs : list (jsstring * jsstring))
  (last : jsstring) :
  forallb plainSegment segs = true ->
  forallb (fun seg => oneLine seg.2) segs = true ->
  tokenFree last = true ->
  ImageUtils.OBSIDIAN_IMAGE_REGEX (withTokens segs last)
  = map (fun seg => (js "![[" ++ seg.2 ++ js "]]", trim seg.2)) segs.
Proof.
  intros Hsegs Hlines Hlast. unfold ImageUtils.OBSIDIAN_IMAGE_REGEX.
  induction segs as [|[g n] segs IH].
  - simpl. rewrite <- (app_nil_r last).
    rewrite matchAll_gap;
      [reflexivity | exact image_token_opens | now apply opensNoToken_end].
  - rewrite withTokens_cons.
    simpl in Hsegs. apply andb_true_iff in Hsegs as [Hseg Hsegs].
    simpl in Hlines. apply andb_true_iff in Hlines as [Hline Hlines].
    apply andb_true_iff in Hseg as [Hg Hn]. cbn [fst snd] in *.
    specialize (IH Hsegs Hlines).
    rewrite matchAll_gap;
      [| exact image_token_opens | now apply opensNoToken_gap].
    rewrite image_matchAll_token by now apply plain_oneLine_chars.
    rewrite map_cons. f_equal. exact IH.
Qed.

Section FirstRelocator.
Context `{Host} {W : Type} `{FileSystem W}.

Lemma imageLoop_cons (sourceDir assetsDir : jsstring)
  (m : jsstring * jsstring) (rest : list (jsstring * jsstring))
  (updated : jsstring) :
  (ImageUtils.imageLoop sourceDir assetsDir (m :: rest) updated).2
  = (ImageUtils.imageLoop sourceDir assetsDir rest
       (replaceFirst m.1 (markdownRef (ImageUtils.normalizeImageName m.2))
          updated)).2.
Proof.
  cbn [ImageUtils.imageLoop].
  now destruct (ImageUtils.imageLoop sourceDir assetsDir rest _).
Qed.

Lemma imageLoop_withTokens (sourceDir assetsDir : jsstring)
  (segs : list (jsstring * jsstring)) (last : jsstring) :
  forallb plainSegment segs = true ->
  forall d : jsstring,
    opensNoToken d (withTokens segs last) ->
    (ImageUtils.imageLoop sourceDir assetsDir
       (map (fun seg => (js "![[" ++ seg.2 ++ js "]]", trim seg.2)) segs)
       (d ++ withTokens segs last)).2
    = d ++ withRefs segs last.
Proof.
  induction segs as [|[g n] segs IH]; intros Hsegs d Hd.
  - reflexivity.
  - simpl in Hsegs. apply andb_true_iff in Hsegs as [Hseg Hsegs].
    apply andb_true_iff in Hseg as [Hg Hn]. specialize (IH Hsegs).
    cbn [fst snd] in *.
    rewrite withTokens_cons in *. rewrite withRefs_cons.
    rewrite map_cons, imageLoop_cons. cbn [fst snd].
    change (ImageUtils.normalizeImageName (trim n))
      with (ImportUtils.normalizeImageName (trim n)).
    set (ref := markdownRef (ImportUtils.normalizeImageName (trim n))).
    set (rest := withTokens segs last) in *.
    assert (Hdg : opensNoToken (d ++ g) (js "![[" ++ n ++ js "]]" ++ rest)).
    { apply opensNoToken_app; [exact Hd|]. now apply opensNoToken_gap. }
    rewrite (app_assoc d g).
    rewrite replaceFirst_token; [|exact Hdg|now apply plainName_ref].
    rewrite (app_assoc (d ++ g) ref rest).
    rewrite IH; [now rewrite <- !app_assoc|].
    apply opensNoToken_app.
    + unfold ref. rewrite markdownRef_shape.
      eapply opensNoToken_bang. exact Hdg.
    + apply opensNoToken_ref.
      eapply Forall_impl; [apply (plainName_normalized n Hn)|].
      now intros c [Hc _].
Qed.

(** In a note whose image names are on one line and have no bracket and no
    dollar sign, the first version of [processImages] too replaces every
    token by the reference to the normalized name: when the copies settle
    without error the content it returns is the text with the references,
    and when a copy throws it rejects with that error. *)
Theorem image_processImages_rewrites (segs : list (jsstring * jsstring))
  (last sourceDir destDir : jsstring) (w w1 : W) :
  segs <> [] ->
  forallb plainSegment segs = true ->
  forallb (fun seg => oneLine seg.2) segs = true ->
  tokenFree last = true ->
  ensureDir (pathJoin destDir (js "assets")) w = (Ok tt, w1) ->
  let tasks :=
    map (fun seg =>
           ImageUtils.imageTask sourceDir (pathJoin destDir (js "assets"))
             (js "![[" ++ seg.2 ++ js "]]", trim seg.2))
      segs in
  ImageUtils.processImages (withTokens segs last) sourceDir destDir w
  = match promiseAll tasks w1 with
    | (Ok rs, w2) => (Ok (mkImagesResult (withRefs segs last) rs), w2)
    | (Throw e, w2) => (Throw e, w2)
    end.
Proof.
  intros Hne Hsegs Hlines Hlast Hdir tasks.
  unfold ImageUtils.processImages.
  rewrite (image_matchAll_withTokens segs last Hsegs Hlines Hlast).
  set (matches :=
         map (fun seg => (js "![[" ++ seg.2 ++ js "]]", trim seg.2)) segs).
  assert (Hm : matches <> []) by (subst matches; now destruct segs).
  pose proof (imageLoop_tasks sourceDir (pathJoin destDir (js "assets"))
                matches (withTokens segs last)) as Htasks.
  pose proof (imageLoop_withTokens sourceDir (pathJoin destDir (js "assets"))
                segs last Hsegs [] (opensNoToken_nil _)) as Hfinal.
  fold matches in Hfinal. rewrite !app_nil_l in Hfinal.
  destruct matches as [|m ms] eqn:Em; [done|]. rewrite <- Em in *.
  unfold bind. rewrite Hdir.
  destruct (ImageUtils.imageLoop sourceDir (pathJoin destDir (js "assets"))
              matches (withTokens segs last)) as [imageTasks updated].
  cbn [fst snd] in Htasks, Hfinal. subst imageTasks updated.
  replace (map (ImageUtils.imageTask sourceDir
                  (pathJoin destDir (js "assets"))) matches)
    with tasks by (unfold tasks; rewrite Em; subst matches;
                   now rewrite <- Em, map_map).
  unfold ret. now destruct (promiseAll tasks w1) as [[rs|e] w2].
Qed.

End FirstRelocator.

Lemma image_processImages_rewrites_witness :
  ImageUtils.processImages (withTokens Examples.twoPhotos (js "."))
    (js "att") (js "blog/photos") Examples.vault
  = match promiseAll
            (map (fun seg =>
                    ImageUtils.imageTask (js "att")
                      (pathJoin (js "blog/photos") (js "assets"))
                      (js "![[" ++ seg.2 ++ js "]]", trim seg.2))
               Examples.twoPhotos)
            Examples.vault with
    | (Ok rs, w2) =>
        (Ok (mkImagesResult (withRefs Examples.twoPhotos (js ".")) rs), w2)
    | (Throw e, w2) => (Throw e, w2)
    end.
Proof.
  apply (image_processImages_rewrites Examples.twoPhotos (js ".")
           (js "att") (js "blog/photos") Examples.vault Examples.vault);
    [discriminate | reflexivity | reflexivity | reflexivity | reflexivity].
Defined.

(** ** The environment and the run of the import *)

Lemma envValue_truthy (env : gmap jsstring jsstring) (key : jsstring) :
  truthy (ImportEnvironment.envValue env key) = true
  <-> exists text, env !! key = Some text /\ text <> [].
Proof.
  unfold ImportEnvironment.envValue.
  destruct (env !! key) as [[|c t]|]; cbn.
  - split; [discriminate | intros (text & [= <-] & Hne); done].
  - split; [eauto | reflexivity].
  - split; [discriminate | intros (text & E & _); discriminate].
Qed.

(** [validateEnvironment] passes exactly when the three variables are set
    to non-empty values, and then [getEnvConfig] gives the configuration
    with these three values; when it throws, the message lists the
    variables that are missing, in the order SOURCE_MARKDOWN_DIR,
    SOURCE_ATTACHMENT_DIR, TARGET_DIR. *)
Theorem validateEnvironment_passes (env : gmap jsstring jsstring) :
  (ImportEnvironment.validateEnvironment env = Ok tt
   <-> Forall (fun key => exists text, env !! key = Some text /\ text <> [])
         ImportEnvironment.required)
  /\ (ImportEnvironment.validateEnvironment env = Ok tt ->
      exists cfg,
        ImportEnvironment.getEnvConfig env = Some cfg
        /\ sourceMarkdownDir cfg <> [] /\ sourceAttachmentDir cfg <> []
        /\ targetDir cfg <> []
        /\ env !! js "SOURCE_MARKDOWN_DIR" = Some (sourceMarkdownDir cfg)
        /\ env !! js "SOURCE_ATTACHMENT_DIR" = Some (sourceAttachmentDir cfg)
        /\ env !! js "TARGET_DIR" = Some (targetDir cfg))
  /\ (forall e,
        ImportEnvironment.validateEnvironment env = Throw e ->
        exists missing,
          missing <> []
          /\ missing
             = List.filter
                 (fun key =>
                    negb (truthy (ImportEnvironment.envValue env key)))
                 ImportEnvironment.required
          /\ e = Error (js "missing required environment variables: "
                          ++ join (js ", ") missing)).
Proof.
  assert (Hiff :
            ImportEnvironment.validateEnvironment env = Ok tt
            <-> Forall (fun key => truthy (ImportEnvironment.envValue env key)
                                   = true)
                  ImportEnvironment.required).
  { unfold ImportEnvironment.validateEnvironment.
    set (unset := fun key =>
                    negb (truthy (ImportEnvironment.envValue env key))).
    split.
    - intros E. apply List.Forall_forall. intros key Hkey.
      destruct (truthy (ImportEnvironment.envValue env key)) eqn:Ek;
        [reflexivity|].
      assert (Hin : In key (List.filter unset ImportEnvironment.required)).
      { apply List.filter_In. split; [exact Hkey|].
        unfold unset. now rewrite Ek. }
      destruct (List.filter unset ImportEnvironment.required);
        [destruct Hin | discriminate E].
    - intros Hall.
      assert (Hnone : List.filter unset ImportEnvironment.required = []).
      { induction Hall as [|key keys Hk _ IH]; [reflexivity|].
        cbn [List.filter]. unfold unset at 1. now rewrite Hk. }
      now rewrite Hnone. }
  split; [|split].
  - rewrite Hiff. split; intros Hall; eapply Forall_impl; try exact Hall;
      intros key; apply envValue_truthy.
  - intros Hok. apply Hiff in Hok.
    inversion Hok as [|? ? H1 Hok1]; subst.
    inversion Hok1 as [|? ? H2 Hok2]; subst.
    inversion Hok2 as [|? ? H3 _]; subst.
    apply envValue_truthy in H1 as (a & Ea & Ha).
    apply envValue_truthy in H2 as (b & Eb & Hb).
    apply envValue_truthy in H3 as (c & Ec & Hc).
    assert (Ea' : env !! js "SOURCE_MARKDOWN_DIR" = Some a) by exact Ea.
    assert (Eb' : env !! js "SOURCE_ATTACHMENT_DIR" = Some b) by exact Eb.
    assert (Ec' : env !! js "TARGET_DIR" = Some c) by exact Ec.
    exists (mkConfig a b c). unfold ImportEnvironment.getEnvConfig.
    rewrite Ea', Eb', Ec'. repeat split; assumption.
  - intros e. unfold ImportEnvironment.validateEnvironment.
    destruct (List.filter _ ImportEnvironment.required) as [|k ks] eqn:Em;
      [discriminate|].
    cbn [length Nat.ltb Nat.leb]. intros [= <-].
    exists (k :: ks). repeat split. discriminate.
Qed.

Section ImportRun.
Context `{Host} {W : Type} `{FileSystem W} `{Directory W}.

Lemma processNote_entry (filePath : jsstring) (cfg : config) (w w' : W)
  (r : result noteResult) :
  ImportObsidian.processNote filePath cfg w = (r, w') ->
  exists v, r = Ok v /\ noteFilename v = NodePath.basename1 filePath.
Proof.
  unfold ImportObsidian.processNote, tryCatch.
  match goal with |- context [match ?m w with _ => _ end] =>
    destruct (m w) as [[v|e] w1] eqn:E end.
  - intros [= <- <-]. exists v. split; [reflexivity|].
    unfold bind in E.
    destruct (ImportObsidian.readNoteFile filePath w) as [[[fm body]|e] w2];
      [|discriminate].
    destruct (ImportUtils.getSkipReason fm);
      [injection E as <- _; reflexivity|].
    destruct (ImportUtils.validateFrontmatter fm);
      [injection E as <- _; reflexivity|].
    repeat match type of E with
           | context [match ?m ?x with _ => _ end] =>
               destruct (m x) as [[?|?] ?]; try discriminate
           | context [lift ?r ?x] =>
               unfold lift in E; destruct r; try discriminate
           end.
    unfold ret in E. injection E as <- _. reflexivity.
  - unfold ret. intros [= <- <-]. eexists. split; reflexivity.
Qed.

(** The entries of a batch run, as the entries of the notes settled one
    after the other. *)
Lemma processFiles_flat (fuel : nat) (files : list jsstring) (cfg : config)
  (concurrency : nat) (w : W) :
  0 < concurrency -> length files <= fuel ->
  let paths := map (fun file => pathJoin (sourceMarkdownDir cfg) file) files in
  let settled :=
    settleAll (map (fun p => ImportObsidian.processNote p cfg) paths) w in
  ImportObsidian.processFilesInParallel fuel files cfg concurrency w
  = (Some (ImportObsidian.collect paths settled.1), settled.2).
Proof.
  intros Hc Hfuel paths settled.
  assert (Hlen : length paths = length files) by apply length_map.
  pose proof (batchLoop_windows ImportObsidian.processNote cfg paths
                concurrency Hc fuel 0 [] w) as Hloop.
  rewrite drop_0 in Hloop. specialize (Hloop ltac:(lia)).
  rewrite windows_fuel in Hloop by lia. simpl app in Hloop.
  assert (Hcat : concat (Spec.windowsOf concurrency paths) = paths)
    by (apply windows_concat; lia).
  destruct (runWindows_flat ImportObsidian.processNote cfg
              (Spec.windowsOf concurrency paths) w) as [Hflat Hworld].
  rewrite Hcat in Hflat, Hworld. fold settled in Hflat, Hworld.
  unfold ImportObsidian.processFilesInParallel,
    ImportObsidian.processFilesWith. fold paths.
  now rewrite Hloop, Hflat, Hworld.
Qed.

(** [run] ends the process with code 1 when the environment is not valid
    (before anything is read) and when the source directory cannot be
    listed; it returns without processing anything when the directory has
    no Markdown file; otherwise it processes the Markdown files of the
    directory, and only these: the entries it logs are one per Markdown
    file, in the order of the directory, each with the name of its file. *)
Theorem run_imports_markdown (fuel : nat) (env : gmap jsstring jsstring)
  (w : W) :
  (forall e,
     ImportEnvironment.validateEnvironment env = Throw e ->
     ImportObsidian.run_ fuel env w = (Some (exited 1), w))
  /\ (forall cfg,
        ImportEnvironment.validateEnvironment env = Ok tt ->
        ImportEnvironment.getEnvConfig env = Some cfg ->
        (forall e w1,
           readdir (sourceMarkdownDir cfg) w = (Throw e, w1) ->
           ImportObsidian.run_ fuel env w = (Some (exited 1), w1))
        /\ (forall files w1,
              readdir (sourceMarkdownDir cfg) w = (Ok files, w1) ->
              let markdownFiles :=
                List.filter ImportEnvironment.isMarkdownFile files in
              let paths :=
                map (fun file => pathJoin (sourceMarkdownDir cfg) file)
                  markdownFiles in
              let settled :=
                settleAll
                  (map (fun p => ImportObsidian.processNote p cfg) paths)
                  w1 in
              (markdownFiles = [] ->
               ImportObsidian.run_ fuel env w = (Some (returned None), w1))
              /\ (markdownFiles <> [] -> length markdownFiles <= fuel ->
                  exists results,
                    ImportObsidian.run_ fuel env w
                    = (Some (returned (Some results)), settled.2)
                    /\ length results = length markdownFiles
                    /\ forall i p,
                         paths !! i = Some p ->
                         exists r,
                           results !! i = Some r
                           /\ noteFilename r = NodePath.basename1 p))).
Proof.
  split.
  - intros e He. unfold ImportObsidian.run_. now rewrite He.
  - intros cfg Hok Hcfg. split.
    + intros e w1 Hdir. unfold ImportObsidian.run_.
      now rewrite Hok, Hcfg, Hdir.
    + intros files w1 Hdir markdownFiles paths settled. split.
      * intros Hnone. unfold ImportObsidian.run_.
        rewrite Hok, Hcfg, Hdir. fold markdownFiles. now rewrite Hnone.
      * intros Hsome Hfuel.
        exists (ImportObsidian.collect paths settled.1).
        assert (Hlen : length settled.1 = length paths).
        { unfold settled. now rewrite settleAll_length, length_map. }
        split; [|split].
        -- unfold ImportObsidian.run_. rewrite Hok, Hcfg, Hdir.
           fold markdownFiles.
           assert (Hz : (length markdownFiles =? 0)%nat = false).
           { apply Nat.eqb_neq. intros E. now apply Hsome, nil_length_inv. }
           rewrite Hz.
           rewrite (processFiles_flat fuel markdownFiles cfg 8 w1)
             by (try lia; exact Hfuel).
           reflexivity.
        -- rewrite collect_length by exact Hlen.
           unfold paths. apply length_map.
        -- intros i p Hp.
           assert (Hi : i < length settled.1).
           { rewrite Hlen. now apply lookup_lt_Some in Hp. }
           apply lookup_lt_is_Some in Hi as [r Hr].
           pose proof (settleAll_each
                         (map (fun p => ImportObsidian.processNote p cfg)
                            paths) w1) as Heach.
           fold settled in Heach.
           assert (Ht : map (fun p => ImportObsidian.processNote p cfg) paths
                        !! i = Some (ImportObsidian.processNote p cfg)).
           { rewrite list_lookup_fmap. now rewrite Hp. }
           destruct (Forall2_lookup_lr _ _ _ _ _ _ Heach Ht Hr)
             as (wi & wi' & E).
           destruct (processNote_entry p cfg wi wi' r E) as (v & -> & Hv).
           exists v. split; [|exact Hv].
           now rewrite (collect_lookup paths settled.1 i p (Ok v) Hp Hr).
Qed.

End ImportRun.

(** In the example vault, which holds two notes and a text file, [run]
    gives the entries of the two notes. *)
Lemma run_example :
  ImportEnvironment.validateEnvironment Examples.vaultEnv = Ok tt
  /\ ImportEnvironment.getEnvConfig Examples.vaultEnv
     = Some Examples.vaultConfig
  /\ match (ImportObsidian.run_ 4 Examples.vaultEnv Examples.mixedVault).1
     with
     | Some (returned (Some results)) =>
         Permutation (map (fun r => (noteFilename r, noteStatus r)) results)
           [(js "draft.md", skipped); (js "photos.md", imported)]
     | _ => False
     end
  /\ (ImportObsidian.run_ 4 (delete (js "TARGET_DIR") Examples.vaultEnv)
        Examples.mixedVault)
     = (Some (exited 1), Examples.mixedVault).
Proof.
  split; [reflexivity|]. split; [reflexivity|]. split.
  - vm_compute. first [reflexivity | apply perm_swap].
  - vm_compute. reflexivity.
Qed.

(** ** The entries of a batch, and the date of an imported note *)

Section BatchEntries.
Context `{Host} {W : Type} `{FileSystem W}.

(** Since [processNote] never rejects, every entry [processFilesInParallel]
    returns is the entry a call of [processNote] on the file fulfilled
    with: one per file, in the order of the files, and none is made from a
    rejection. *)
Theorem processFilesInParallel_entries (fuel : nat) (files : list jsstring)
  (cfg : config) (concurrency : nat) (w : W) :
  0 < concurrency -> length files <= fuel ->
  exists results w',
    ImportObsidian.processFilesInParallel fuel files cfg concurrency w
    = (Some results, w')
    /\ Forall2
         (fun file r =>
            exists wi wi',
              ImportObsidian.processNote
                (pathJoin (sourceMarkdownDir cfg) file) cfg wi
              = (Ok r, wi'))
         files results.
Proof.
  intros Hc Hfuel.
  rewrite (processFiles_flat fuel files cfg concurrency w Hc Hfuel).
  eexists _, _. split; [reflexivity|].
  set (paths := map (fun file => pathJoin (sourceMarkdownDir cfg) file) files).
  pose proof (settleAll_each
                (map (fun p => ImportObsidian.processNote p cfg) paths) w)
    as Heach.
  destruct (settleAll _ w) as [settled w']. cbn [fst] in *.
  subst paths. clear Hfuel. revert settled Heach.
  induction files as [|f files IH]; intros settled Heach.
  - inversion Heach; subst. constructor.
  - rewrite !map_cons in Heach.
    inversion Heach as [|? r ? rs (wi & wi' & E) Hrest]; subst.
    destruct (processNote_entry _ cfg wi wi' r E) as (v & -> & _).
    rewrite map_cons.
    change (ImportObsidian.collect (?p :: ?ps) (Ok v :: rs))
      with (v :: ImportObsidian.collect ps rs).
    constructor; [eauto | now apply IH].
Qed.

(** On a runtime where an invalid [Date] is no valid date, the date of a
    note that passed [validateFrontmatter] never makes [buildMdxContent]
    throw: a [Date] is written as its day, every other date as it is, and
    the text is what gray-matter makes of the frontmatter with that
    date. *)
Theorem buildMdxContent_date (fm : frontmatter) (filename body : jsstring)
  (getBasename : jsstring -> jsstring) :
  validDate (VDate None) = false ->
  ImportUtils.validateFrontmatter fm = None ->
  let processed :=
    ImportUtils.parseObsidianFrontMatter fm filename getBasename in
  exists date,
    ImportUtils.formatDate (getField fm "date") = Ok date
    /\ date = match getField fm "date" with
              | VDate (Some t) => VStr (isoDay t)
              | other => other
              end
    /\ ImportUtils.buildMdxContent body processed
       = matterStringify body (setField processed "date" date).
Proof.
  intros Hinvalid Hvalid processed.
  apply validateFrontmatter_accepts in Hvalid as (_ & Ht & Hd).
  assert (Hdate : getField processed "date" = getField fm "date").
  { unfold processed, ImportUtils.parseObsidianFrontMatter.
    set (fm1 := if ImportUtils.keepsTitle (getField fm "title") then fm
                else setField fm "title" (VStr (getBasename filename))).
    assert (E1 : getField fm1 "date" = getField fm "date").
    { unfold fm1. destruct (ImportUtils.keepsTitle _); [reflexivity|].
      apply getField_setField_ne. distinct_keys. }
    destruct (getField (setField fm1 "tags" _) "tags");
      rewrite ?getField_setField_ne by distinct_keys; exact E1. }
  unfold ImportUtils.buildMdxContent. rewrite Hdate, Ht.
  destruct (getField fm "date") as [| |b|n| |s|items|[t|]|] eqn:E;
    cbn [ImportUtils.formatDate]; try (eexists; repeat split; reflexivity).
  congruence.
Qed.

End BatchEntries.

Lemma processFilesInParallel_entries_witness :
  exists results w',
    ImportObsidian.processFilesInParallel 3
      [js "draft.md"; js "photos.md"; js "gone.md"] Examples.vaultConfig 2
      Examples.vault
    = (Some results, w')
    /\ Forall2
         (fun file r =>
            exists wi wi',
              ImportObsidian.processNote
                (pathJoin (sourceMarkdownDir Examples.vaultConfig) file)
                Examples.vaultConfig wi
              = (Ok r, wi'))
         [js "draft.md"; js "photos.md"; js "gone.md"] results.
Proof.
  apply (processFilesInParallel_entries 3
           [js "draft.md"; js "photos.md"; js "gone.md"]
           Examples.vaultConfig 2 Examples.vault); simpl; lia.
Defined.

Lemma buildMdxContent_date_witness :
  exists date,
    ImportUtils.formatDate
      (getField (FrontmatterCodec.parseFrontmatter Examples.photoNote).1
         "date")
    = Ok date
    /\ date
       = match getField
                 (FrontmatterCodec.parseFrontmatter Examples.photoNote).1
                 "date" with
         | VDate (Some t) => VStr (isoDay t)
         | other => other
         end
    /\ ImportUtils.buildMdxContent (js "body")
         (ImportUtils.parseObsidianFrontMatter
            (FrontmatterCodec.parseFrontmatter Examples.photoNote).1
            (js "vault/photos.md") ImportUtils.getBasename)
       = matterStringify (js "body")
           (setField
              (ImportUtils.parseObsidianFrontMatter
                 (FrontmatterCodec.parseFrontmatter Examples.photoNote).1
                 (js "vault/photos.md") ImportUtils.getBasename)
              "date" date).
Proof.
  apply (buildMdxContent_date
           (FrontmatterCodec.parseFrontmatter Examples.photoNote).1
           (js "vault/photos.md") (js "body") ImportUtils.getBasename);
    vm_compute; reflexivity.
Defined.

(** ** Where an image lands *)

Lemma lowerHyphen_app_dot (b e : jsstring) :
  noSlash (Spec.lowerHyphen b ++ "." :: e) <-> noSlash (Spec.lowerHyphen b)
                                               /\ noSlash ("." :: e).
Proof. unfold noSlash. apply Forall_app. Qed.

(** The normalized name of an image never has a slash, so every image
    lands directly in the assets directory: for an image [name.ext] in a
    folder, the folder is dropped, the name is lower-cased with every run of
    whitespace turned into one hyphen, and the extension is kept as it is,
    upper case included. *)
Theorem normalizeImageName_flat (dir name ext : jsstring) :
  (forall p, noSlash (ImportUtils.normalizeImageName p)
             /\ ImageUtils.normalizeImageName p
                = ImportUtils.normalizeImageName p)
  /\ (dir = [] \/ endsWith (js "/") dir = true ->
      name <> [] -> noSlash name -> ext <> [] -> noSlash ext -> noDot ext ->
      ImportUtils.normalizeImageName (dir ++ name ++ "." :: ext)
      = Spec.lowerHyphen name ++ "." :: ext).
Proof.
  split.
  - intros p. split; [|reflexivity].
    change (ImportUtils.normalizeImageName p)
      with (Spec.lowerHyphen (NodePath.basename p (NodePath.extname p))
              ++ NodePath.extname p).
    pose proof (lastSegment_noSlash p) as Hseg.
    destruct (extname_cases p) as [[-> ->]|(b & e & Hs & _ & _ & _ & -> & ->)].
    + rewrite app_nil_r. now apply lowerHyphen_noSlash.
    + rewrite Hs in Hseg. unfold noSlash in Hseg.
      apply Forall_app in Hseg as [Hb He].
      apply lowerHyphen_app_dot. split; [|exact He].
      now apply lowerHyphen_noSlash.
  - intros Hdir Hne Hname Hext Hslash Hdot.
    change (ImportUtils.normalizeImageName (dir ++ name ++ "." :: ext))
      with (Spec.lowerHyphen
              (NodePath.basename (dir ++ name ++ "." :: ext)
                 (NodePath.extname (dir ++ name ++ "." :: ext)))
              ++ NodePath.extname (dir ++ name ++ "." :: ext)).
    assert (Hseg : NodePath.lastSegment (dir ++ name ++ "." :: ext)
                   = name ++ "." :: ext).
    { apply lastSegment_in_dir; [exact Hdir | now destruct name |].
      apply noSlash_app; [exact Hname|].
      constructor; [reflexivity | exact Hslash]. }
    assert (Hx : NodePath.extname (dir ++ name ++ "." :: ext) = "." :: ext).
    { unfold NodePath.extname. rewrite Hseg.
      rewrite (segmentExt_split name ext Hdot).
      destruct name as [|c name]; [done|].
      destruct (eqs ((c :: name) ++ "." :: ext) (js "..")) eqn:E;
        [|reflexivity].
      apply eqs_true in E. exfalso.
      apply (f_equal (@length _)) in E. rewrite length_app in E.
      destruct ext; [done | simpl in E; lia]. }
    destruct (extname_cases (dir ++ name ++ "." :: ext))
      as [[E _]|(b & e & Hs & He & _ & _ & Hx' & Hb)].
    + rewrite Hx in E. discriminate E.
    + rewrite Hb, Hx. rewrite Hx in Hx'. injection Hx' as <-.
      rewrite Hseg in Hs. apply app_inv_tail in Hs. now subst b.
Qed.

Lemma normalizeImageName_flat_witness :
  ImportUtils.normalizeImageName
    (js "trips/2024/" ++ js "My  Photo" ++ "." :: js "PNG")
  = Spec.lowerHyphen (js "My  Photo") ++ "." :: js "PNG".
Proof.
  apply (proj2 (normalizeImageName_flat (js "trips/2024/") (js "My  Photo")
                  (js "PNG")));
    [ right; reflexivity | discriminate | repeat constructor | discriminate
    | repeat constructor | repeat constructor ].
Defined.
